(** * multiagent/environment.py: a shallow embedding of [MultiAgentEnv]

    The development follows the Python source function by function:
    the space composer of [__init__], the action decoder [_set_action],
    the assemblers [get_obs_agent] and [get_state], the episode
    driver [step] / [reset], and the reset of [BatchMultiAgentEnv].

    Conventions.
    - A numpy [float64] is a primitive binary64 float; a one-dimensional
      numpy array is a [list float].
    - A Python exception is a value of [exn]; code that may raise returns
      an [outcome].  Code that mutates an object and may raise returns the
      mutated object together with the outcome, because what was written
      before the exception stays written.
    - Python values whose dynamic type matters (a raw action may be an
      integer index or an array) are values of [pyval]. *)

From Stdlib Require Import ZArith Floats Lia.
From stdpp Require Import base list strings gmap.

Local Open Scope Z_scope.
Local Open Scope nat_scope.

(** ** Exceptions and fallible computations *)

Inductive exn : Set :=
| IndexError
| ValueError
| TypeError
| OverflowError
| AssertionError.

Inductive outcome (A : Type) : Type :=
| Ret (a : A)
| Raise (e : exn).
Arguments Ret {A} a.
Arguments Raise {A} e.

Definition obind {A B} (m : outcome A) (k : A -> outcome B) : outcome B :=
  match m with
  | Ret a => k a
  | Raise e => Raise e
  end.

#[global] Instance outcome_ret : MRet outcome := fun A a => Ret a.
#[global] Instance outcome_bind : MBind outcome := fun A B k m => obind m k.

(** A computation over a mutable object of type [S]: the final object is
    returned on both the normal and the exceptional path. *)
Definition SE (S A : Type) : Type := S -> S * outcome A.

Definition se_ret {S A} (a : A) : SE S A := fun s => (s, Ret a).
Definition se_raise {S A} (e : exn) : SE S A := fun s => (s, Raise e).
Definition se_lift {S A} (m : outcome A) : SE S A := fun s => (s, m).
Definition se_get {S} : SE S S := fun s => (s, Ret s).
Definition se_put {S} (s' : S) : SE S unit := fun _ => (s', Ret tt).
Definition se_bind {S A B} (m : SE S A) (k : A -> SE S B) : SE S B :=
  fun s =>
    match m s with
    | (s', Ret a) => k a s'
    | (s', Raise e) => (s', Raise e)
    end.

#[global] Instance se_mret {S} : MRet (SE S) := fun A a => se_ret a.
#[global] Instance se_mbind {S} : MBind (SE S) := fun A B k m => se_bind m k.

(** ** The numpy operations the module uses *)

(** [np.zeros(n)] *)
Definition np_zeros (n : nat) : list float := replicate n 0%float.

(** [a[lo:hi]] for in-range, non-negative bounds given as naturals; bounds
    past the end are clipped, as Python does. *)
Definition slice {A} (l : list A) (lo hi : nat) : list A :=
  take (hi - lo) (drop lo l).

(** A slice bound as Python normalises it: a negative bound counts from the
    end, and every bound is clipped to [0, len]. *)
Definition slice_bound (len : nat) (i : Z) : nat :=
  if (i <? 0)%Z then Z.to_nat (Z.max 0 (Z.of_nat len + i))
  else Nat.min (Z.to_nat i) len.

(** [a[lo:hi]] with integer bounds. *)
Definition py_slice {A} (l : list A) (lo hi : Z) : list A :=
  slice l (slice_bound (length l) lo) (slice_bound (length l) hi).

(** [dst[lo:hi] = src] on one-dimensional arrays: the source must have the
    length of the (clipped) destination slice, or length one (broadcast). *)
Definition np_set_slice (dst : list float) (lo hi : nat) (src : list float)
  : outcome (list float) :=
  let lo' := Nat.min lo (length dst) in
  let hi' := Nat.min hi (length dst) in
  let width := hi' - lo' in
  if length src =? width then Ret (list_inserts lo' src dst)
  else
    match src with
    | [x] => Ret (list_inserts lo' (replicate width x) dst)
    | _ => Raise ValueError
    end.

(** [a - b] on one-dimensional arrays, with numpy's broadcasting of a
    length-one operand. *)
Definition np_sub (a b : list float) : outcome (list float) :=
  if length a =? length b then Ret (zip_with PrimFloat.sub a b)
  else
    match a, b with
    | [x], _ => Ret (map (fun y => (x - y)%float) b)
    | _, [y] => Ret (map (fun x => (x - y)%float) a)
    | _, _ => Raise ValueError
    end.

(** [np.concatenate(arrays, axis=0)] on a list of one-dimensional arrays;
    numpy refuses an empty list. *)
Definition np_concatenate (arrays : list (list float)) : outcome (list float) :=
  match arrays with
  | [] => Raise ValueError
  | _ => Ret (concat arrays)
  end.

Fixpoint cumsum_from (acc : nat) (l : list nat) : list nat :=
  match l with
  | [] => []
  | x :: r => (acc + x) :: cumsum_from (acc + x) r
  end.

(** [np.cumsum(l)] *)
Definition np_cumsum (l : list nat) : list nat := cumsum_from 0 l.

(** [np.sum(l)] over a list of floats.  The list becomes a contiguous
    float64 array and [np.add.reduce] adds its pairwise sum to the initial
    value 0.0.  The pairwise sum is numpy's [DOUBLE_pairwise_sum]:
    - fewer than 8 elements are added in order, from -0.0;
    - up to 128 elements, eight running sums [r[j]] gather the elements at
      the positions [j], [j + 8], [j + 16], ... of the full blocks of 8,
      they are added as [((r0 + r1) + (r2 + r3)) + ((r4 + r5) + (r6 + r7))],
      and the elements after the last full block are added in order;
    - a longer array is cut at a multiple of 8 next to its middle, and the
      pairwise sums of the two parts are added. *)

(** [r[j] += a[i + j]] for [j] in 0..7, over [k] blocks of 8 elements. *)
Fixpoint accumulate8 (k : nat) (r a : list float) : list float :=
  match k with
  | 0 => r
  | S k' => accumulate8 k' (zip_with PrimFloat.add r (take 8 a)) (drop 8 a)
  end.

(** [((r[0] + r[1]) + (r[2] + r[3])) + ((r[4] + r[5]) + (r[6] + r[7]))];
    [r] always has 8 elements. *)
Definition combine8 (r : list float) : float :=
  match r with
  | [r0; r1; r2; r3; r4; r5; r6; r7] =>
      ((r0 + r1) + (r2 + r3)) + ((r4 + r5) + (r6 + r7))
  | _ => 0
  end%float.

(** The branch [n <= PW_BLOCKSIZE], for an array of 8 elements at least. *)
Definition block_sum (a : list float) : float :=
  let blocks := length a / 8 in
  let r := accumulate8 (blocks - 1) (take 8 a) (drop 8 a) in
  (* do non multiple of 8 rest *)
  fold_left PrimFloat.add (drop (8 * blocks) a) (combine8 r).

(** The recursion of the pairwise sum, unfolded [depth] times at most; an
    array of [n] elements needs fewer than [n] unfoldings
    ([pairwise_sum_eq] below). *)
Fixpoint pairwise_sum_upto (depth : nat) (a : list float) : float :=
  let n := length a in
  if n <? 8 then fold_left PrimFloat.add a (-0)%float
  else if n <=? 128 then block_sum a
  else
    match depth with
    | 0 => block_sum a
    | S depth' =>
        (* divide by two but avoid non-multiples of unroll factor *)
        let n2 := n / 2 in
        let n2 := n2 - n2 mod 8 in
        (pairwise_sum_upto depth' (take n2 a)
         + pairwise_sum_upto depth' (drop n2 a))%float
    end.

Definition pairwise_sum (a : list float) : float :=
  pairwise_sum_upto (length a) a.

Definition np_sum (l : list float) : float :=
  (0 + pairwise_sum l)%float.

Fixpoint argmax_from (mp : float) (best i : nat) (l : list float) : nat :=
  match l with
  | [] => best
  | x :: r =>
      if negb (x <=? mp)%float
      then (if is_nan x then i else argmax_from x i (S i) r)
      else argmax_from mp best (S i) r
  end.

(** [np.argmax(a)]: first index of the maximum, a NaN counting as the
    maximum; an empty array is refused. *)
Definition np_argmax (a : list float) : outcome nat :=
  match a with
  | [] => Raise ValueError
  | x :: r => if is_nan x then Ret 0 else Ret (argmax_from x 0 1 r)
  end.

(** [float(k)] for a Python integer, rounded to nearest even. *)
Definition float_of_Z (k : Z) : float :=
  SF2Prim (binary_normalize prec emax k 0 false).

(** ** Python values *)

(** What a raw action, a segment of it, or a control field can hold: a
    Python integer, a Python float, or a one-dimensional float array. *)
Inductive pyval : Type :=
| PInt (k : Z)
| PFloat (x : float)
| PArr (a : list float).

(** [v[i]] for a constant index [i >= 0]; scalars are not subscriptable. *)
Definition py_getitem (v : pyval) (i : nat) : outcome float :=
  match v with
  | PArr a =>
      match a !! i with
      | Some x => Ret x
      | None => Raise IndexError
      end
  | _ => Raise TypeError
  end.

(** [v[i] = x] for a constant index [i >= 0]. *)
Definition py_setitem (v : pyval) (i : nat) (x : float) : outcome pyval :=
  match v with
  | PArr a =>
      if i <? length a then Ret (PArr (<[i := x]> a)) else Raise IndexError
  | _ => Raise TypeError
  end.

(** The test [if v == k:] for an integer constant [k].  On an array the
    comparison is elementwise and the truth value of the result is taken:
    that of its only element, False when it is empty, and refused when it
    has two elements or more. *)
Definition py_eq_test (v : pyval) (k : Z) : outcome bool :=
  match v with
  | PInt j => Ret (j =? k)%Z
  | PFloat x => Ret (x =? float_of_Z k)%float
  | PArr [] => Ret false
  | PArr [x] => Ret (x =? float_of_Z k)%float
  | PArr _ => Raise ValueError
  end.

(** [v *= s] for a float [s]. *)
Definition py_imul (v : pyval) (s : float) : outcome pyval :=
  match v with
  | PArr a => Ret (PArr (map (fun x => (x * s)%float) a))
  | PFloat x => Ret (PFloat (x * s))
  | PInt k =>
      let x := float_of_Z k in
      if is_infinity x then Raise OverflowError else Ret (PFloat (x * s))
  end.

(** [a[idx] = x] on a numpy array [a] where the index is a run-time value:
    an integer indexes from the end when negative; a float or a float
    array is not a valid index.  A Python integer that does not fit the
    signed 64-bit index type is converted to an array first: from [2**63]
    to [2**64 - 1] it becomes an unsigned 64-bit value, whose conversion to
    an index overflows; any other becomes an object array, which is not a
    valid index. *)
Definition np_setitem_at (a : list float) (idx : pyval) (x : float)
  : outcome (list float) :=
  match idx with
  | PInt k =>
      let len := Z.of_nat (length a) in
      if ((0 <=? k) && (k <? len))%Z then Ret (<[Z.to_nat k := x]> a)
      else if ((- len <=? k) && (k <? 0))%Z
           then Ret (<[Z.to_nat (len + k) := x]> a)
           else if ((2 ^ 63 <=? k) && (k <? 2 ^ 64))%Z
                then Raise OverflowError
                else Raise IndexError
  | _ => Raise IndexError
  end.

(** [a[:] = 0.0; a[d] = 1.0] *)
Definition one_hot_at (len d : nat) : list float :=
  <[d := 1%float]> (np_zeros len).

(** ** The world (multiagent.core) *)

(** Modelled from the spec: multiagent.core is not among the sources.  The
    records below carry the attributes section 6 of the specification lists
    for the world collaborator and that environment.py reads or writes. *)

Module EntityState.
Record t : Type := mk { p_pos : list float; p_vel : list float }.
End EntityState.

Module Action.
Record t : Type := mk { u : pyval; c : pyval }.
End Action.

Module Agent.
Record t : Type := mk {
  movable : bool;
  silent : bool;
  accel : option float;
  u_range : float;
  (** [action_callback is None]: the agent is driven by a policy *)
  policy : bool;
  state : EntityState.t;
  action : Action.t
}.

Definition set_action (a : t) (act : Action.t) : t :=
  mk (movable a) (silent a) (accel a) (u_range a) (policy a) (state a) act.
End Agent.

Module Landmark.
Record t : Type := mk { state : EntityState.t }.
End Landmark.

Module World.
Record t : Type := mk {
  agents : list Agent.t;
  landmarks : list Landmark.t;
  dim_p : nat;
  dim_c : nat;
  (** [None] when the world object has no such attribute *)
  collaborative : option bool;
  discrete_action : option bool
}.

Definition set_agents (w : t) (ags : list Agent.t) : t :=
  mk ags (landmarks w) (dim_p w) (dim_c w) (collaborative w) (discrete_action w).

(** Modelled from the spec: the property [policy_agents] of multiagent.core
    is not among the sources; the glossary defines a policy agent as an
    agent whose actions are supplied externally, the others being
    scripted.  The agents keep the order of [agents]. *)
Definition policy_agents (w : t) : list Agent.t :=
  filter (fun a => Agent.policy a = true) (agents w).
End World.

(** ** Action spaces (gym.spaces and multiagent.multi_discrete) *)

(** Modelled from the spec: multiagent.multi_discrete is not among the
    sources.  [MultiDiscrete] is built from per-block bounds [[low, high]]
    and exposes them as the arrays [low] and [high] (sections 4.1, 4.2). *)
#[warnings="-register-all"]
Inductive Space : Type :=
| Discrete (n : Z)
| Box (low high : float) (shape : nat)
| MultiDiscrete (bounds : list (Z * Z))
| Tuple (spaces : list Space).

Definition md_low (bounds : list (Z * Z)) : list Z := map fst bounds.
Definition md_high (bounds : list (Z * Z)) : list Z := map snd bounds.

Definition is_Discrete (s : Space) : bool :=
  match s with
  | Discrete _ => true
  | _ => false
  end.

Definition Discrete_n (s : Space) : Z :=
  match s with
  | Discrete n => n
  | _ => 0%Z
  end.

(** ** Space composer: the body of the loop of [__init__], lines 127-151 *)

Definition compose_action_space (discrete_action_space : bool)
    (world : World.t) (agent : Agent.t) : outcome Space :=
  (* physical action space *)
  let u_action_space :=
    if discrete_action_space
    then Discrete (Z.of_nat (World.dim_p world) * 2 + 1)
    else Box (- Agent.u_range agent)%float (Agent.u_range agent)
             (World.dim_p world) in
  let total_action_space := if Agent.movable agent then [u_action_space] else [] in
  (* communication action space *)
  let c_action_space :=
    if discrete_action_space
    then Discrete (Z.of_nat (World.dim_c world))
    else Box 0%float 1%float (World.dim_c world) in
  let total_action_space :=
    if negb (Agent.silent agent)
    then total_action_space ++ [c_action_space]
    else total_action_space in
  (* total action space *)
  if 1 <? length total_action_space then
    if forallb is_Discrete total_action_space
    then Ret (MultiDiscrete
                (map (fun act_space => (0, Discrete_n act_space - 1)%Z)
                     total_action_space))
    else Ret (Tuple total_action_space)
  else
    match total_action_space !! 0 with
    | Some act_space => Ret act_space
    | None => Raise IndexError
    end.

(** ** The environment object *)

(** The mapping an info callback returns. *)
Definition Info : Type := gmap string float.

Module Env.
(** The attributes of a [MultiAgentEnv].  [self.agents] is not a field: it
    is re-read from [world.policy_agents] by [step] and [reset], and the
    source assumes that no agent is created or destroyed at run time, so it
    always is [World.policy_agents world].  [self.time] only ever holds
    [0.0 + 1 + ... + 1], which is exact in binary64 below [2^53]; it is
    kept as the integer it denotes.  The rendering attributes are left
    out. *)
Record t : Type := mk {
  world : World.t;
  (** the method [world.step()] *)
  world_step : World.t -> World.t;
  n : nat;
  reset_callback : option (World.t -> World.t);
  reward_callback : option (Agent.t -> World.t -> float);
  observation_callback : option (Agent.t -> World.t -> list float);
  info_callback : option (Agent.t -> World.t -> Info);
  done_callback : option (Agent.t -> World.t -> bool);
  discrete_action_space : bool;
  discrete_action_input : bool;
  force_discrete_action : bool;
  shared_reward : bool;
  time : Z;
  time_limit : Z;
  num_episodes : nat;
  action_space : list Space;
  observation_space : list Space;
  obs_n : list (option (list float));
  n_agents : nat;
  translate_observation : option (list nat);
  translate_state : option (list nat)
}.

Definition set_world (e : t) (w : World.t) : t :=
  mk w (world_step e) (n e) (reset_callback e) (reward_callback e)
     (observation_callback e) (info_callback e) (done_callback e)
     (discrete_action_space e) (discrete_action_input e)
     (force_discrete_action e) (shared_reward e) (time e) (time_limit e)
     (num_episodes e) (action_space e) (observation_space e) (obs_n e)
     (n_agents e) (translate_observation e) (translate_state e).

Definition set_time (e : t) (tm : Z) : t :=
  mk (world e) (world_step e) (n e) (reset_callback e) (reward_callback e)
     (observation_callback e) (info_callback e) (done_callback e)
     (discrete_action_space e) (discrete_action_input e)
     (force_discrete_action e) (shared_reward e) tm (time_limit e)
     (num_episodes e) (action_space e) (observation_space e) (obs_n e)
     (n_agents e) (translate_observation e) (translate_state e).

Definition set_num_episodes (e : t) (k : nat) : t :=
  mk (world e) (world_step e) (n e) (reset_callback e) (reward_callback e)
     (observation_callback e) (info_callback e) (done_callback e)
     (discrete_action_space e) (discrete_action_input e)
     (force_discrete_action e) (shared_reward e) (time e) (time_limit e)
     k (action_space e) (observation_space e) (obs_n e)
     (n_agents e) (translate_observation e) (translate_state e).

Definition set_obs_n (e : t) (o : list (option (list float))) : t :=
  mk (world e) (world_step e) (n e) (reset_callback e) (reward_callback e)
     (observation_callback e) (info_callback e) (done_callback e)
     (discrete_action_space e) (discrete_action_input e)
     (force_discrete_action e) (shared_reward e) (time e) (time_limit e)
     (num_episodes e) (action_space e) (observation_space e) o
     (n_agents e) (translate_observation e) (translate_state e).

Definition set_done_callback (e : t)
    (cb : option (Agent.t -> World.t -> bool)) : t :=
  mk (world e) (world_step e) (n e) (reset_callback e) (reward_callback e)
     (observation_callback e) (info_callback e) cb
     (discrete_action_space e) (discrete_action_input e)
     (force_discrete_action e) (shared_reward e) (time e) (time_limit e)
     (num_episodes e) (action_space e) (observation_space e) (obs_n e)
     (n_agents e) (translate_observation e) (translate_state e).
(** The assignment [env.translate_observation = tmap]. *)
Definition set_translate_observation (e : t) (tmap : option (list nat)) : t :=
  mk (world e) (world_step e) (n e) (reset_callback e) (reward_callback e)
     (observation_callback e) (info_callback e) (done_callback e)
     (discrete_action_space e) (discrete_action_input e)
     (force_discrete_action e) (shared_reward e) (time e) (time_limit e)
     (num_episodes e) (action_space e) (observation_space e) (obs_n e)
     (n_agents e) tmap (translate_state e).

(** The assignment [env.translate_state = tmap]. *)
Definition set_translate_state (e : t) (tmap : option (list nat)) : t :=
  mk (world e) (world_step e) (n e) (reset_callback e) (reward_callback e)
     (observation_callback e) (info_callback e) (done_callback e)
     (discrete_action_space e) (discrete_action_input e)
     (force_discrete_action e) (shared_reward e) (time e) (time_limit e)
     (num_episodes e) (action_space e) (observation_space e) (obs_n e)
     (n_agents e) (translate_observation e) tmap.
End Env.

(** ** Action decoder: [_set_action], lines 245-293 *)

(** [lst[i]] on a Python list. *)
Definition list_getitem {A} (lst : list A) (i : nat) : outcome A :=
  match lst !! i with
  | Some x => Ret x
  | None => Raise IndexError
  end.

(** [action[lo:hi]]: only an array can be sliced. *)
Definition py_getslice (action : pyval) (lo hi : Z) : outcome pyval :=
  match action with
  | PArr a => Ret (PArr (py_slice a lo hi))
  | _ => Raise TypeError
  end.

(** [size = action_space.high - action_space.low + 1] *)
Definition md_size (bounds : list (Z * Z)) : list Z :=
  zip_with (fun high low => (high - low + 1)%Z) (md_high bounds) (md_low bounds).

(** The loop [for s in size: act.append(action[index:(index+s)]); index += s] *)
Fixpoint split_action (action : pyval) (index : Z) (size : list Z)
  : outcome (list pyval) :=
  match size with
  | [] => Ret []
  | s :: size' =>
      seg ← py_getslice action index (index + s);
      act ← split_action action (index + s) size';
      Ret (seg :: act)
  end.

(** Lines 249-258: the raw action as a list of segments. *)
Definition segments_of (action : pyval) (action_space : Space)
  : outcome (list pyval) :=
  match action_space with
  | MultiDiscrete bounds => split_action action 0 (md_size bounds)
  | _ => Ret [action]
  end.

Definition set_u (v : pyval) : SE Action.t unit :=
  fun a => (Action.mk v (Action.c a), Ret tt).
Definition set_c (v : pyval) : SE Action.t unit :=
  fun a => (Action.mk (Action.u a) v, Ret tt).
Definition get_u : SE Action.t pyval := fun a => (a, Ret (Action.u a)).
Definition get_c : SE Action.t pyval := fun a => (a, Ret (Action.c a)).

(** [if action[0] == k: agent.action.u[axis] = x] *)
Definition discrete_move (action : list pyval) (k : Z) (axis : nat) (x : float)
  : SE Action.t unit :=
  a0 ← se_lift (list_getitem action 0);
  b ← se_lift (py_eq_test a0 k);
  if b : bool then
    uv ← get_u;
    uv' ← se_lift (py_setitem uv axis x);
    set_u uv'
  else mret tt.

(** [d = np.argmax(action[0]); action[0][:] = 0.0; action[0][d] = 1.0].
    [np.argmax] of a scalar is 0, and the slice assignment then fails. *)
Definition force_one_hot (a0 : pyval) : outcome pyval :=
  match a0 with
  | PArr a =>
      d ← np_argmax a;
      Ret (PArr (one_hot_at (length a) d))
  | _ => Raise TypeError
  end.

(** [agent.action.u[axis] += a0[i] - a0[j]] *)
Definition push_pull (a0 : pyval) (axis i j : nat) : SE Action.t unit :=
  uv ← get_u;
  u_axis ← se_lift (py_getitem uv axis);
  x ← se_lift (py_getitem a0 i);
  y ← se_lift (py_getitem a0 j);
  uv' ← se_lift (py_setitem uv axis (u_axis + (x - y))%float);
  set_u uv'.

(** Lines 260-283, run when [agent.movable]; returns [action[1:]]. *)
Definition physical_action (e : Env.t) (agent : Agent.t) (action : list pyval)
  : SE Action.t (list pyval) :=
  (if Env.discrete_action_input e then
     set_u (PArr (np_zeros (World.dim_p (Env.world e))));;
     (* process discrete action *)
     discrete_move action 1 0 (-1)%float;;
     discrete_move action 2 0 1%float;;
     discrete_move action 3 1 (-1)%float;;
     discrete_move action 4 1 1%float
   else
     a0 ← se_lift (list_getitem action 0);
     a0 ← (if Env.force_discrete_action e
            then se_lift (force_one_hot a0)
            else mret a0);
     if Env.discrete_action_space e then
       push_pull a0 0 1 2;;
       push_pull a0 1 3 4
     else set_u a0);;
  let sensitivity :=
    match Agent.accel agent with
    | Some accel => accel
    | None => 5.0%float
    end in
  uv ← get_u;
  uv' ← se_lift (py_imul uv sensitivity);
  set_u uv';;
  mret (drop 1 action).

(** Lines 284-291, run when [not agent.silent]; returns [action[1:]]. *)
Definition communication_action (e : Env.t) (action : list pyval)
  : SE Action.t (list pyval) :=
  (if Env.discrete_action_input e then
     set_c (PArr (np_zeros (World.dim_c (Env.world e))));;
     a0 ← se_lift (list_getitem action 0);
     cv ← se_lift (np_setitem_at (np_zeros (World.dim_c (Env.world e))) a0 1%float);
     set_c (PArr cv)
   else
     a0 ← se_lift (list_getitem action 0);
     set_c a0);;
  mret (drop 1 action).

(** The body of [_set_action] as a computation on [agent.action]. *)
Definition set_action_body (e : Env.t) (action : pyval) (agent : Agent.t)
    (action_space : Space) : SE Action.t unit :=
  set_u (PArr (np_zeros (World.dim_p (Env.world e))));;
  set_c (PArr (np_zeros (World.dim_c (Env.world e))));;
  (* process action *)
  action ← se_lift (segments_of action action_space);
  action ← (if Agent.movable agent
             then physical_action e agent action
             else mret action);
  action ← (if negb (Agent.silent agent)
             then communication_action e action
             else mret action);
  (* make sure we used all elements of action *)
  if length action =? 0 then mret tt else se_raise AssertionError.

(** [self._set_action(action, agent, action_space)]: the agent after the
    call, and whether the call returned or raised. *)
Definition _set_action (e : Env.t) (action : pyval) (agent : Agent.t)
    (action_space : Space) : Agent.t * outcome unit :=
  let '(act, r) := set_action_body e action agent action_space (Agent.action agent) in
  (Agent.set_action agent act, r).

(** ** State/observation assembler: [get_obs_agent] and [get_state] *)

(** What an assembler returns: the cumulative segment boundaries when
    [structure] is set, a vector of values otherwise. *)
Inductive assembled : Type :=
| Boundaries (b : list nat)
| Values (v : list float).

(** [a[i]] on a numpy array of integers. *)
Definition np_getitem (a : list nat) (i : nat) : outcome nat :=
  match a !! i with
  | Some x => Ret x
  | None => Raise IndexError
  end.

(** [lst[-1]] on a Python list. *)
Definition list_last (lst : list nat) : outcome nat :=
  match last lst with
  | Some x => Ret x
  | None => Raise IndexError
  end.

(** One iteration of the translation loop (lines 413-414, 448-449):
    [size = structure[i+1] - structure[i]] and
    [new[translate[i] : translate[i] + size] = flat[structure[i] : structure[i+1]]]. *)
Definition translate_segment (tmap structure : list nat) (flat : list float)
    (new : list float) (i : nat) : outcome (list float) :=
  hi ← np_getitem structure (i + 1);
  lo ← np_getitem structure i;
  let size := hi - lo in
  off ← np_getitem tmap i;
  np_set_slice new off (off + size) (slice flat lo hi).

(** The loop [for i in range(len(translate) - 1)] started at index [i]
    with [k] iterations left. *)
Fixpoint translate_loop (tmap structure : list nat) (flat : list float)
    (new : list float) (i k : nat) : outcome (list float) :=
  match k with
  | 0 => Ret new
  | S k' =>
      new' ← translate_segment tmap structure flat new i;
      translate_loop tmap structure flat new' (S i) k'
  end.

(** Lines 408-416 and 444-451: the zero-padded translation of [flat]. *)
Definition translate (tmap structure : list nat) (flat : list float)
  : outcome (list float) :=
  total ← list_last tmap;
  translate_loop tmap structure flat (np_zeros total) 0 (length tmap - 1).

(** The loop of lines 394-396 from index [i] on: the position of [agent]
    relative to every other agent. *)
Fixpoint relative_to_agents (agent : Agent.t) (agent_id i : nat)
    (others : list Agent.t) : outcome (list (list float)) :=
  match others with
  | [] => Ret []
  | a :: others' =>
      if i =? agent_id then relative_to_agents agent agent_id (S i) others'
      else
        d ← np_sub (EntityState.p_pos (Agent.state agent))
                   (EntityState.p_pos (Agent.state a));
        rest ← relative_to_agents agent agent_id (S i) others';
        Ret (d :: rest)
  end.

(** The loop of lines 400-401: every landmark relative to [agent]. *)
Fixpoint relative_landmarks (agent : Agent.t) (lms : list Landmark.t)
  : outcome (list (list float)) :=
  match lms with
  | [] => Ret []
  | landmark :: lms' =>
      d ← np_sub (EntityState.p_pos (Landmark.state landmark))
                 (EntityState.p_pos (Agent.state agent));
      rest ← relative_landmarks agent lms';
      Ret (d :: rest)
  end.

Definition get_obs_agent (e : Env.t) (agent_id : nat) (structure : bool)
  : outcome assembled :=
  let world := Env.world e in
  agent ← list_getitem (World.agents world) agent_id;
  let obs := [EntityState.p_pos (Agent.state agent);
              EntityState.p_vel (Agent.state agent)] in
  let obs_structure := [0; 4] in (* p_pos + p_vel = 4 *)
  rel ← relative_to_agents agent agent_id 0 (World.agents world);
  let obs := obs ++ rel in
  let obs_structure := obs_structure ++ [2 * (length (World.agents world) - 1)] in
  lms ← relative_landmarks agent (World.landmarks world);
  let obs := obs ++ lms in
  let obs_structure := obs_structure ++ [2 * length (World.landmarks world)] in
  if structure then Ret (Boundaries (np_cumsum obs_structure))
  else
    match Env.translate_observation e with
    | Some translate_observation =>
        let obs_structure := np_cumsum obs_structure in
        obs ← np_concatenate obs;
        new_obs ← translate translate_observation obs_structure obs;
        Ret (Values new_obs)
    | None =>
        obs ← np_concatenate obs;
        Ret (Values obs)
    end.

(** [self.get_obs()]: one observation per policy agent, indexed by its
    position among the policy agents. *)
Fixpoint get_obs_from (e : Env.t) (agent_id k : nat) : outcome (list assembled) :=
  match k with
  | 0 => Ret []
  | S k' =>
      o ← get_obs_agent e agent_id false;
      rest ← get_obs_from e (S agent_id) k';
      Ret (o :: rest)
  end.

Definition get_obs (e : Env.t) : outcome (list assembled) :=
  get_obs_from e 0 (length (World.policy_agents (Env.world e))).

Definition get_state (e : Env.t) (structure : bool) : outcome assembled :=
  let world := Env.world e in
  let state_structure := [0] in
  let state :=
    concat (map (fun agent => [EntityState.p_pos (Agent.state agent);
                               EntityState.p_vel (Agent.state agent)])
                (World.agents world)) in
  let state_structure := state_structure ++ [length (World.agents world) * 4] in
  let state :=
    state ++ map (fun landmark => EntityState.p_pos (Landmark.state landmark))
                 (World.landmarks world) in
  let state_structure := state_structure ++ [length (World.agents world) * 2] in
  state ← np_concatenate state;
  (* assert len(state.shape) == 1 holds of every one-dimensional array *)
  if structure then Ret (Boundaries (np_cumsum state_structure))
  else
    match Env.translate_state e with
    | Some translate_state =>
        let state_structure := np_cumsum state_structure in
        new_state ← translate translate_state state_structure state;
        Ret (Values new_state)
    | None => Ret (Values state)
    end.

Definition get_obs_size (e : Env.t) : outcome nat :=
  o ← get_obs_agent e 0 false;
  match o with
  | Values v => Ret (length v)
  | Boundaries b => Ret (length b)
  end.

Definition get_state_size (e : Env.t) : outcome nat :=
  s ← get_state e false;
  match s with
  | Values v => Ret (length v)
  | Boundaries b => Ret (length b)
  end.

Definition get_total_actions (e : Env.t) : outcome nat :=
  if Env.discrete_action_space e then Ret 5
  else Raise ValueError (* continuous action space not supported *).

(** ** Episode driver: [step] and [reset] *)

(** get info used for benchmarking *)
Definition _get_info (e : Env.t) (agent : Agent.t) : Info :=
  match Env.info_callback e with
  | None => ∅
  | Some info_callback => info_callback agent (Env.world e)
  end.

(** get observation for a particular agent *)
Definition _get_obs (e : Env.t) (agent : Agent.t) : list float :=
  match Env.observation_callback e with
  | None => np_zeros 0
  | Some observation_callback => observation_callback agent (Env.world e)
  end.

(** get dones for a particular agent *)
Definition _get_done (e : Env.t) (agent : Agent.t) : bool :=
  match Env.done_callback e with
  | None => false
  | Some done_callback => done_callback agent (Env.world e)
  end.

(** get reward for a particular agent *)
Definition _get_reward (e : Env.t) (agent : Agent.t) : float :=
  match Env.reward_callback e with
  | None => 0.0%float
  | Some reward_callback => reward_callback agent (Env.world e)
  end.

(** Lines 177-178: [for i, agent in enumerate(self.agents)] over the policy
    agents among [agents], each decoded in place; [i] counts the policy
    agents met so far.  The loop stops at the first exception. *)
Fixpoint set_actions (e : Env.t) (action_n : list pyval) (i : nat)
    (agents : list Agent.t) : list Agent.t * outcome unit :=
  match agents with
  | [] => ([], Ret tt)
  | agent :: agents' =>
      if Agent.policy agent then
        match list_getitem action_n i with
        | Raise ex => (agent :: agents', Raise ex)
        | Ret action =>
            match list_getitem (Env.action_space e) i with
            | Raise ex => (agent :: agents', Raise ex)
            | Ret action_space =>
                match _set_action e action agent action_space with
                | (agent', Raise ex) => (agent' :: agents', Raise ex)
                | (agent', Ret _) =>
                    let '(rest, r) := set_actions e action_n (S i) agents' in
                    (agent' :: rest, r)
                end
            end
        end
      else
        let '(rest, r) := set_actions e action_n i agents' in
        (agent :: rest, r)
  end.

(** Lines 189-192: the scalar reward, and the local [reward_n] after the
    cooperative case has been applied. *)
Definition total_reward (e : Env.t) (reward_n : list float) : float * list float :=
  let reward := np_sum reward_n in
  let reward_n := if Env.shared_reward e then replicate (Env.n e) reward else reward_n in
  (reward, reward_n).

(** The local lists of [step] once the loop of lines 182-187 is over and
    the rewards have been totalled. *)
Module StepLocals.
Record t : Type := mk {
  obs_n : list (list float);
  reward_n : list float;
  done_n : list bool;
  info_n : list Info;
  reward : float
}.
End StepLocals.

(** [e] is the environment after [world.step()]. *)
Definition record_step (e : Env.t) : StepLocals.t :=
  let agents := World.policy_agents (Env.world e) in
  let obs_n := map (_get_obs e) agents in
  let reward_n := map (_get_reward e) agents in
  let done_n := map (_get_done e) agents in
  let info_n := map (_get_info e) agents in
  (* all agents get total reward in cooperative case *)
  let '(reward, reward_n) := total_reward e reward_n in
  StepLocals.mk obs_n reward_n done_n info_n reward.

(** Lines 197-200. *)
Definition done_flag (tm time_limit : Z) : float :=
  if (tm =? time_limit)%Z then 1.0%float else 0.0%float.

(** The environment as [world.step()] is called: every policy agent has
    been decoded, or the decoding has raised. *)
Definition decode_actions (e : Env.t) (action_n : list pyval) : Env.t * outcome unit :=
  let '(agents, r) := set_actions e action_n 0 (World.agents (Env.world e)) in
  (Env.set_world e (World.set_agents (Env.world e) agents), r).

(** [self.world.step()] *)
Definition advance_world (e : Env.t) : Env.t :=
  Env.set_world e (Env.world_step e (Env.world e)).

(** [self.step(action_n)]: [(reward, done, info_n['n'])]. *)
Definition step (e : Env.t) (action_n : list pyval)
  : Env.t * outcome (float * float * list Info) :=
  (* set action for each agent *)
  match decode_actions e action_n with
  | (e, Raise ex) => (e, Raise ex)
  | (e, Ret _) =>
      (* advance world state *)
      let e := advance_world e in
      (* record observation for each agent *)
      let locals := record_step e in
      let e := Env.set_obs_n e (map Some (StepLocals.obs_n locals)) in
      let e := Env.set_time e (Env.time e + 1)%Z in
      let done := done_flag (Env.time e) (Env.time_limit e) in
      (e, Ret (StepLocals.reward locals, done, StepLocals.info_n locals))
  end.

(** [self.reset(evaluate)] *)
Definition reset (e : Env.t) (evaluate : bool) : Env.t * outcome (list assembled) :=
  match Env.reset_callback e with
  | None => (e, Raise TypeError)
  | Some reset_callback =>
      (* reset world *)
      let e := Env.set_world e (reset_callback (Env.world e)) in
      let e := Env.set_time e 0%Z in
      let e := if negb evaluate
               then Env.set_num_episodes e (Env.num_episodes e + 1)
               else e in
      (e, get_obs e)
  end.

(** Successive calls of [step], one per element of [actions]; the values
    returned so far are lost when a call raises. *)
Fixpoint run_steps (e : Env.t) (actions : list (list pyval))
  : Env.t * outcome (list (float * float * list Info)) :=
  match actions with
  | [] => (e, Ret [])
  | action_n :: actions' =>
      match step e action_n with
      | (e', Raise ex) => (e', Raise ex)
      | (e', Ret r) =>
          match run_steps e' actions' with
          | (e'', Raise ex) => (e'', Raise ex)
          | (e'', Ret rs) => (e'', Ret (r :: rs))
          end
      end
  end.

(** ** Construction: [__init__], lines 97-168 *)

(** The loop of lines 126-155 over the policy agents of [todo]; [done]
    holds the agents already visited, so the world the observation
    callback sees is [done ++ todo].  Returns the agents, the action
    spaces and the observation spaces. *)
Fixpoint configure_spaces (discrete_action_space : bool)
    (observation_callback : option (Agent.t -> World.t -> list float))
    (world : World.t) (done todo : list Agent.t)
  : outcome (list Agent.t * list Space * list Space) :=
  match todo with
  | [] => Ret (done, [], [])
  | agent :: todo' =>
      if Agent.policy agent then
        act_space ← compose_action_space discrete_action_space world agent;
        (* observation space *)
        obs_dim ← match observation_callback with
                  | Some cb => Ret (length (cb agent (World.set_agents world (done ++ todo))))
                  | None => Raise TypeError
                  end;
        let agent' :=
          Agent.set_action agent
            (Action.mk (Action.u (Agent.action agent))
                       (PArr (np_zeros (World.dim_c world)))) in
        r ← configure_spaces discrete_action_space observation_callback world
              (done ++ [agent']) todo';
        let '(agents, action_space, observation_space) := r in
        Ret (agents,
             act_space :: action_space,
             Box neg_infinity infinity obs_dim :: observation_space)
      else
        configure_spaces discrete_action_space observation_callback world
          (done ++ [agent]) todo'
  end.

Definition __init__ (world : World.t) (world_step : World.t -> World.t)
    (reset_callback : option (World.t -> World.t))
    (reward_callback : option (Agent.t -> World.t -> float))
    (observation_callback : option (Agent.t -> World.t -> list float))
    (info_callback : option (Agent.t -> World.t -> Info))
    (done_callback : option (Agent.t -> World.t -> bool))
    (discrete_action_space discrete_action_input : bool) (time_limit : Z)
  : outcome Env.t :=
  let n := length (World.policy_agents world) in
  r ← configure_spaces discrete_action_space observation_callback world
        [] (World.agents world);
  let '(agents, action_space, observation_space) := r in
  Ret (Env.mk (World.set_agents world agents) world_step n
         reset_callback reward_callback observation_callback info_callback
         done_callback discrete_action_space discrete_action_input
         (* force_discrete_action, shared_reward *)
         (default false (World.discrete_action world))
         (default false (World.collaborative world))
         0%Z time_limit 0 action_space observation_space
         (replicate n None) n None None).

(** ** Available actions: lines 458-462 *)

(** [np.arange(n)] *)
Definition np_arange (n : nat) : list Z := map Z.of_nat (seq 0 n).

Definition get_avail_actions (e : Env.t) : list (list Z) :=
  map (fun _ => np_arange 5) (World.policy_agents (Env.world e)).

Definition get_avail_agent_actions (e : Env.t) (agent_id : nat) : list Z :=
  np_arange 5.

(** ** The batch adapter: [BatchMultiAgentEnv], lines 482-522 *)

(** [np.sum] of a list of integers. *)
Definition np_sum_nat (l : list nat) : nat := fold_left Nat.add l 0.

(** The property [n]: [np.sum([env.n for env in self.env_batch])]. *)
Definition batch_n (env_batch : list Env.t) : nat :=
  np_sum_nat (map Env.n env_batch).

(** The property [action_space]: [self.env_batch[0].action_space]. *)
Definition batch_action_space (env_batch : list Env.t) : outcome (list Space) :=
  env ← list_getitem env_batch 0;
  Ret (Env.action_space env).

(** [reset]: the loop [for env in self.env_batch: obs_n += env.reset()]
    from the observations [obs_n] gathered so far; the environments are
    reset in place, up to the first that raises.  The environments of a
    batch are taken to be distinct objects. *)
Fixpoint batch_reset_from (obs_n : list assembled) (env_batch : list Env.t)
  : list Env.t * outcome (list assembled) :=
  match env_batch with
  | [] => ([], Ret obs_n)
  | env :: env_batch' =>
      match reset env false with
      | (env', Raise ex) => (env' :: env_batch', Raise ex)
      | (env', Ret obs) =>
          let '(rest, r) := batch_reset_from (obs_n ++ obs) env_batch' in
          (env' :: rest, r)
      end
  end.

Definition batch_reset (env_batch : list Env.t)
  : list Env.t * outcome (list assembled) :=
  batch_reset_from [] env_batch.

(** * Notions used in the statements *)

(** The part of [_set_action] that follows the two initial writes. *)
Definition decode_segments (e : Env.t) (action : pyval) (agent : Agent.t)
    (action_space : Space) : SE Action.t unit :=
  action ← se_lift (segments_of action action_space);
  action ← (if Agent.movable agent
             then physical_action e agent action
             else mret action);
  action ← (if negb (Agent.silent agent)
             then communication_action e action
             else mret action);
  if length action =? 0 then mret tt else se_raise AssertionError.

(** The control fields of an agent once [_set_action] is over. *)
Definition u_after (e : Env.t) (action : pyval) (agent : Agent.t)
    (action_space : Space) : pyval :=
  Action.u (Agent.action (fst (_set_action e action agent action_space))).

Definition c_after (e : Env.t) (action : pyval) (agent : Agent.t)
    (action_space : Space) : pyval :=
  Action.c (Agent.action (fst (_set_action e action agent action_space))).

Definition is_MultiDiscrete (s : Space) : bool :=
  match s with
  | MultiDiscrete _ => true
  | _ => false
  end.

(** Follows the words of the specification (section 4.2, discrete-index
    mode): value 1 is the negative unit of axis 0, 2 the positive unit of
    axis 0, 3 the negative unit of axis 1, 4 the positive unit of axis 1,
    and value 0 is no movement. *)
Definition movement_table (dim_p : nat) (v : Z) : list float :=
  match v with
  | 1%Z => <[0 := (-1)%float]> (np_zeros dim_p)
  | 2%Z => <[0 := 1%float]> (np_zeros dim_p)
  | 3%Z => <[1 := (-1)%float]> (np_zeros dim_p)
  | 4%Z => <[1 := 1%float]> (np_zeros dim_p)
  | _ => np_zeros dim_p
  end.

(** The acceleration sensitivity of lines 279-281. *)
Definition sensitivity_of (agent : Agent.t) : float :=
  match Agent.accel agent with
  | Some accel => accel
  | None => 5.0%float
  end.

(** An agent whose unused control fields are zero vectors of the world's
    dimensions. *)
Definition controls_zeroed (world : World.t) (agent : Agent.t) : Prop :=
  (Agent.movable agent = false ->
   Action.u (Agent.action agent) = PArr (np_zeros (World.dim_p world))) /\
  (Agent.silent agent = true ->
   Action.c (Agent.action agent) = PArr (np_zeros (World.dim_c world))).

(** The convention of the specification (section 4.3): every position and
    every velocity of the world has two coordinates. *)
Definition two_dimensional (world : World.t) : Prop :=
  Forall (fun a => length (EntityState.p_pos (Agent.state a)) = 2 /\
                   length (EntityState.p_vel (Agent.state a)) = 2)
         (World.agents world) /\
  Forall (fun l => length (EntityState.p_pos (Landmark.state l)) = 2)
         (World.landmarks world).

(** The slices of [flat] between consecutive boundaries. *)
Fixpoint cut_at {A} (boundaries : list nat) (flat : list A) : list (list A) :=
  match boundaries with
  | lo :: ((hi :: _) as rest) => slice flat lo hi :: cut_at rest flat
  | _ => []
  end.

(** Follows the words of the specification (section 4.3): own position,
    own velocity, for every other agent the position of self minus that of
    the other, for every landmark its position minus that of self,
    concatenated in this order. *)
Definition flat_observation (world : World.t) (agent_id : nat)
  : outcome (list float) :=
  agent ← list_getitem (World.agents world) agent_id;
  rel ← relative_to_agents agent agent_id 0 (World.agents world);
  lms ← relative_landmarks agent (World.landmarks world);
  Ret (EntityState.p_pos (Agent.state agent)
       ++ EntityState.p_vel (Agent.state agent)
       ++ concat rel ++ concat lms).

(** The boundaries of the observation of a world of [n_agents] agents and
    [n_landmarks] landmarks. *)
Definition obs_boundaries (n_agents n_landmarks : nat) : list nat :=
  np_cumsum [0; 4; 2 * (n_agents - 1); 2 * n_landmarks].

(** The width of source segment [i] of a descriptor. *)
Definition seg_width (boundaries : list nat) (i : nat) : nat :=
  boundaries !!! (i + 1) - boundaries !!! i.

(** Position [p] of the destination lies in the slot of segment [i]. *)
Definition in_slot (tmap boundaries : list nat) (i p : nat) : Prop :=
  tmap !!! i <= p < tmap !!! i + seg_width boundaries i.

(** The positions and velocities of the agents, then the positions of the
    landmarks: the vector [get_state] concatenates. *)
Definition agents_block (world : World.t) : list float :=
  concat (map (fun a => EntityState.p_pos (Agent.state a)
                        ++ EntityState.p_vel (Agent.state a))
              (World.agents world)).

Definition landmarks_block (world : World.t) : list float :=
  concat (map (fun l => EntityState.p_pos (Landmark.state l))
              (World.landmarks world)).

(** [a'] is [a] with, at most, other control fields. *)
Definition same_but_controls (a a' : Agent.t) : Prop :=
  Agent.movable a' = Agent.movable a /\
  Agent.silent a' = Agent.silent a /\
  Agent.accel a' = Agent.accel a /\
  Agent.u_range a' = Agent.u_range a /\
  Agent.policy a' = Agent.policy a /\
  Agent.state a' = Agent.state a /\
  (Agent.policy a = false -> a' = a).

(** What line 155 does to an agent of the loop. *)
Definition with_zero_signal (dim_c : nat) (agent : Agent.t) : Agent.t :=
  if Agent.policy agent
  then Agent.set_action agent
         (Action.mk (Action.u (Agent.action agent)) (PArr (np_zeros dim_c)))
  else agent.

(** The agent can be given an action space. *)
Definition moves_or_speaks (agent : Agent.t) : Prop :=
  Agent.movable agent = true \/ Agent.silent agent = false.

(** A way of adding floats up: which are added, and in what grouping. *)
Inductive sum_tree : Type :=
| Leaf (x : float)
| Plus (l r : sum_tree).

Fixpoint tree_value (t : sum_tree) : float :=
  match t with
  | Leaf x => x
  | Plus l r => (tree_value l + tree_value r)%float
  end.

Fixpoint tree_leaves (t : sum_tree) : list float :=
  match t with
  | Leaf x => [x]
  | Plus l r => tree_leaves l ++ tree_leaves r
  end.

Definition is_zero (x : float) : Prop := x = 0%float \/ x = (-0)%float.

(** Follows the words of the specification (section 4.4, "sum rewards
    across agents into a scalar"): [s] is a floating-point sum of [l], the
    result of additions in which every element of [l] takes part exactly
    once, in some order and grouping, together with zeros at most. *)
Definition float_sum_of (l : list float) (s : float) : Prop :=
  exists t zeros,
    tree_value t = s /\ Forall is_zero zeros /\ tree_leaves t ≡ₚ zeros ++ l.

(** * Sample worlds

    Small two-dimensional worlds on which the statements below are
    instantiated. *)

Definition origin_state : EntityState.t :=
  EntityState.mk [0.5%float; 1%float] [0%float; 0.25%float].

Definition stale_action : Action.t :=
  Action.mk (PArr [9%float; 9%float]) (PArr [7%float]).

(** A policy agent at [origin_state] whose control fields hold stale
    values. *)
Definition sample_agent (movable silent : bool) : Agent.t :=
  Agent.mk movable silent None 1%float true origin_state stale_action.

Definition sample_landmark (x y : float) : Landmark.t :=
  Landmark.mk (EntityState.mk [x; y] [0%float; 0%float]).

(** An environment around [world] as [__init__] leaves it, except for the
    action spaces, which are given. *)
Definition sample_env (world : World.t) (action_space : list Space)
    (discrete_action_space discrete_action_input : bool) (time_limit : Z)
  : Env.t :=
  Env.mk world (fun w => w) (length (World.policy_agents world))
    (Some (fun w => w)) None None None None
    discrete_action_space discrete_action_input false false
    0%Z time_limit 0 action_space [] [] (length (World.policy_agents world))
    None None.

(** A mover that cannot speak and a speaker that cannot move. *)
Definition mover_speaker_world : World.t :=
  World.mk [sample_agent true true; sample_agent false false]
    [sample_landmark 1 1] 2 3 None None.

Definition mover_speaker_env : Env.t :=
  sample_env mover_speaker_world [Discrete 5; Discrete 3] true true 25.

(** One policy agent and two landmarks. *)
Definition lone_agent_world : World.t :=
  World.mk [sample_agent true true]
    [sample_landmark 1 1; sample_landmark 2 (-1)] 2 3 None None.

Definition lone_agent_env : Env.t :=
  sample_env lone_agent_world [Discrete 5] true true 2.

(** Three movers whose reward is their control range: 1.0, 2.0 and 3.0;
    the world is collaborative and an episode lasts two steps. *)
Definition ranged_agent (u_range : float) : Agent.t :=
  Agent.mk true true None u_range true origin_state stale_action.

Definition three_agent_world : World.t :=
  World.mk [ranged_agent 1; ranged_agent 2; ranged_agent 3]
    [sample_landmark 1 1] 2 3 (Some true) None.

Definition three_agent_env : Env.t :=
  Env.mk three_agent_world (fun w => w) 3
    (Some (fun w => w)) (Some (fun agent _ => Agent.u_range agent))
    None None (Some (fun agent _ => Agent.movable agent))
    true true false true 0%Z 2%Z 0
    [Discrete 5; Discrete 5; Discrete 5] [] [None; None; None] 3 None None.

(** The termination flag of a value returned by [step]. *)
Definition flag_of (r : float * float * list Info) : float := snd (fst r).

(** The reward of a value returned by [step]. *)
Definition reward_of (r : float * float * list Info) : float := fst (fst r).

(** The value a call returned, or [d] when it raised. *)
Definition returned {A} (d : A) (o : outcome A) : A :=
  match o with
  | Ret a => a
  | Raise _ => d
  end.

(** Two episodes of three steps each in [lone_agent_env], whose time limit
    is 2: a reset, three steps, a second reset, three more steps. *)
Definition three_steps : list (list pyval) := [[PInt 0]; [PInt 2]; [PInt 1]].

Definition first_episode : Env.t * outcome (list (float * float * list Info)) :=
  run_steps (fst (reset lone_agent_env false)) three_steps.

Definition second_episode : Env.t * outcome (list (float * float * list Info)) :=
  run_steps (fst (reset (fst first_episode) false)) three_steps.

(** Two silent movers at different places and one landmark; observations
    are translated into a layout of width 12 with offsets 0, 6 and 8. *)
Definition placed_agent (x y : float) : Agent.t :=
  Agent.mk true true None 1%float true
    (EntityState.mk [x; y] [0.125%float; 0.25%float]) stale_action.

Definition spread_world : World.t :=
  World.mk [placed_agent 0.5 1; placed_agent 2 3] [sample_landmark 1 1]
    2 3 None None.

Definition spread_env : Env.t :=
  sample_env spread_world [Discrete 5; Discrete 5] true true 25.

Definition translated_env : Env.t :=
  Env.set_translate_observation spread_env (Some [0; 6; 8; 12]).

(** A world with nothing in it. *)
Definition empty_world : World.t := World.mk [] [] 2 3 None None.

Definition empty_env : Env.t := sample_env empty_world [] true true 25.

(** Two agents and one landmark, with an identity layout for the state as
    its descriptor describes it: 8 agent coordinates, then 4 more. *)
Definition crowded_env : Env.t :=
  Env.set_translate_state spread_env (Some [0; 8; 12]).

(** One agent and two landmarks, the state translated into a layout of
    width 10 with the agent block at 0 and the landmark slot at 6. *)
Definition sparse_env : Env.t :=
  Env.set_translate_state lone_agent_env (Some [0; 6; 10]).

(** The environment [__init__] builds around [mover_speaker_world] when
    every observation is the one-element array [[1.0]]. *)
Definition built_env : outcome Env.t :=
  __init__ mover_speaker_world (fun w => w) (Some (fun w => w)) None
    (Some (fun _ _ => [1.0%float])) None None true true 25.

(** * Properties *)

(** ** Reasoning about computations on a mutable object *)

Section Frame.
Context {S X : Type} (f : S -> X).

(** [m] leaves the component [f] of the object as it found it, on the
    normal and on the exceptional path. *)
Definition preserves {A} (m : SE S A) : Prop :=
  forall s, f (fst (m s)) = f s.

Lemma preserves_ret {A} (a : A) : preserves (mret a : SE S A).
Proof. intros s. reflexivity. Qed.

Lemma preserves_raise {A} (e : exn) : preserves (se_raise e : SE S A).
Proof. intros s. reflexivity. Qed.

Lemma preserves_lift {A} (m : outcome A) : preserves (se_lift m : SE S A).
Proof. intros s. reflexivity. Qed.

Lemma preserves_bind {A B} (m : SE S A) (k : A -> SE S B) :
  preserves m -> (forall a, preserves (k a)) -> preserves (m ≫= k).
Proof.
  intros Hm Hk s. unfold mbind, se_mbind, se_bind.
  specialize (Hm s). destruct (m s) as [s' [a|ex]]; simpl in *.
  - rewrite Hk. exact Hm.
  - exact Hm.
Qed.

Lemma preserves_if {A} (b : bool) (m1 m2 : SE S A) :
  preserves m1 -> preserves m2 -> preserves (if b then m1 else m2).
Proof. destruct b; auto. Qed.
End Frame.

Lemma preserves_get_u {X} (f : Action.t -> X) : preserves f get_u.
Proof. intros s. reflexivity. Qed.

Lemma preserves_get_c {X} (f : Action.t -> X) : preserves f get_c.
Proof. intros s. reflexivity. Qed.

Lemma set_u_preserves_c v : preserves Action.c (set_u v).
Proof. intros s. reflexivity. Qed.

Lemma set_c_preserves_u v : preserves Action.u (set_c v).
Proof. intros s. reflexivity. Qed.

Create HintDb frame.
#[local] Hint Resolve preserves_ret preserves_raise preserves_lift
  preserves_get_u preserves_get_c set_u_preserves_c set_c_preserves_u : frame.

Ltac frame :=
  repeat first
    [ progress eauto with frame
    | apply preserves_bind; [ | intros ? ]
    | apply preserves_if
    | match goal with
      | |- preserves _ (match ?x with _ => _ end) => destruct x
      end ].

Lemma discrete_move_preserves_c action k axis x :
  preserves Action.c (discrete_move action k axis x).
Proof. unfold discrete_move. frame. Qed.

Lemma push_pull_preserves_c a0 axis i j :
  preserves Action.c (push_pull a0 axis i j).
Proof. unfold push_pull. frame. Qed.

Lemma physical_action_preserves_c e agent action :
  preserves Action.c (physical_action e agent action).
Proof.
  unfold physical_action. frame;
    auto using discrete_move_preserves_c, push_pull_preserves_c.
Qed.

Lemma communication_action_preserves_u e action :
  preserves Action.u (communication_action e action).
Proof. unfold communication_action. frame. Qed.


Lemma set_action_body_unfold e action agent action_space s :
  set_action_body e action agent action_space s =
  decode_segments e action agent action_space
    (Action.mk (PArr (np_zeros (World.dim_p (Env.world e))))
               (PArr (np_zeros (World.dim_c (Env.world e))))).
Proof. reflexivity. Qed.

Lemma decode_segments_preserves_u e action agent action_space :
  Agent.movable agent = false ->
  preserves Action.u (decode_segments e action agent action_space).
Proof.
  intros Hm. unfold decode_segments. rewrite Hm.
  frame; auto using communication_action_preserves_u.
Qed.

Lemma decode_segments_preserves_c e action agent action_space :
  Agent.silent agent = true ->
  preserves Action.c (decode_segments e action agent action_space).
Proof.
  intros Hs. unfold decode_segments. rewrite Hs. simpl.
  frame; auto using physical_action_preserves_c.
Qed.

Lemma _set_action_fst e action agent action_space :
  Agent.action (fst (_set_action e action agent action_space)) =
  fst (set_action_body e action agent action_space (Agent.action agent)).
Proof.
  unfold _set_action.
  destruct (set_action_body e action agent action_space (Agent.action agent)).
  reflexivity.
Qed.

Lemma _set_action_snd e action agent action_space :
  snd (_set_action e action agent action_space) =
  snd (set_action_body e action agent action_space (Agent.action agent)).
Proof.
  unfold _set_action.
  destruct (set_action_body e action agent action_space (Agent.action agent)).
  reflexivity.
Qed.

Lemma not_movable_u_zero e action agent action_space :
  Agent.movable agent = false ->
  u_after e action agent action_space = PArr (np_zeros (World.dim_p (Env.world e))).
Proof.
  intros Hm. unfold u_after.
  rewrite _set_action_fst, set_action_body_unfold.
  rewrite (decode_segments_preserves_u e action agent action_space Hm).
  reflexivity.
Qed.

Lemma silent_c_zero e action agent action_space :
  Agent.silent agent = true ->
  c_after e action agent action_space = PArr (np_zeros (World.dim_c (Env.world e))).
Proof.
  intros Hs. unfold c_after.
  rewrite _set_action_fst, set_action_body_unfold.
  rewrite (decode_segments_preserves_c e action agent action_space Hs).
  reflexivity.
Qed.

(** [_set_action] writes the control fields only. *)
Lemma _set_action_flags e action agent action_space :
  let agent' := fst (_set_action e action agent action_space) in
  Agent.movable agent' = Agent.movable agent /\
  Agent.silent agent' = Agent.silent agent /\
  Agent.policy agent' = Agent.policy agent.
Proof.
  unfold _set_action.
  destruct (set_action_body e action agent action_space (Agent.action agent)).
  simpl. auto.
Qed.

Lemma _set_action_zeroes e action agent action_space :
  controls_zeroed (Env.world e) (fst (_set_action e action agent action_space)).
Proof.
  destruct (_set_action_flags e action agent action_space) as (Hm & Hs & _).
  split; intros H.
  - rewrite Hm in H. exact (not_movable_u_zero e action agent action_space H).
  - rewrite Hs in H. exact (silent_c_zero e action agent action_space H).
Qed.

(** The decoding loop of [step], when it runs to its end, leaves every
    policy agent with its unused control fields zeroed. *)
Lemma set_actions_zeroes e action_n :
  forall agents i agents',
    set_actions e action_n i agents = (agents', Ret tt) ->
    Forall (fun a => Agent.policy a = true -> controls_zeroed (Env.world e) a) agents'.
Proof.
  induction agents as [|agent agents IH]; intros i agents' H; simpl in H.
  - inversion H. constructor.
  - destruct (Agent.policy agent) eqn:Hp.
    + destruct (list_getitem action_n i) as [action|]; [|discriminate].
      destruct (list_getitem (Env.action_space e) i) as [sp|]; [|discriminate].
      pose proof (_set_action_zeroes e action agent sp) as Hz.
      destruct (_set_action e action agent sp) as [agent' [[]|]]; [|discriminate].
      destruct (set_actions e action_n (S i) agents) as [rest r] eqn:Hrest.
      inversion H; subst. constructor; [intros _; exact Hz|].
      eapply IH. exact Hrest.
    + destruct (set_actions e action_n i agents) as [rest r] eqn:Hrest.
      inversion H; subst. constructor; [congruence|].
      eapply IH. exact Hrest.
Qed.

(** C10: decoding first zeroes both control fields, and only a movable
    agent has its movement force written again, only a communicating agent
    its communication signal.  So after a successful decode of one agent,
    whatever the buffer and whatever the fields held before, a non-movable
    agent's force is the zero vector of length [dim_p] and a silent agent's
    signal is the zero vector of length [dim_c]; and when the decoding loop
    of a [step] has run to its end this holds of every policy agent of the
    world that is handed to [world.step()]. *)
Theorem decode_zeroes_unused_controls
    (e : Env.t) (action : pyval) (agent : Agent.t) (action_space : Space)
    (action_n : list pyval) (e' : Env.t) (other : Agent.t) :
  snd (_set_action e action agent action_space) = Ret tt ->
  decode_actions e action_n = (e', Ret tt) ->
  other ∈ World.policy_agents (Env.world e') ->
  controls_zeroed (Env.world e) (fst (_set_action e action agent action_space)) /\
  controls_zeroed (Env.world e') other.
Proof.
  intros _ Hdec Hin. split; [apply _set_action_zeroes|].
  unfold decode_actions in Hdec.
  destruct (set_actions e action_n 0 (World.agents (Env.world e)))
    as [agents r] eqn:Hset.
  inversion Hdec; subst; clear Hdec.
  apply set_actions_zeroes in Hset.
  unfold World.policy_agents in Hin. simpl in Hin.
  apply list_elem_of_filter in Hin as [Hp Hin].
  rewrite Forall_forall in Hset.
  exact (Hset other Hin Hp).
Qed.

Lemma decode_zeroes_unused_controls_witness :
  let e := mover_speaker_env in
  let e' := fst (decode_actions e [PInt 2; PInt 1]) in
  let speaker :=
    Agent.set_action (sample_agent false false)
      (Action.mk (PArr [0%float; 0%float])
                 (PArr [0%float; 1%float; 0%float])) in
  snd (_set_action e (PInt 2) (sample_agent true true) (Discrete 5)) = Ret tt /\
  decode_actions e [PInt 2; PInt 1] = (e', Ret tt) /\
  speaker ∈ World.policy_agents (Env.world e') /\
  controls_zeroed (Env.world e)
    (fst (_set_action e (PInt 2) (sample_agent true true) (Discrete 5))) /\
  controls_zeroed (Env.world e') speaker.
Proof.
  cbv zeta.
  assert (H1 : snd (_set_action mover_speaker_env (PInt 2)
                      (sample_agent true true) (Discrete 5)) = Ret tt)
    by reflexivity.
  assert (H2 : decode_actions mover_speaker_env [PInt 2; PInt 1] =
               (fst (decode_actions mover_speaker_env [PInt 2; PInt 1]), Ret tt))
    by reflexivity.
  assert (H3 : Agent.set_action (sample_agent false false)
                 (Action.mk (PArr [0%float; 0%float])
                            (PArr [0%float; 1%float; 0%float]))
               ∈ World.policy_agents
                   (Env.world (fst (decode_actions mover_speaker_env [PInt 2; PInt 1]))))
    by (vm_compute; repeat constructor).
  repeat split; try assumption;
    apply (decode_zeroes_unused_controls _ _ _ _ _ _ _ H1 H2 H3).
Defined.

(** ** Agents that neither move nor speak *)

Lemma compose_nothing discrete_action_space world agent :
  Agent.movable agent = false ->
  Agent.silent agent = true ->
  compose_action_space discrete_action_space world agent = Raise IndexError.
Proof.
  intros Hm Hs. unfold compose_action_space. rewrite Hm, Hs.
  destruct discrete_action_space; reflexivity.
Qed.

Lemma segments_of_not_MultiDiscrete action action_space :
  is_MultiDiscrete action_space = false ->
  segments_of action action_space = Ret [action].
Proof. destruct action_space; simpl; intros H; congruence. Qed.

Lemma decode_nothing e action agent action_space :
  Agent.movable agent = false ->
  Agent.silent agent = true ->
  is_MultiDiscrete action_space = false ->
  snd (_set_action e action agent action_space) = Raise AssertionError.
Proof.
  intros Hm Hs Hsp. rewrite _set_action_snd, set_action_body_unfold.
  unfold decode_segments.
  rewrite (segments_of_not_MultiDiscrete _ _ Hsp), Hm, Hs.
  reflexivity.
Qed.

(** C2, as the specification states it, fails on a silent, immovable agent
    of a two-dimensional world: the composer raises instead of returning an
    empty space, and decoding the empty buffer against the space such an
    agent would have as a pure mover or a pure speaker raises too. *)
Lemma empty_space_counterexample :
  let idle := Agent.mk false true None 1%float true origin_state stale_action in
  let e := mover_speaker_env in
  compose_action_space true (Env.world e) idle = Raise IndexError /\
  compose_action_space false (Env.world e) idle = Raise IndexError /\
  snd (_set_action e (PArr []) idle (Discrete 5)) = Raise AssertionError /\
  snd (_set_action e (PArr []) idle (Discrete 3)) = Raise AssertionError.
Proof. cbv zeta. repeat split; reflexivity. Qed.

(** C2 (amended): for an agent with [movable = False] and [silent = True]
    the composer builds no space at all: the list of sub-spaces is empty
    and taking its first element raises [IndexError].  Decoding any buffer
    for such an agent leaves the movement force (length [dim_p]) and the
    communication signal (length [dim_c]) all zero, but it does not return
    normally with a space that is not a [MultiDiscrete]: the buffer is
    wrapped as one segment that nothing consumes, and the final assertion
    fails. *)
Theorem idle_agent_has_no_space_and_decode_asserts
    (e : Env.t) (action : pyval) (agent : Agent.t) (action_space : Space) :
  Agent.movable agent = false ->
  Agent.silent agent = true ->
  is_MultiDiscrete action_space = false ->
  compose_action_space (Env.discrete_action_space e) (Env.world e) agent
    = Raise IndexError /\
  u_after e action agent action_space = PArr (np_zeros (World.dim_p (Env.world e))) /\
  c_after e action agent action_space = PArr (np_zeros (World.dim_c (Env.world e))) /\
  snd (_set_action e action agent action_space) = Raise AssertionError.
Proof.
  intros Hm Hs Hsp. split; [|split; [|split]].
  - apply compose_nothing; assumption.
  - apply not_movable_u_zero; assumption.
  - apply silent_c_zero; assumption.
  - apply decode_nothing; assumption.
Qed.

Lemma idle_agent_has_no_space_and_decode_asserts_witness :
  let idle := Agent.mk false true None 1%float true origin_state stale_action in
  let e := mover_speaker_env in
  compose_action_space true (Env.world e) idle = Raise IndexError /\
  u_after e (PArr []) idle (Discrete 5) = PArr [0%float; 0%float] /\
  c_after e (PArr []) idle (Discrete 5) = PArr [0%float; 0%float; 0%float] /\
  snd (_set_action e (PArr []) idle (Discrete 5)) = Raise AssertionError.
Proof.
  cbv zeta.
  exact (idle_agent_has_no_space_and_decode_asserts mover_speaker_env (PArr [])
           (Agent.mk false true None 1%float true origin_state stale_action)
           (Discrete 5) eq_refl eq_refl eq_refl).
Defined.

(** ** Discrete-index movement *)






(** ** The global-state structure descriptor *)

Lemma get_state_boundaries e :
  World.agents (Env.world e) <> [] ->
  get_state e true =
  Ret (Boundaries [0; length (World.agents (Env.world e)) * 4;
                   length (World.agents (Env.world e)) * 4
                   + length (World.agents (Env.world e)) * 2]).
Proof.
  intros Hne. unfold get_state.
  destruct (World.agents (Env.world e)) as [|a ags]; [congruence|].
  reflexivity.
Qed.

(** C1: the claim asks for a landmark segment of width [2 * n_landmarks]
    in the descriptor of [get_state].  The code appends
    [len(self.world.agents) * 2] instead: in a world of one agent and two
    landmarks the descriptor is [[0, 4, 6]], the second width is 2, the
    claim's width is 4, and the state vector the descriptor describes has
    length 8.  [get_obs_agent] uses the landmark count for the same
    segment (its descriptor here is [[0, 4, 4, 8]]). *)
Theorem get_state_structure_uses_agent_count_for_landmarks :
  get_state lone_agent_env true = Ret (Boundaries [0; 4; 6]) /\
  2 * length (World.landmarks (Env.world lone_agent_env)) = 4 /\
  4 * length (World.agents (Env.world lone_agent_env)) = 4 /\
  get_state_size lone_agent_env = Ret 8 /\
  get_obs_agent lone_agent_env 0 true = Ret (Boundaries [0; 4; 4; 8]).
Proof. repeat split; reflexivity. Qed.

(** ** The episode driver *)

Lemma float_zero_not_one : 0.0%float <> 1.0%float.
Proof.
  intros H.
  apply (f_equal (fun x => (x =? 1.0)%float)) in H.
  vm_compute in H. discriminate.
Qed.

Lemma done_flag_one tm time_limit :
  done_flag tm time_limit = 1.0%float <-> tm = time_limit.
Proof.
  unfold done_flag. destruct (Z.eqb_spec tm time_limit) as [Heq|Hne].
  - tauto.
  - split; [intros H; destruct (float_zero_not_one H)|tauto].
Qed.

Lemma done_flag_zero tm time_limit :
  done_flag tm time_limit = 0.0%float <-> tm <> time_limit.
Proof.
  unfold done_flag. destruct (Z.eqb_spec tm time_limit) as [Heq|Hne].
  - split; [intros H; symmetry in H; destruct (float_zero_not_one H)|tauto].
  - tauto.
Qed.

(** The decoding loop writes the agents of the world and nothing else. *)
Lemma decode_actions_env e action_n :
  exists agents,
    fst (decode_actions e action_n) =
    Env.set_world e (World.set_agents (Env.world e) agents).
Proof.
  unfold decode_actions.
  destruct (set_actions e action_n 0 (World.agents (Env.world e))) as [agents r].
  exists agents. reflexivity.
Qed.

(** What a [step] that returns has done. *)
Lemma step_returns e action_n e' r :
  step e action_n = (e', Ret r) ->
  exists ed,
    decode_actions e action_n = (ed, Ret tt) /\
    let ew := advance_world ed in
    let locals := record_step ew in
    e' = Env.set_time (Env.set_obs_n ew (map Some (StepLocals.obs_n locals)))
           (Env.time e + 1)%Z /\
    r = (StepLocals.reward locals,
         done_flag (Env.time e + 1) (Env.time_limit e),
         StepLocals.info_n locals).
Proof.
  unfold step. intros H.
  pose proof (decode_actions_env e action_n) as [agents Hagents].
  destruct (decode_actions e action_n) as [ed [[]|ex]]; [|discriminate].
  simpl in Hagents. exists ed. split; [reflexivity|].
  inversion H; subst. split; reflexivity.
Qed.

Lemma step_clock e action_n e' r :
  step e action_n = (e', Ret r) ->
  Env.time e' = (Env.time e + 1)%Z /\
  Env.time_limit e' = Env.time_limit e /\
  flag_of r = done_flag (Env.time e + 1) (Env.time_limit e).
Proof.
  intros H. apply step_returns in H as (ed & Hdec & He' & Hr).
  pose proof (decode_actions_env e action_n) as [agents Hagents].
  rewrite Hdec in Hagents. simpl in Hagents. subst. auto.
Qed.

(** The flag of the [k]-th value (counting from 0) that a run of steps
    returns is decided by the clock the run started from. *)
Lemma run_steps_flags :
  forall actions e e' results k r,
    run_steps e actions = (e', Ret results) ->
    results !! k = Some r ->
    flag_of r = done_flag (Env.time e + Z.of_nat k + 1) (Env.time_limit e).
Proof.
  induction actions as [|action_n actions IH]; intros e e' results k r Hrun Hk;
    simpl in Hrun.
  - inversion Hrun; subst. discriminate.
  - destruct (step e action_n) as [e1 [r1|ex]] eqn:Hstep; [|discriminate].
    destruct (run_steps e1 actions) as [e2 [rs|ex]] eqn:Hrest; [|discriminate].
    inversion Hrun; subst; clear Hrun.
    apply step_clock in Hstep as (Ht & Hl & Hf).
    destruct k as [|k]; simpl in Hk.
    + inversion Hk; subst. rewrite Hf. f_equal. lia.
    + rewrite (IH _ _ _ _ _ Hrest Hk), Ht, Hl. f_equal. lia.
Qed.

Lemma reset_clock e evaluate e0 obs :
  reset e evaluate = (e0, Ret obs) ->
  Env.time e0 = 0%Z /\ Env.time_limit e0 = Env.time_limit e.
Proof.
  unfold reset. intros H.
  destruct (Env.reset_callback e) as [cb|]; [|discriminate].
  inversion H; subst. destruct evaluate; split; reflexivity.
Qed.

(** C7: [reset] sets the clock to 0, whatever it held; of the calls of
    [step] that follow, the one numbered [k + 1] returns the termination
    flag 1.0 exactly when [k + 1] equals [time_limit], and 0.0 otherwise.
    The environment reset is arbitrary, so the same holds of every later
    episode. *)
Theorem termination_at_time_limit
    (e : Env.t) (evaluate : bool) (e0 : Env.t) (obs : list assembled)
    (actions : list (list pyval)) (e' : Env.t)
    (results : list (float * float * list Info)) (k : nat)
    (r : float * float * list Info) :
  reset e evaluate = (e0, Ret obs) ->
  run_steps e0 actions = (e', Ret results) ->
  results !! k = Some r ->
  Env.time e0 = 0%Z /\
  (flag_of r = 1.0%float <-> Z.of_nat (k + 1) = Env.time_limit e) /\
  (flag_of r = 0.0%float <-> Z.of_nat (k + 1) <> Env.time_limit e).
Proof.
  intros Hreset Hrun Hk.
  apply reset_clock in Hreset as [Ht Hl].
  rewrite (run_steps_flags _ _ _ _ _ _ Hrun Hk), Ht, Hl.
  replace (0 + Z.of_nat k + 1)%Z with (Z.of_nat (k + 1)) by lia.
  split; [reflexivity|]. split; [apply done_flag_one|apply done_flag_zero].
Qed.

(** With a time limit of 2 the flags of three steps are 0.0, 1.0, 0.0, in
    the first episode and again after a second reset. *)
Lemma termination_at_time_limit_witness :
  map flag_of (returned [] (snd first_episode)) = [0.0; 1.0; 0.0]%float /\
  map flag_of (returned [] (snd second_episode)) = [0.0; 1.0; 0.0]%float /\
  Env.time (fst (reset (fst first_episode) false)) = 0%Z /\
  (flag_of (returned (0.0, 0.0, [])%float
              (list_getitem (returned [] (snd second_episode)) 1))
     = 1.0%float <->
   Z.of_nat (1 + 1) = Env.time_limit (fst first_episode)).
Proof.
  split; [vm_compute; reflexivity|]. split; [vm_compute; reflexivity|].
  assert (H1 : reset (fst first_episode) false =
               (fst (reset (fst first_episode) false),
                Ret (returned [] (snd (reset (fst first_episode) false)))))
    by (vm_compute; reflexivity).
  assert (H2 : run_steps (fst (reset (fst first_episode) false)) three_steps =
               (fst second_episode, Ret (returned [] (snd second_episode))))
    by (vm_compute; reflexivity).
  assert (H3 : returned [] (snd second_episode) !! 1 =
               Some (returned (0.0, 0.0, [])%float
                       (list_getitem (returned [] (snd second_episode)) 1)))
    by (vm_compute; reflexivity).
  pose proof (termination_at_time_limit _ _ _ _ _ _ _ _ _ H1 H2 H3)
    as (Ht & Hone & _).
  split; [exact Ht|exact Hone].
Defined.

(** ** Rewards *)

(** *** The pairwise sum of numpy *)

(** The depth given to [pairwise_sum_upto] by [pairwise_sum] is enough:
    the recursion of the source is met at every length. *)
Lemma pairwise_halves n :
  128 < n ->
  1 <= n / 2 - (n / 2) mod 8 /\ n / 2 - (n / 2) mod 8 < n.
Proof.
  intros Hn.
  pose proof (Nat.div_mod_eq n 2) as H1.
  pose proof (Nat.mod_upper_bound n 2 ltac:(lia)) as H2.
  pose proof (Nat.div_mod_eq (n / 2) 8) as H3.
  pose proof (Nat.mod_upper_bound (n / 2) 8 ltac:(lia)) as H4.
  lia.
Qed.

Lemma pairwise_sum_upto_S depth (a : list float) :
  pairwise_sum_upto (S depth) a =
  if length a <? 8 then fold_left PrimFloat.add a (-0)%float
  else if length a <=? 128 then block_sum a
  else (pairwise_sum_upto depth
          (take (length a / 2 - (length a / 2) mod 8) a)
        + pairwise_sum_upto depth
            (drop (length a / 2 - (length a / 2) mod 8) a))%float.
Proof. reflexivity. Qed.

Lemma pairwise_sum_upto_0 (a : list float) :
  pairwise_sum_upto 0 a =
  if length a <? 8 then fold_left PrimFloat.add a (-0)%float
  else block_sum a.
Proof. simpl. destruct (length a <? 8), (length a <=? 128); reflexivity. Qed.

Lemma pairwise_sum_upto_depth :
  forall d1 d2 a,
    length a <= d1 -> length a <= d2 ->
    pairwise_sum_upto d1 a = pairwise_sum_upto d2 a.
Proof.
  induction d1 as [|d1 IH]; intros d2 a H1 H2.
  - destruct a; [|simpl in H1; lia]. destruct d2; reflexivity.
  - destruct d2 as [|d2].
    { destruct a; [reflexivity|simpl in H2; lia]. }
    rewrite !pairwise_sum_upto_S.
    destruct (length a <? 8); [reflexivity|].
    destruct (Nat.leb_spec (length a) 128) as [|Hlong]; [reflexivity|].
    destruct (pairwise_halves _ Hlong) as [Hlo Hhi].
    rewrite (IH d2 (take _ a)), (IH d2 (drop _ a)); [reflexivity|..];
      rewrite ?length_take, ?length_drop; lia.
Qed.

Lemma pairwise_sum_eq (a : list float) :
  pairwise_sum a =
  let n := length a in
  if n <? 8 then fold_left PrimFloat.add a (-0)%float
  else if n <=? 128 then block_sum a
  else
    let n2 := n / 2 in
    let n2 := n2 - n2 mod 8 in
    (pairwise_sum (take n2 a) + pairwise_sum (drop n2 a))%float.
Proof.
  unfold pairwise_sum. cbv zeta.
  destruct (length a) as [|d] eqn:Hlen.
  { destruct a; [reflexivity|discriminate]. }
  rewrite pairwise_sum_upto_S, Hlen.
  destruct (S d <? 8); [reflexivity|].
  destruct (Nat.leb_spec (S d) 128) as [|Hlong]; [reflexivity|].
  destruct (pairwise_halves _ Hlong) as [Hlo Hhi].
  f_equal; apply pairwise_sum_upto_depth;
    rewrite ?length_take, ?length_drop; lia.
Qed.

(** Every part of the pairwise sum adds each element once. *)
Lemma fold_left_add_tree (a : list float) :
  forall t,
    exists t',
      tree_value t' = fold_left PrimFloat.add a (tree_value t) /\
      tree_leaves t' = tree_leaves t ++ a.
Proof.
  induction a as [|x a IH]; intros t.
  - exists t. rewrite app_nil_r. split; reflexivity.
  - destruct (IH (Plus t (Leaf x))) as (t' & Hv & Hl).
    exists t'. split; [exact Hv|].
    rewrite Hl. simpl. rewrite <- app_assoc. reflexivity.
Qed.

Lemma zip_add_trees :
  forall (ts : list sum_tree) (xs : list float),
    length ts = length xs ->
    zip_with PrimFloat.add (map tree_value ts) xs =
      map tree_value (zip_with Plus ts (map Leaf xs)) /\
    concat (map tree_leaves (zip_with Plus ts (map Leaf xs)))
      ≡ₚ concat (map tree_leaves ts) ++ xs.
Proof.
  induction ts as [|t ts IH]; intros [|x xs] Hlen; try discriminate.
  - split; reflexivity.
  - destruct (IH xs ltac:(simpl in Hlen; lia)) as [Hv Hl].
    split; [simpl; rewrite Hv; reflexivity|].
    simpl. rewrite Hl.
    rewrite <- !app_assoc. apply Permutation_app_head.
    rewrite (Permutation_app_comm (concat (map tree_leaves ts)) (x :: xs)).
    simpl. constructor. apply Permutation_app_comm.
Qed.

Lemma accumulate8_trees :
  forall k (ts : list sum_tree) (a : list float),
    length ts = 8 ->
    8 * k <= length a ->
    exists ts',
      length ts' = 8 /\
      accumulate8 k (map tree_value ts) a = map tree_value ts' /\
      concat (map tree_leaves ts')
        ≡ₚ concat (map tree_leaves ts) ++ take (8 * k) a.
Proof.
  induction k as [|k IH]; intros ts a Hts Ha.
  - exists ts. change (8 * 0) with 0. rewrite take_0, app_nil_r.
    split; [exact Hts|]. split; reflexivity.
  - assert (Htake : length (take 8 a) = 8) by (rewrite length_take; lia).
    destruct (zip_add_trees ts (take 8 a) ltac:(lia)) as [Hv Hl].
    destruct (IH (zip_with Plus ts (map Leaf (take 8 a))) (drop 8 a))
      as (ts' & Hlen' & Hacc & Hleaves).
    { rewrite length_zip_with, length_map. lia. }
    { rewrite length_drop. lia. }
    exists ts'. split; [exact Hlen'|]. split.
    + simpl accumulate8. rewrite Hv. exact Hacc.
    + rewrite Hleaves, Hl, <- app_assoc. apply Permutation_app_head.
      replace (8 * S k) with (8 + 8 * k) by lia.
      rewrite <- take_take_drop. reflexivity.
Qed.

Lemma combine8_tree (ts : list sum_tree) :
  length ts = 8 ->
  exists t,
    tree_value t = combine8 (map tree_value ts) /\
    tree_leaves t = concat (map tree_leaves ts).
Proof.
  intros Hlen.
  do 8 (destruct ts as [|? ts]; [discriminate|]).
  destruct ts; [|discriminate].
  eexists (Plus (Plus (Plus _ _) (Plus _ _)) (Plus (Plus _ _) (Plus _ _))).
  split; [reflexivity|].
  simpl. rewrite app_nil_r, <- !app_assoc. reflexivity.
Qed.

Lemma block_sum_tree (a : list float) :
  8 <= length a ->
  exists t, tree_value t = block_sum a /\ tree_leaves t ≡ₚ a.
Proof.
  intros Hlen. unfold block_sum.
  pose proof (Nat.div_mod_eq (length a) 8) as Hdiv.
  pose proof (Nat.mod_upper_bound (length a) 8 ltac:(lia)) as Hmod.
  set (blocks := length a / 8) in *.
  assert (Hblocks : 1 <= blocks) by lia.
  assert (Hfirst : take 8 a = map tree_value (map Leaf (take 8 a))).
  { rewrite map_map. simpl. rewrite map_id. reflexivity. }
  destruct (accumulate8_trees (blocks - 1) (map Leaf (take 8 a)) (drop 8 a))
    as (ts & Hts & Hacc & Hleaves).
  { rewrite length_map, length_take. lia. }
  { rewrite length_drop. lia. }
  destruct (combine8_tree ts Hts) as (t & Hv & Hl).
  destruct (fold_left_add_tree (drop (8 * blocks) a) t) as (t' & Hv' & Hl').
  exists t'. split.
  - rewrite Hv', Hv, <- Hacc, <- Hfirst. reflexivity.
  - rewrite Hl', Hl, Hleaves.
    assert (Hleaf : forall l : list float, concat (map tree_leaves (map Leaf l)) = l).
    { induction l as [|x l IH]; [reflexivity|]. simpl. rewrite IH. reflexivity. }
    rewrite Hleaf.
    rewrite take_take_drop.
    replace (8 + 8 * (blocks - 1)) with (8 * blocks) by lia.
    rewrite take_drop. reflexivity.
Qed.

Lemma pairwise_sum_upto_tree :
  forall depth (a : list float),
    exists t zeros,
      tree_value t = pairwise_sum_upto depth a /\
      Forall is_zero zeros /\
      tree_leaves t ≡ₚ zeros ++ a.
Proof.
  assert (Hblock : forall a : list float,
            8 <= length a ->
            exists t zeros,
              tree_value t = block_sum a /\
              Forall is_zero zeros /\
              tree_leaves t ≡ₚ zeros ++ a).
  { intros a Hlen. destruct (block_sum_tree a Hlen) as (t & Hv & Hl).
    exists t, []. split; [exact Hv|]. split; [constructor|exact Hl]. }
  induction depth as [|depth IH]; intros a;
    [rewrite pairwise_sum_upto_0|rewrite pairwise_sum_upto_S];
    destruct (Nat.ltb_spec (length a) 8) as [Hshort|Hlen].
  1, 3:
    destruct (fold_left_add_tree a (Leaf (-0)%float)) as (t & Hv & Hl);
    exists t, [(-0)%float];
    (split; [exact Hv|]);
    (split; [repeat constructor; right; reflexivity|rewrite Hl; reflexivity]).
  - apply Hblock; exact Hlen.
  - destruct (length a <=? 128); [apply Hblock; exact Hlen|].
    set (n2 := length a / 2 - (length a / 2) mod 8).
    destruct (IH (take n2 a)) as (t1 & z1 & Hv1 & Hz1 & Hl1).
    destruct (IH (drop n2 a)) as (t2 & z2 & Hv2 & Hz2 & Hl2).
    exists (Plus t1 t2), (z1 ++ z2). split; [simpl; rewrite Hv1, Hv2; reflexivity|].
    split; [apply Forall_app; split; assumption|].
    simpl. rewrite Hl1, Hl2.
    rewrite <- (take_drop n2 a) at 3.
    rewrite <- !app_assoc. apply Permutation_app_head.
    rewrite !app_assoc. apply Permutation_app_tail. apply Permutation_app_comm.
Qed.

(** [np.sum] is a floating-point sum of its argument. *)
Lemma np_sum_float_sum (l : list float) : float_sum_of l (np_sum l).
Proof.
  destruct (pairwise_sum_upto_tree (length l) l) as (t & zeros & Hv & Hz & Hl).
  exists (Plus (Leaf 0%float) t), (0%float :: zeros).
  split; [simpl; rewrite Hv; reflexivity|].
  split; [constructor; [left; reflexivity|exact Hz]|].
  simpl. constructor. exact Hl.
Qed.

(** Fewer than 8 numbers are added in list order. *)
Lemma np_sum_in_order (l : list float) :
  length l < 8 ->
  np_sum l = (0 + fold_left PrimFloat.add l (-0))%float.
Proof.
  intros Hlen. unfold np_sum. rewrite pairwise_sum_eq. cbv zeta.
  destruct (Nat.ltb_spec (length l) 8); [reflexivity|lia].
Qed.

Lemma zero_tree_value (t : sum_tree) :
  Forall is_zero (tree_leaves t) -> is_zero (tree_value t).
Proof.
  induction t as [x|l IHl r IHr]; simpl; intros H.
  - inversion H; assumption.
  - apply Forall_app in H as [Hl Hr].
    destruct (IHl Hl) as [-> | ->]; destruct (IHr Hr) as [-> | ->];
      [left|left|left|right]; reflexivity.
Qed.

Lemma np_sum_zeros k : np_sum (replicate k 0%float) = 0%float.
Proof.
  destruct (pairwise_sum_upto_tree (length (replicate k 0%float))
              (replicate k 0%float)) as (t & zeros & Hv & Hz & Hl).
  unfold np_sum, pairwise_sum. rewrite <- Hv.
  assert (Hzero : is_zero (tree_value t)).
  { apply zero_tree_value. rewrite Hl. apply Forall_app. split; [exact Hz|].
    apply Forall_replicate. left. reflexivity. }
  destruct Hzero as [-> | ->]; reflexivity.
Qed.

Lemma step_reward e action_n e' r :
  step e action_n = (e', Ret r) ->
  exists ed,
    decode_actions e action_n = (ed, Ret tt) /\
    Env.world e' = Env.world (advance_world ed) /\
    Env.reward_callback (advance_world ed) = Env.reward_callback e /\
    Env.shared_reward (advance_world ed) = Env.shared_reward e /\
    Env.n (advance_world ed) = Env.n e /\
    reward_of r =
      np_sum (map (_get_reward (advance_world ed))
                  (World.policy_agents (Env.world e'))) /\
    StepLocals.reward_n (record_step (advance_world ed)) =
      if Env.shared_reward e
      then replicate (Env.n e) (reward_of r)
      else map (_get_reward (advance_world ed))
               (World.policy_agents (Env.world e')).
Proof.
  intros H. apply step_returns in H as (ed & Hdec & He' & Hr).
  exists ed. split; [exact Hdec|].
  pose proof (decode_actions_env e action_n) as [agents Hagents].
  rewrite Hdec in Hagents. simpl in Hagents.
  cbv zeta in He', Hr. subst r e' ed.
  repeat split; reflexivity.
Qed.

Lemma map_get_reward e cb agents :
  Env.reward_callback e = Some cb ->
  map (_get_reward e) agents = map (fun agent => cb agent (Env.world e)) agents.
Proof.
  intros Hcb. apply map_ext. intros agent. unfold _get_reward.
  rewrite Hcb. reflexivity.
Qed.

Lemma map_get_reward_none e agents :
  Env.reward_callback e = None ->
  map (_get_reward e) agents = replicate (length agents) 0%float.
Proof.
  intros Hcb. induction agents as [|agent agents IH]; [reflexivity|].
  simpl. rewrite IH. unfold _get_reward. rewrite Hcb. reflexivity.
Qed.

(** C8: the scalar a [step] returns is a floating-point sum of the values
    the reward callback gives for the policy agents in the world as
    [world.step()] left it: each value is added exactly once, and fewer
    than eight values are added in the order of the agents, starting from
    zero.  In a collaborative world every entry of the local [reward_n] is
    then that sum, not an average, and otherwise [reward_n] keeps the
    callback values; per-agent rewards 1.0, 2.0, 3.0 make the scalar 6.0.
    Without a reward callback the scalar is 0.0. *)
Theorem step_reward_is_sum
    (e : Env.t) (action_n : list pyval) (e' : Env.t)
    (r : float * float * list Info) :
  step e action_n = (e', Ret r) ->
  let agents := World.policy_agents (Env.world e') in
  (forall reward_callback,
     Env.reward_callback e = Some reward_callback ->
     let rewards := map (fun agent => reward_callback agent (Env.world e')) agents in
     float_sum_of rewards (reward_of r) /\
     (length agents < 8 ->
      reward_of r = (0 + fold_left PrimFloat.add rewards (-0))%float) /\
     (rewards = [1.0; 2.0; 3.0]%float -> reward_of r = 6.0%float) /\
     exists ed,
       decode_actions e action_n = (ed, Ret tt) /\
       StepLocals.reward_n (record_step (advance_world ed)) =
         if Env.shared_reward e
         then replicate (Env.n e) (reward_of r)
         else rewards) /\
  (Env.reward_callback e = None -> reward_of r = 0%float).
Proof.
  intros H.
  destruct (step_reward _ _ _ _ H)
    as (ed & Hdec & Hworld & Hcb & _ & _ & Hsum & Hshared).
  cbv zeta. split.
  - intros cb Hcb'. rewrite <- Hcb in Hcb'.
    rewrite (map_get_reward _ _ _ Hcb'), <- Hworld in Hsum, Hshared.
    split; [rewrite Hsum; apply np_sum_float_sum|].
    split; [|split].
    + intros Hfew. rewrite Hsum. apply np_sum_in_order.
      rewrite length_map. exact Hfew.
    + intros Hrewards. rewrite Hsum, Hrewards. reflexivity.
    + exists ed. split; [exact Hdec|exact Hshared].
  - intros Hnone. rewrite <- Hcb in Hnone.
    rewrite Hsum, (map_get_reward_none _ _ Hnone). apply np_sum_zeros.
Qed.

Lemma step_reward_is_sum_witness :
  let e := three_agent_env in
  let action_n := [PInt 1; PInt 2; PInt 0] in
  let e' := fst (step e action_n) in
  map (fun agent => Agent.u_range agent) (World.policy_agents (Env.world e'))
    = [1.0; 2.0; 3.0]%float /\
  reward_of (returned (0.0, 0.0, [])%float (snd (step e action_n))) = 6.0%float /\
  StepLocals.reward_n
    (record_step (advance_world (fst (decode_actions e action_n))))
    = [6.0; 6.0; 6.0]%float.
Proof.
  cbv zeta.
  assert (H : step three_agent_env [PInt 1; PInt 2; PInt 0] =
              (fst (step three_agent_env [PInt 1; PInt 2; PInt 0]),
               Ret (returned (0.0, 0.0, [])%float
                      (snd (step three_agent_env [PInt 1; PInt 2; PInt 0])))))
    by (vm_compute; reflexivity).
  destruct (step_reward_is_sum _ _ _ _ H) as [Hcb _].
  destruct (Hcb (fun agent _ => Agent.u_range agent) eq_refl)
    as (_ & _ & Hsix & ed & Hdec & Hshared).
  assert (Hed : ed = fst (decode_actions three_agent_env [PInt 1; PInt 2; PInt 0]))
    by (rewrite Hdec; reflexivity).
  subst ed.
  assert (Hrewards :
            map (fun agent => Agent.u_range agent)
                (World.policy_agents
                   (Env.world (fst (step three_agent_env [PInt 1; PInt 2; PInt 0]))))
            = [1.0; 2.0; 3.0]%float) by (vm_compute; reflexivity).
  split; [exact Hrewards|].
  split; [apply Hsix; exact Hrewards|].
  rewrite Hshared. vm_compute. reflexivity.
Defined.

(** ** The termination flag and the done callbacks *)

Lemma set_actions_done_callback e cb action_n :
  forall agents i,
    set_actions (Env.set_done_callback e cb) action_n i agents =
    set_actions e action_n i agents.
Proof.
  induction agents as [|agent agents IH]; intros i; [reflexivity|].
  simpl. destruct (Agent.policy agent).
  - destruct (list_getitem action_n i) as [action|]; [|reflexivity].
    change (Env.action_space (Env.set_done_callback e cb)) with (Env.action_space e).
    destruct (list_getitem (Env.action_space e) i) as [sp|]; [|reflexivity].
    change (_set_action (Env.set_done_callback e cb) action agent sp)
      with (_set_action e action agent sp).
    destruct (_set_action e action agent sp) as [agent' [[]|]]; [|reflexivity].
    rewrite IH. reflexivity.
  - rewrite IH. reflexivity.
Qed.

(** Replacing the done callback changes nothing of what [step] returns or
    raises. *)
Lemma step_done_callback e cb action_n :
  snd (step (Env.set_done_callback e cb) action_n) = snd (step e action_n).
Proof.
  unfold step, decode_actions.
  change (World.agents (Env.world (Env.set_done_callback e cb)))
    with (World.agents (Env.world e)).
  rewrite set_actions_done_callback.
  destruct (set_actions e action_n 0 (World.agents (Env.world e)))
    as [agents [[]|ex]]; reflexivity.
Qed.

(** C9: the flag a [step] returns is computed from the clock and
    [time_limit] alone.  Two steps that start from the same clock value
    with the same limit return the same flag, whatever their worlds,
    actions and callbacks; the done callbacks are called on every policy
    agent and their values collected in [done_n], but replacing the done
    callback by any other changes nothing of what [step] returns. *)
Theorem done_flag_ignores_done_callbacks
    (e1 e2 : Env.t) (a1 a2 : list pyval) (e1' e2' : Env.t)
    (r1 r2 : float * float * list Info)
    (cb : option (Agent.t -> World.t -> bool)) :
  Env.time e1 = Env.time e2 ->
  Env.time_limit e1 = Env.time_limit e2 ->
  step e1 a1 = (e1', Ret r1) ->
  step e2 a2 = (e2', Ret r2) ->
  flag_of r1 = flag_of r2 /\
  flag_of r1 = done_flag (Env.time e1 + 1) (Env.time_limit e1) /\
  snd (step (Env.set_done_callback e1 cb) a1) = Ret r1 /\
  StepLocals.done_n (record_step e1') =
    map (_get_done e1') (World.policy_agents (Env.world e1')).
Proof.
  intros Ht Hl H1 H2.
  pose proof (step_clock _ _ _ _ H1) as (_ & _ & Hf1).
  pose proof (step_clock _ _ _ _ H2) as (_ & _ & Hf2).
  split; [rewrite Hf1, Hf2, Ht, Hl; reflexivity|].
  split; [exact Hf1|].
  split; [rewrite step_done_callback, H1; reflexivity|reflexivity].
Qed.

(** Two steps of [three_agent_env] from clock 1 with limit 2: one with the
    done callback that answers True for every agent, one, on other
    actions, with a callback that answers False. *)
Lemma done_flag_ignores_done_callbacks_witness :
  let e1 := Env.set_time three_agent_env 1 in
  let e2 := Env.set_done_callback e1 (Some (fun _ _ => false)) in
  let r1 := returned (0.0, 0.0, [])%float (snd (step e1 [PInt 1; PInt 2; PInt 0])) in
  let r2 := returned (0.0, 0.0, [])%float (snd (step e2 [PInt 4; PInt 4; PInt 4])) in
  StepLocals.done_n (record_step (fst (step e1 [PInt 1; PInt 2; PInt 0])))
    = [true; true; true] /\
  StepLocals.done_n (record_step (fst (step e2 [PInt 4; PInt 4; PInt 4])))
    = [false; false; false] /\
  flag_of r1 = 1.0%float /\
  flag_of r1 = flag_of r2.
Proof.
  cbv zeta.
  assert (H1 : step (Env.set_time three_agent_env 1) [PInt 1; PInt 2; PInt 0] =
               (fst (step (Env.set_time three_agent_env 1) [PInt 1; PInt 2; PInt 0]),
                Ret (returned (0.0, 0.0, [])%float
                       (snd (step (Env.set_time three_agent_env 1)
                               [PInt 1; PInt 2; PInt 0])))))
    by (vm_compute; reflexivity).
  assert (H2 : step (Env.set_done_callback (Env.set_time three_agent_env 1)
                       (Some (fun _ _ => false))) [PInt 4; PInt 4; PInt 4] =
               (fst (step (Env.set_done_callback (Env.set_time three_agent_env 1)
                             (Some (fun _ _ => false))) [PInt 4; PInt 4; PInt 4]),
                Ret (returned (0.0, 0.0, [])%float
                       (snd (step (Env.set_done_callback (Env.set_time three_agent_env 1)
                                     (Some (fun _ _ => false)))
                               [PInt 4; PInt 4; PInt 4])))))
    by (vm_compute; reflexivity).
  destruct (done_flag_ignores_done_callbacks
              (Env.set_time three_agent_env 1)
              (Env.set_done_callback (Env.set_time three_agent_env 1)
                 (Some (fun _ _ => false)))
              _ _ _ _ _ _ None eq_refl eq_refl H1 H2) as (Hsame & Hflag & _ & _).
  split; [vm_compute; reflexivity|]. split; [vm_compute; reflexivity|].
  split; [rewrite Hflag; vm_compute; reflexivity|exact Hsame].
Defined.

(** ** The observation and its structure descriptor *)

Lemma np_sub_same_length a b :
  length a = length b ->
  np_sub a b = Ret (zip_with PrimFloat.sub a b).
Proof. intros H. unfold np_sub. rewrite H, Nat.eqb_refl. reflexivity. Qed.

Lemma relative_to_agents_2d agent agent_id :
  length (EntityState.p_pos (Agent.state agent)) = 2 ->
  forall others i,
    Forall (fun a => length (EntityState.p_pos (Agent.state a)) = 2 /\
                     length (EntityState.p_vel (Agent.state a)) = 2) others ->
    exists rel,
      relative_to_agents agent agent_id i others = Ret rel /\
      Forall (fun d => length d = 2) rel /\
      length rel =
        length others - (if decide (i <= agent_id < i + length others) then 1 else 0).
Proof.
  intros Hagent. induction others as [|a others IH]; intros i Hall; simpl.
  - exists []. split; [reflexivity|]. split; [constructor|].
    destruct (decide (i <= agent_id < i + 0)); reflexivity.
  - inversion Hall as [|? ? [Ha _] Hall']; subst.
    destruct (IH (S i) Hall') as (rel & Hrel & H2 & Hlen).
    destruct (Nat.eqb_spec i agent_id) as [Heq|Hne].
    + exists rel. split; [exact Hrel|]. split; [exact H2|].
      rewrite Hlen.
      destruct (decide (S i <= agent_id < S i + length others)); [lia|].
      destruct (decide (i <= agent_id < i + S (length others))); lia.
    + rewrite np_sub_same_length by congruence. simpl. rewrite Hrel. simpl.
      eexists. split; [reflexivity|]. split.
      * constructor; [|exact H2]. rewrite length_zip_with. lia.
      * simpl. rewrite Hlen.
        destruct (decide (S i <= agent_id < S i + length others));
          destruct (decide (i <= agent_id < i + S (length others))); lia.
Qed.

Lemma relative_landmarks_2d agent :
  length (EntityState.p_pos (Agent.state agent)) = 2 ->
  forall lms,
    Forall (fun l => length (EntityState.p_pos (Landmark.state l)) = 2) lms ->
    exists rel,
      relative_landmarks agent lms = Ret rel /\
      Forall (fun d => length d = 2) rel /\
      length rel = length lms.
Proof.
  intros Hagent. induction lms as [|l lms IH]; intros Hall; simpl.
  - exists []. split; [reflexivity|]. split; [constructor|reflexivity].
  - inversion Hall as [|? ? Hl Hall']; subst.
    destruct (IH Hall') as (rel & Hrel & H2 & Hlen).
    rewrite np_sub_same_length by congruence. simpl. rewrite Hrel. simpl.
    eexists. split; [reflexivity|]. split.
    + constructor; [|exact H2]. rewrite length_zip_with. lia.
    + simpl. rewrite Hlen. reflexivity.
Qed.

Lemma length_concat_pairs (l : list (list float)) :
  Forall (fun d => length d = 2) l -> length (concat l) = 2 * length l.
Proof.
  induction 1 as [|d l Hd _ IH]; [reflexivity|].
  simpl. rewrite length_app, Hd, IH. lia.
Qed.

(** The shape of the flat observation of a two-dimensional world. *)
Lemma flat_observation_2d world agent_id :
  agent_id < length (World.agents world) ->
  two_dimensional world ->
  exists self rel lms,
    flat_observation world agent_id = Ret (self ++ rel ++ lms) /\
    length self = 4 /\
    length rel = 2 * (length (World.agents world) - 1) /\
    length lms = 2 * length (World.landmarks world).
Proof.
  intros Hid [Hagents Hlms]. unfold flat_observation, list_getitem.
  destruct (lookup_lt_is_Some_2 _ _ Hid) as [agent Hagent]. rewrite Hagent. simpl.
  assert (Hself : length (EntityState.p_pos (Agent.state agent)) = 2 /\
                  length (EntityState.p_vel (Agent.state agent)) = 2).
  { rewrite Forall_lookup in Hagents. exact (Hagents _ _ Hagent). }
  destruct Hself as [Hpos Hvel].
  destruct (relative_to_agents_2d agent agent_id Hpos _ 0 Hagents)
    as (rel & Hrel & Hrel2 & Hrellen).
  destruct (relative_landmarks_2d agent Hpos _ Hlms) as (lms & Hlm & Hlm2 & Hlmlen).
  rewrite Hrel. simpl. rewrite Hlm. simpl.
  exists (EntityState.p_pos (Agent.state agent)
          ++ EntityState.p_vel (Agent.state agent)), (concat rel), (concat lms).
  split; [rewrite <- app_assoc; reflexivity|].
  split; [rewrite length_app; lia|].
  split.
  - rewrite length_concat_pairs by assumption. rewrite Hrellen.
    destruct (decide (0 <= agent_id < 0 + length (World.agents world))); lia.
  - rewrite length_concat_pairs by assumption. lia.
Qed.

(** Without a translation map [get_obs_agent] returns the flat
    concatenation. *)
Lemma get_obs_agent_untranslated e agent_id :
  Env.translate_observation e = None ->
  get_obs_agent e agent_id false =
  (flat ← flat_observation (Env.world e) agent_id; Ret (Values flat)).
Proof.
  intros Hnone. unfold get_obs_agent, flat_observation. rewrite Hnone.
  destruct (list_getitem (World.agents (Env.world e)) agent_id) as [agent|];
    [|reflexivity].
  simpl.
  destruct (relative_to_agents agent agent_id 0 (World.agents (Env.world e)))
    as [rel|]; [|reflexivity].
  simpl.
  destruct (relative_landmarks agent (World.landmarks (Env.world e)))
    as [lms|]; [|reflexivity].
  simpl. rewrite concat_app. reflexivity.
Qed.

(** The descriptor does not depend on the translation map. *)
Lemma get_obs_agent_structure e agent_id flat :
  flat_observation (Env.world e) agent_id = Ret flat ->
  get_obs_agent e agent_id true =
  Ret (Boundaries (obs_boundaries (length (World.agents (Env.world e)))
                                  (length (World.landmarks (Env.world e))))).
Proof.
  unfold get_obs_agent, flat_observation. intros H.
  destruct (list_getitem (World.agents (Env.world e)) agent_id) as [agent|];
    [|discriminate].
  simpl in *.
  destruct (relative_to_agents agent agent_id 0 (World.agents (Env.world e)))
    as [rel|]; [|discriminate].
  simpl in *.
  destruct (relative_landmarks agent (World.landmarks (Env.world e)))
    as [lms|]; [|discriminate].
  reflexivity.
Qed.

Lemma cut_at_three {A} (self rel lms : list A) :
  concat (cut_at [0; length self; length self + length rel;
                  length self + length rel + length lms]
                 (self ++ rel ++ lms)) = self ++ rel ++ lms.
Proof.
  simpl. unfold slice. rewrite !app_nil_r.
  rewrite Nat.sub_0_r, drop_0, take_app_length.
  replace (length self + length rel - length self) with (length rel) by lia.
  rewrite drop_app_length, take_app_length.
  replace (length self + length rel + length lms - (length self + length rel))
    with (length lms) by lia.
  rewrite drop_app_add, drop_app_length.
  rewrite take_ge by lia. reflexivity.
Qed.

(** C6: without a translation map, for a valid [agent_id] of a
    two-dimensional world, [get_obs_agent(agent_id, structure=True)] is the
    cumulative sum, from 0, of the widths 4, [2 * (n_agents - 1)] and
    [2 * n_landmarks]; its last entry is the length of the flat vector
    [get_obs_agent(agent_id)] returns; and the slices of the flat vector
    between consecutive boundaries, concatenated, are the flat vector. *)
Theorem observation_round_trips_through_structure (e : Env.t) (agent_id : nat) :
  Env.translate_observation e = None ->
  agent_id < length (World.agents (Env.world e)) ->
  two_dimensional (Env.world e) ->
  let n_agents := length (World.agents (Env.world e)) in
  let n_landmarks := length (World.landmarks (Env.world e)) in
  let boundaries :=
    [0; 4; 4 + 2 * (n_agents - 1); 4 + 2 * (n_agents - 1) + 2 * n_landmarks] in
  exists flat,
    get_obs_agent e agent_id true = Ret (Boundaries boundaries) /\
    boundaries = np_cumsum [0; 4; 2 * (n_agents - 1); 2 * n_landmarks] /\
    get_obs_agent e agent_id false = Ret (Values flat) /\
    last boundaries = Some (length flat) /\
    concat (cut_at boundaries flat) = flat.
Proof.
  intros Hnone Hid H2d. cbv zeta.
  destruct (flat_observation_2d _ _ Hid H2d)
    as (self & rel & lms & Hflat & Hself & Hrel & Hlms).
  exists (self ++ rel ++ lms).
  split; [rewrite (get_obs_agent_structure _ _ _ Hflat); reflexivity|].
  split; [reflexivity|].
  split; [rewrite (get_obs_agent_untranslated _ _ Hnone), Hflat; reflexivity|].
  split.
  - simpl. rewrite !length_app. f_equal. lia.
  - rewrite <- Hself, <- Hrel, <- Hlms. apply cut_at_three.
Qed.

Lemma observation_round_trips_through_structure_witness :
  get_obs_agent mover_speaker_env 1 true = Ret (Boundaries [0; 4; 6; 8]) /\
  (exists flat,
     get_obs_agent mover_speaker_env 1 false = Ret (Values flat) /\
     length flat = 8 /\
     concat (cut_at [0; 4; 6; 8] flat) = flat).
Proof.
  assert (H2d : two_dimensional (Env.world mover_speaker_env))
    by (split; repeat constructor).
  assert (Hid : 1 < length (World.agents (Env.world mover_speaker_env)))
    by (apply le_n).
  destruct (observation_round_trips_through_structure mover_speaker_env 1
              eq_refl Hid H2d) as (flat & Hb & _ & Hflat & Hlast & Hcut).
  split; [exact Hb|].
  exists flat. split; [exact Hflat|]. split; [|exact Hcut].
  simpl in Hlast. congruence.
Defined.

(** ** The zero-padded translation *)

Lemma np_getitem_lt (a : list nat) i :
  i < length a -> np_getitem a i = Ret (a !!! i).
Proof.
  intros H. unfold np_getitem.
  rewrite (list_lookup_lookup_total_lt a i H). reflexivity.
Qed.

Lemma length_slice {A} (l : list A) lo hi :
  hi <= length l -> length (slice l lo hi) = hi - lo.
Proof. intros H. unfold slice. rewrite length_take, length_drop. lia. Qed.

Lemma lookup_slice {A} (l : list A) lo hi i :
  i < hi - lo -> slice l lo hi !! i = l !! (lo + i).
Proof. intros H. unfold slice. rewrite lookup_take_lt by lia. apply lookup_drop. Qed.

(** A slice assignment whose slot lies inside the destination and has the
    width of the source copies the source there. *)
Lemma np_set_slice_fits dst off src :
  off + length src <= length dst ->
  np_set_slice dst off (off + length src) src = Ret (list_inserts off src dst).
Proof.
  intros H. unfold np_set_slice.
  rewrite !Nat.min_l by lia.
  replace (off + length src - off) with (length src) by lia.
  rewrite Nat.eqb_refl. reflexivity.
Qed.

Section Translation.
Variables (tmap boundaries : list nat) (flat : list float).

(** Segment [j] is a segment of the descriptor, lies inside [flat], and its
    slot lies inside a destination of [total] elements. *)
Definition segment_fits (total j : nat) : Prop :=
  j + 1 < length boundaries /\
  j < length tmap /\
  boundaries !!! j <= boundaries !!! (j + 1) <= length flat /\
  tmap !!! j + seg_width boundaries j <= total.

Lemma translate_segment_fits new j :
  segment_fits (length new) j ->
  translate_segment tmap boundaries flat new j =
  Ret (list_inserts (tmap !!! j)
         (slice flat (boundaries !!! j) (boundaries !!! (j + 1))) new).
Proof.
  intros (Hb & Ht & [Hlo Hhi] & Hfit). unfold translate_segment.
  rewrite (np_getitem_lt boundaries (j + 1)) by lia. simpl.
  rewrite (np_getitem_lt boundaries j) by lia. simpl.
  rewrite (np_getitem_lt tmap j) by lia. simpl.
  unfold seg_width in Hfit.
  rewrite <- (length_slice flat (boundaries !!! j) (boundaries !!! (j + 1)) Hhi) at 1.
  apply np_set_slice_fits. rewrite length_slice by exact Hhi. exact Hfit.
Qed.

(** The loop returns, keeps the length of the destination, leaves alone
    every position outside the slots it visits, and a position of a slot
    that no later slot covers holds the matching element of the source. *)
Lemma translate_loop_spec :
  forall k i new,
    (forall j, i <= j < i + k -> segment_fits (length new) j) ->
    exists new',
      translate_loop tmap boundaries flat new i k = Ret new' /\
      length new' = length new /\
      (forall p,
         (forall j, i <= j < i + k -> ~ in_slot tmap boundaries j p) ->
         new' !! p = new !! p) /\
      (forall j p,
         i <= j < i + k ->
         in_slot tmap boundaries j p ->
         (forall j', j < j' < i + k -> ~ in_slot tmap boundaries j' p) ->
         new' !! p = flat !! (boundaries !!! j + (p - tmap !!! j))).
Proof.
  induction k as [|k IH]; intros i new Hfits.
  - exists new. split; [reflexivity|]. split; [reflexivity|].
    split; [reflexivity|]. intros j p Hj. lia.
  - simpl. pose proof (Hfits i ltac:(lia)) as Hfit.
    rewrite (translate_segment_fits new i Hfit). simpl.
    set (seg := slice flat (boundaries !!! i) (boundaries !!! (i + 1))).
    set (new1 := list_inserts (tmap !!! i) seg new).
    assert (Hlen1 : length new1 = length new) by apply length_inserts.
    destruct Hfit as (Hb & Ht & [Hlo Hhi] & Hslot).
    assert (Hseg : length seg = seg_width boundaries i)
      by (unfold seg, seg_width; apply length_slice; exact Hhi).
    destruct (IH (S i) new1) as (new' & Hloop & Hlen & Hout & Hin).
    { intros j Hj. rewrite Hlen1. apply Hfits. lia. }
    assert (Houtside : forall p, ~ in_slot tmap boundaries i p ->
                                 new1 !! p = new !! p).
    { intros p Hp. unfold in_slot in Hp. unfold new1.
      destruct (decide (p < tmap !!! i)) as [Hlt|Hge].
      - apply list_lookup_inserts_lt. exact Hlt.
      - apply list_lookup_inserts_ge. rewrite Hseg. lia. }
    exists new'. split; [exact Hloop|]. split; [lia|]. split.
    + intros p Hp. rewrite Hout by (intros j Hj; apply Hp; lia).
      apply Houtside. apply Hp. lia.
    + intros j p Hj Hslotp Hlater.
      destruct (decide (j = i)) as [->|Hne].
      * rewrite Hout by (intros j' Hj'; apply Hlater; lia).
        unfold in_slot in Hslotp. unfold new1.
        rewrite list_lookup_inserts by (rewrite ?Hseg; lia).
        unfold seg. apply lookup_slice. unfold seg_width in Hslotp. lia.
      * apply Hin; [lia|exact Hslotp|]. intros j' Hj'. apply Hlater. lia.
Qed.

(** The translation of [flat] when the map has at least one entry and
    every segment it names fits. *)
Lemma translate_spec total :
  last tmap = Some total ->
  (forall j, j + 1 < length tmap -> segment_fits total j) ->
  exists new,
    translate tmap boundaries flat = Ret new /\
    length new = total /\
    (forall p,
       p < total ->
       (forall j, j + 1 < length tmap -> ~ in_slot tmap boundaries j p) ->
       new !! p = Some 0%float) /\
    (forall j p,
       j + 1 < length tmap ->
       in_slot tmap boundaries j p ->
       (forall j', j < j' -> j' + 1 < length tmap -> ~ in_slot tmap boundaries j' p) ->
       new !! p = flat !! (boundaries !!! j + (p - tmap !!! j))).
Proof.
  intros Hlast Hfits. unfold translate, list_last. rewrite Hlast. simpl.
  destruct (translate_loop_spec (length tmap - 1) 0 (np_zeros total))
    as (new & Hloop & Hlen & Hout & Hin).
  { intros j Hj. unfold np_zeros. rewrite length_replicate. apply Hfits. lia. }
  unfold np_zeros in Hlen. rewrite length_replicate in Hlen.
  exists new. split; [exact Hloop|]. split; [exact Hlen|]. split.
  - intros p Hp Hnone. rewrite Hout by (intros j Hj; apply Hnone; lia).
    apply lookup_replicate_2. exact Hp.
  - intros j p Hj Hslot Hlater. apply Hin; [lia|exact Hslot|].
    intros j' Hj'. apply Hlater; lia.
Qed.
End Translation.

(** With a translation map [get_obs_agent] translates the flat
    concatenation along its own descriptor. *)
Lemma get_obs_agent_translated e agent_id tmap :
  Env.translate_observation e = Some tmap ->
  get_obs_agent e agent_id false =
  (flat ← flat_observation (Env.world e) agent_id;
   new ← translate tmap
           (obs_boundaries (length (World.agents (Env.world e)))
                           (length (World.landmarks (Env.world e)))) flat;
   Ret (Values new)).
Proof.
  intros Hsome. unfold get_obs_agent, flat_observation. rewrite Hsome.
  destruct (list_getitem (World.agents (Env.world e)) agent_id) as [agent|];
    [|reflexivity].
  simpl.
  destruct (relative_to_agents agent agent_id 0 (World.agents (Env.world e)))
    as [rel|]; [|reflexivity].
  simpl.
  destruct (relative_landmarks agent (World.landmarks (Env.world e)))
    as [lms|]; [|reflexivity].
  simpl. rewrite concat_app. reflexivity.
Qed.

Lemma obs_boundaries_fit n_agents n_landmarks (flat : list float) j :
  length flat = 4 + 2 * (n_agents - 1) + 2 * n_landmarks ->
  j + 1 < 4 ->
  obs_boundaries n_agents n_landmarks !!! j
    <= obs_boundaries n_agents n_landmarks !!! (j + 1) <= length flat.
Proof.
  intros Hlen Hj. unfold obs_boundaries, np_cumsum.
  destruct j as [|[|[|j]]]; [| | |lia]; simpl; lia.
Qed.

(** C5: with a translation map configured, of at most four entries (one
    offset per segment of the descriptor and the total width) and whose
    slots lie inside the destination and do not overlap, [get_obs_agent]
    returns a vector of the length given by the last entry of the map, in
    which segment [j] of the flat concatenation (of the width the
    descriptor gives it) fills the positions from [map[j]] to
    [map[j] + width], and every position outside the slots is zero.  With
    no map configured [get_obs_agent] returns the flat concatenation
    itself.  The world is two-dimensional and [agent_id] is valid. *)
Theorem translated_observation_layout
    (e : Env.t) (agent_id : nat) (tmap : list nat) (total : nat) :
  Env.translate_observation e = Some tmap ->
  agent_id < length (World.agents (Env.world e)) ->
  two_dimensional (Env.world e) ->
  let boundaries :=
    obs_boundaries (length (World.agents (Env.world e)))
                   (length (World.landmarks (Env.world e))) in
  last tmap = Some total ->
  length tmap <= 4 ->
  (forall j, j + 1 < length tmap ->
             tmap !!! j + seg_width boundaries j <= total) ->
  (forall i j p, i < j -> j + 1 < length tmap ->
                 in_slot tmap boundaries i p ->
                 in_slot tmap boundaries j p -> False) ->
  exists new flat,
    get_obs_agent e agent_id false = Ret (Values new) /\
    length new = total /\
    (forall e0, Env.translate_observation e0 = None ->
                Env.world e0 = Env.world e ->
                get_obs_agent e0 agent_id false = Ret (Values flat)) /\
    (forall j, j + 1 < length tmap ->
               slice new (tmap !!! j) (tmap !!! j + seg_width boundaries j) =
               slice flat (boundaries !!! j) (boundaries !!! (j + 1))) /\
    (forall p, p < total ->
               (forall j, j + 1 < length tmap -> ~ in_slot tmap boundaries j p) ->
               new !! p = Some 0%float).
Proof.
  intros Hsome Hid H2d boundaries Hlast Hlen Hfit Hdisjoint.
  destruct (flat_observation_2d _ _ Hid H2d)
    as (self & rel & lms & Hflat & Hself & Hrel & Hlms).
  set (flat := self ++ rel ++ lms) in *.
  assert (Hflatlen : length flat =
                     4 + 2 * (length (World.agents (Env.world e)) - 1)
                     + 2 * length (World.landmarks (Env.world e)))
    by (unfold flat; rewrite !length_app; lia).
  assert (Hfits : forall j, j + 1 < length tmap ->
                            segment_fits tmap boundaries flat total j).
  { intros j Hj. split; [unfold boundaries, obs_boundaries; simpl; lia|].
    split; [lia|]. split; [|apply Hfit; exact Hj].
    apply obs_boundaries_fit; [exact Hflatlen|lia]. }
  destruct (translate_spec tmap boundaries flat total Hlast Hfits)
    as (new & Htr & Hnewlen & Hzero & Hcopy).
  exists new, flat.
  split.
  { rewrite (get_obs_agent_translated _ _ _ Hsome), Hflat. simpl.
    fold boundaries. rewrite Htr. reflexivity. }
  split; [exact Hnewlen|]. split.
  { intros e0 Hnone Hworld.
    rewrite (get_obs_agent_untranslated _ _ Hnone), Hworld, Hflat. reflexivity. }
  split; [|exact Hzero].
  intros j Hj. apply list_eq. intros i.
  destruct (Hfits j Hj) as (_ & _ & [Hlo Hhi] & Hslot).
  destruct (decide (i < seg_width boundaries j)) as [Hi|Hi].
  - rewrite lookup_slice by lia.
    rewrite lookup_slice by (unfold seg_width in Hi; lia).
    rewrite (Hcopy j (tmap !!! j + i) Hj).
    + f_equal. lia.
    + unfold in_slot. lia.
    + intros j' Hlt Hj' Hin'. apply (Hdisjoint j j' (tmap !!! j + i) Hlt Hj');
        [unfold in_slot; lia|exact Hin'].
  - unfold slice, seg_width in *. rewrite !lookup_take_ge by lia. reflexivity.
Qed.

(** The layout of section 8 of the specification: widths 4, 2, 2 at the
    offsets 0, 6, 8 of a destination of width 12; the positions 4, 5, 10
    and 11 stay zero. *)
Lemma translated_observation_layout_witness :
  get_obs_agent spread_env 1 false =
    Ret (Values [2; 3; 0.125; 0.25; 1.5; 2; -1; -2]%float) /\
  get_obs_agent translated_env 1 false =
    Ret (Values [2; 3; 0.125; 0.25; 0; 0; 1.5; 2; -1; -2; 0; 0]%float) /\
  (exists new flat,
     get_obs_agent translated_env 1 false = Ret (Values new) /\
     length new = 12 /\
     (forall e0, Env.translate_observation e0 = None ->
                 Env.world e0 = Env.world translated_env ->
                 get_obs_agent e0 1 false = Ret (Values flat)) /\
     (forall j, j + 1 < 4 ->
                slice new ([0; 6; 8; 12] !!! j)
                      ([0; 6; 8; 12] !!! j + seg_width (obs_boundaries 2 1) j) =
                slice flat (obs_boundaries 2 1 !!! j) (obs_boundaries 2 1 !!! (j + 1))) /\
     (forall p, p < 12 ->
                (forall j, j + 1 < 4 ->
                           ~ in_slot [0; 6; 8; 12] (obs_boundaries 2 1) j p) ->
                new !! p = Some 0%float)).
Proof.
  split; [vm_compute; reflexivity|]. split; [vm_compute; reflexivity|].
  apply (translated_observation_layout translated_env 1 [0; 6; 8; 12] 12).
  - reflexivity.
  - apply le_n.
  - split; repeat constructor.
  - reflexivity.
  - apply le_n.
  - intros j Hj. destruct j as [|[|[|j]]]; simpl in *; [vm_compute; lia..|lia].
  - intros i j p Hij Hj. unfold in_slot.
    destruct j as [|[|[|j]]]; simpl in Hj; [lia| | |lia];
      destruct i as [|[|i]]; try lia; vm_compute; lia.
Defined.

(** ** What the final assertion of the decoder checks *)

(** An outcome that is not a failed assertion. *)
Definition quiet {A} (o : outcome A) : Prop :=
  forall ex, o = Raise ex -> ex <> AssertionError.

Section Post.
Context {S : Type}.

(** [m] never fails an assertion, and what it returns satisfies [Q]. *)
Definition post {A} (Q : A -> Prop) (m : SE S A) : Prop :=
  forall s,
    match snd (m s) with
    | Ret a => Q a
    | Raise ex => ex <> AssertionError
    end.

Lemma post_ret {A} (Q : A -> Prop) (a : A) : Q a -> post Q (mret a : SE S A).
Proof. intros H s. exact H. Qed.

Lemma post_lift {A} (o : outcome A) : quiet o -> post (fun _ => True) (se_lift o : SE S A).
Proof.
  intros H s. simpl. destruct o as [a|ex]; [exact I|]. apply H. reflexivity.
Qed.

Lemma post_bind {A B} (P : A -> Prop) (Q : B -> Prop) (m : SE S A) (k : A -> SE S B) :
  post P m -> (forall a, P a -> post Q (k a)) -> post Q (m ≫= k).
Proof.
  intros Hm Hk s. unfold mbind, se_mbind, se_bind.
  specialize (Hm s). destruct (m s) as [s' [a|ex]]; simpl in *.
  - apply Hk. exact Hm.
  - exact Hm.
Qed.

Lemma post_weaken {A} (P Q : A -> Prop) (m : SE S A) :
  (forall a, P a -> Q a) -> post P m -> post Q m.
Proof.
  intros HPQ Hm s. specialize (Hm s).
  destruct (snd (m s)); [apply HPQ|]; exact Hm.
Qed.

Lemma post_seq {A B} (Q : B -> Prop) (m : SE S A) (k : A -> SE S B) :
  post (fun _ => True) m -> (forall a, post Q (k a)) -> post Q (m ≫= k).
Proof. intros Hm Hk. apply (post_bind (fun _ => True)); auto. Qed.
End Post.

Lemma quiet_list_getitem {A} (l : list A) i : quiet (list_getitem l i).
Proof.
  unfold list_getitem. intros ex H. destruct (l !! i); inversion H. discriminate.
Qed.

Lemma quiet_py_eq_test v k : quiet (py_eq_test v k).
Proof.
  intros ex H. destruct v as [j|x|[|x [|y a]]]; inversion H. discriminate.
Qed.

Lemma quiet_py_setitem v i x : quiet (py_setitem v i x).
Proof.
  intros ex H. destruct v as [j|y|a]; simpl in H;
    [| |destruct (i <? length a)]; inversion H; discriminate.
Qed.

Lemma quiet_py_getitem v i : quiet (py_getitem v i).
Proof.
  intros ex H. destruct v as [j|y|a]; simpl in H;
    [| |destruct (a !! i)]; inversion H; discriminate.
Qed.

Lemma quiet_py_imul v s : quiet (py_imul v s).
Proof.
  intros ex H. destruct v as [j|y|a]; simpl in H;
    [destruct (is_infinity (float_of_Z j))| |]; inversion H; discriminate.
Qed.

Lemma quiet_np_argmax a : quiet (np_argmax a).
Proof.
  intros ex H. destruct a as [|x r]; simpl in H;
    [|destruct (is_nan x)]; inversion H; discriminate.
Qed.

Lemma quiet_force_one_hot a0 : quiet (force_one_hot a0).
Proof.
  intros ex H. destruct a0 as [j|y|a]; simpl in H; [inversion H; discriminate..|].
  destruct (np_argmax a) as [d|ex'] eqn:Hd; simpl in H; inversion H; subst.
  exact (quiet_np_argmax a ex Hd).
Qed.

Lemma quiet_np_setitem_at a idx x : quiet (np_setitem_at a idx x).
Proof.
  intros ex H. destruct idx as [k|y|b]; simpl in H; [|inversion H; discriminate..].
  repeat match type of H with
         | context [if ?b then _ else _] => destruct b
         end; inversion H; discriminate.
Qed.

Lemma quiet_split_action action :
  forall size index, quiet (split_action action index size).
Proof.
  induction size as [|s size IH]; intros index ex H; simpl in H.
  - inversion H.
  - destruct action as [j|y|a]; simpl in H; [inversion H; discriminate..|].
    destruct (split_action (PArr a) (index + s) size) as [act|ex'] eqn:Hrest;
      simpl in H; inversion H; subst.
    exact (IH _ _ Hrest).
Qed.

Lemma quiet_segments_of action action_space : quiet (segments_of action action_space).
Proof.
  destruct action_space; simpl; try (intros ex H; discriminate H).
  apply quiet_split_action.
Qed.

Create HintDb quiet.
#[local] Hint Resolve quiet_list_getitem quiet_py_eq_test quiet_py_setitem
  quiet_py_getitem quiet_py_imul quiet_force_one_hot quiet_np_setitem_at
  quiet_segments_of : quiet.

Lemma post_get_u : post (fun _ => True) get_u.
Proof. intros s. exact I. Qed.

Lemma post_set_u v : post (fun _ => True) (set_u v).
Proof. intros s. exact I. Qed.

Lemma post_set_c v : post (fun _ => True) (set_c v).
Proof. intros s. exact I. Qed.

Ltac post_any :=
  repeat first
    [ apply post_get_u | apply post_set_u | apply post_set_c
    | apply post_lift; solve [auto with quiet]
    | apply (post_ret (fun _ => True)); exact I
    | apply post_seq; [ | intros ? ]
    | match goal with
      | |- post _ (if ?b then _ else _) => destruct b
      end ].

Lemma post_discrete_move action k axis x :
  post (fun _ => True) (discrete_move action k axis x).
Proof. unfold discrete_move. post_any. Qed.

Lemma post_push_pull a0 axis i j : post (fun _ => True) (push_pull a0 axis i j).
Proof. unfold push_pull. post_any. Qed.

(** The physical part of the decoder fails no assertion and hands on the
    segments that follow the first. *)
Lemma post_physical_action e agent action :
  post (fun rest => rest = drop 1 action) (physical_action e agent action).
Proof.
  unfold physical_action.
  apply post_seq.
  - destruct (Env.discrete_action_input e).
    + apply post_seq; [apply post_set_u|intros _].
      do 3 (apply post_seq; [apply post_discrete_move|intros _]).
      apply post_discrete_move.
    + apply post_seq; [post_any|]. intros a0.
      apply post_seq; [post_any|]. intros a1.
      destruct (Env.discrete_action_space e).
      * apply post_seq; [|intros ?]; apply post_push_pull.
      * apply post_set_u.
  - intros _. cbv zeta. apply post_seq; [post_any|]. intros uv.
    apply post_seq; [post_any|]. intros uv'.
    apply post_seq; [post_any|]. intros _.
    apply post_ret. reflexivity.
Qed.

Lemma post_communication_action e action :
  post (fun rest => rest = drop 1 action) (communication_action e action).
Proof.
  unfold communication_action.
  apply post_seq.
  - destruct (Env.discrete_action_input e); post_any.
  - intros _. apply post_ret. reflexivity.
Qed.

Lemma post_lift_ret {S A} (Q : A -> Prop) (o : outcome A) :
  quiet o -> (forall a, o = Ret a -> Q a) -> post Q (se_lift o : SE S A).
Proof.
  intros Hq HQ s. simpl. destruct o as [a|ex]; [apply HQ|apply Hq]; reflexivity.
Qed.

Lemma length_split_action action :
  forall size index act,
    split_action action index size = Ret act -> length act = length size.
Proof.
  induction size as [|s size IH]; intros index act H; simpl in H.
  - inversion H. reflexivity.
  - destruct (py_getslice action index (index + s)) as [seg|]; [|discriminate].
    simpl in H.
    destruct (split_action action (index + s) size) as [rest|] eqn:Hrest;
      [|discriminate].
    inversion H; subst. simpl. f_equal. exact (IH _ _ Hrest).
Qed.

(** The segments needed by an agent. *)
Definition segments_needed (agent : Agent.t) : nat :=
  (if Agent.movable agent then 1 else 0) + (if Agent.silent agent then 0 else 1).

(** The raw action is never cut into more segments than the agent
    consumes, when the space is the one the composer built for it. *)
Lemma composed_segments discrete_action_space world agent action_space action segs :
  compose_action_space discrete_action_space world agent = Ret action_space ->
  segments_of action action_space = Ret segs ->
  length segs <= segments_needed agent.
Proof.
  unfold compose_action_space, segments_needed. intros Hsp Hsegs.
  destruct (Agent.movable agent), (Agent.silent agent), discrete_action_space;
    simpl in Hsp; inversion Hsp; subst;
    try (simpl in Hsegs; inversion Hsegs; subst; simpl; lia).
  unfold segments_of in Hsegs. apply length_split_action in Hsegs.
  simpl in Hsegs. lia.
Qed.

Lemma post_decode_segments e action agent action_space :
  compose_action_space (Env.discrete_action_space e) (Env.world e) agent
    = Ret action_space ->
  post (fun _ => True) (decode_segments e action agent action_space).
Proof.
  intros Hsp. unfold decode_segments.
  apply (post_bind (fun segs => length segs <= segments_needed agent)).
  { apply post_lift_ret; [apply quiet_segments_of|].
    intros segs Hsegs. exact (composed_segments _ _ _ _ _ _ Hsp Hsegs). }
  intros segs Hlen. unfold segments_needed in Hlen.
  apply (post_bind (fun rest => length rest <= if Agent.silent agent then 0 else 1)).
  { destruct (Agent.movable agent).
    - eapply post_weaken; [|apply post_physical_action].
      intros rest ->. rewrite length_drop. lia.
    - apply post_ret. exact Hlen. }
  intros rest Hrest.
  apply (post_bind (fun rest' => length rest' = 0)).
  { destruct (Agent.silent agent); simpl.
    - apply post_ret. lia.
    - eapply post_weaken; [|apply post_communication_action].
      intros rest' ->. rewrite length_drop. lia. }
  intros rest' ->. apply post_ret. exact I.
Qed.

(** For the space the composer built for an agent, [_set_action] never
    fails its final assertion. *)
Lemma composed_space_never_asserts e action agent action_space :
  compose_action_space (Env.discrete_action_space e) (Env.world e) agent
    = Ret action_space ->
  snd (_set_action e action agent action_space) = Raise AssertionError -> False.
Proof.
  intros Hsp H. rewrite _set_action_snd, set_action_body_unfold in H.
  pose proof (post_decode_segments e action agent action_space Hsp
                (Action.mk (PArr (np_zeros (World.dim_p (Env.world e))))
                           (PArr (np_zeros (World.dim_c (Env.world e)))))) as Hpost.
  rewrite H in Hpost. congruence.
Qed.

Lemma py_slice_nonneg {A} (l : list A) (lo hi : nat) :
  lo <= hi ->
  py_slice l (Z.of_nat lo) (Z.of_nat hi) = take (hi - lo) (drop lo l).
Proof.
  intros Hle. unfold py_slice, slice, slice_bound.
  destruct (Z.ltb_spec (Z.of_nat lo) 0); [lia|].
  destruct (Z.ltb_spec (Z.of_nat hi) 0); [lia|].
  rewrite !Nat2Z.id.
  destruct (decide (length l <= lo)) as [Hout|Hin].
  - rewrite (Nat.min_r lo) by lia. rewrite !drop_ge by lia.
    rewrite !take_nil. reflexivity.
  - rewrite (Nat.min_l lo) by lia.
    destruct (decide (hi <= length l)) as [Hhi|Hhi].
    + rewrite (Nat.min_l hi) by lia. reflexivity.
    + rewrite (Nat.min_r hi) by lia.
      rewrite !take_ge by (rewrite length_drop; lia). reflexivity.
Qed.

(** The two blocks of the space of a movable, communicating agent. *)
Lemma composed_blocks e (b : list float) :
  segments_of (PArr b)
    (MultiDiscrete [(0, Z.of_nat (World.dim_p (Env.world e)) * 2 + 1 - 1);
                    (0, Z.of_nat (World.dim_c (Env.world e)) - 1)]%Z) =
  Ret [PArr (take (2 * World.dim_p (Env.world e) + 1) b);
       PArr (take (World.dim_c (Env.world e))
                  (drop (2 * World.dim_p (Env.world e) + 1) b))].
Proof.
  simpl. unfold md_size. simpl.
  set (dp := World.dim_p (Env.world e)). set (dc := World.dim_c (Env.world e)).
  replace (Z.of_nat dp * 2 + 1 - 1 - 0 + 1)%Z with (Z.of_nat (2 * dp + 1)) by lia.
  replace (Z.of_nat dc - 1 - 0 + 1)%Z with (Z.of_nat dc) by lia.
  replace (0 + Z.of_nat (2 * dp + 1))%Z with (Z.of_nat (2 * dp + 1)) by lia.
  replace (Z.of_nat (2 * dp + 1) + Z.of_nat dc)%Z
    with (Z.of_nat (2 * dp + 1 + dc)) by lia.
  pose proof (py_slice_nonneg b 0 (2 * dp + 1) ltac:(lia)) as H0.
  change (Z.of_nat 0) with 0%Z in H0. rewrite H0.
  rewrite (py_slice_nonneg b (2 * dp + 1) (2 * dp + 1 + dc)) by lia.
  rewrite drop_0, Nat.sub_0_r.
  replace (2 * dp + 1 + dc - (2 * dp + 1)) with dc by lia.
  reflexivity.
Qed.

Lemma _set_action_segments e a1 a2 agent action_space :
  segments_of a1 action_space = segments_of a2 action_space ->
  _set_action e a1 agent action_space = _set_action e a2 agent action_space.
Proof.
  intros H. unfold _set_action.
  rewrite !set_action_body_unfold. unfold decode_segments. rewrite H. reflexivity.
Qed.

(** In one-hot input mode a movement block of five elements or more is
    decoded without exception, from zeroed controls. *)
Lemma physical_action_one_hot e agent a rest cv :
  Env.discrete_action_input e = false ->
  Env.discrete_action_space e = true ->
  2 <= World.dim_p (Env.world e) ->
  5 <= length a ->
  exists uv,
    physical_action e agent (PArr a :: rest)
      (Action.mk (PArr (np_zeros (World.dim_p (Env.world e)))) cv) =
    (Action.mk (PArr uv) cv, Ret rest).
Proof.
  intros Hdai Hdas Hdim Hlen. unfold physical_action. rewrite Hdai, Hdas.
  destruct (World.dim_p (Env.world e)) as [|[|d]]; [lia|lia|].
  destruct a as [|x0 [|x1 [|x2 [|x3 [|x4 a]]]]]; simpl in Hlen; try lia.
  destruct (Env.force_discrete_action e).
  - assert (Hforce : exists k,
              force_one_hot (PArr (x0 :: x1 :: x2 :: x3 :: x4 :: a)) =
              Ret (PArr (one_hot_at (5 + length a) k))).
    { unfold force_one_hot, np_argmax. destruct (is_nan x0); eexists; reflexivity. }
    destruct Hforce as [k Hk].
    unfold mbind, se_mbind, se_bind, se_lift, list_getitem.
    simpl lookup. cbv beta iota. rewrite Hk. cbv beta iota.
    destruct k as [|[|[|[|[|k]]]]]; eexists; reflexivity.
  - eexists. reflexivity.
Qed.

(** The decoding of a buffer at least as long as the movement block by a
    movable, communicating agent in one-hot input mode. *)
Lemma decode_one_hot_blocks e agent (b : list float) s :
  Agent.movable agent = true ->
  Agent.silent agent = false ->
  Env.discrete_action_input e = false ->
  Env.discrete_action_space e = true ->
  2 <= World.dim_p (Env.world e) ->
  2 * World.dim_p (Env.world e) + 1 <= length b ->
  exists uv,
    set_action_body e (PArr b) agent
      (MultiDiscrete [(0, Z.of_nat (World.dim_p (Env.world e)) * 2 + 1 - 1);
                      (0, Z.of_nat (World.dim_c (Env.world e)) - 1)]%Z) s =
    (Action.mk (PArr uv)
       (PArr (take (World.dim_c (Env.world e))
                   (drop (2 * World.dim_p (Env.world e) + 1) b))),
     Ret tt).
Proof.
  intros Hm Hs Hdai Hdas Hdim Hlen.
  rewrite set_action_body_unfold. unfold decode_segments.
  rewrite composed_blocks, Hm, Hs. simpl negb. cbv iota.
  destruct (physical_action_one_hot e agent
              (take (2 * World.dim_p (Env.world e) + 1) b)
              [PArr (take (World.dim_c (Env.world e))
                          (drop (2 * World.dim_p (Env.world e) + 1) b))]
              (PArr (np_zeros (World.dim_c (Env.world e))))
              Hdai Hdas Hdim) as [uv Huv].
  { rewrite length_take. lia. }
  exists uv.
  unfold mbind, se_mbind, se_bind, se_lift. cbv beta iota.
  rewrite Huv. cbv beta iota.
  unfold communication_action. rewrite Hdai. reflexivity.
Qed.

(** C3, as the specification states it, fails on the space of a movable,
    communicating agent of a world with [dim_p = 2] and [dim_c = 3], whose
    total width is 8, in one-hot input mode: a buffer of 9 elements and a
    buffer of 6 elements are both decoded without any exception; the first
    loses its last element, the second yields a communication signal of
    one element. *)
Lemma buffer_length_counterexample :
  let e := sample_env mover_speaker_world [] true false 25 in
  let agent := sample_agent true false in
  let long := [0; 1; 0; 0; 0; 0; 0; 1; 7]%float in
  let short := [0; 1; 0; 0; 0; 1]%float in
  compose_action_space true (Env.world e) agent
    = Ret (MultiDiscrete [(0, 4); (0, 2)]%Z) /\
  length long = 9 /\
  _set_action e (PArr long) agent (MultiDiscrete [(0, 4); (0, 2)]%Z) =
    (Agent.set_action agent
       (Action.mk (PArr [5; 0]%float) (PArr [0; 0; 1]%float)), Ret tt) /\
  length short = 6 /\
  _set_action e (PArr short) agent (MultiDiscrete [(0, 4); (0, 2)]%Z) =
    (Agent.set_action agent
       (Action.mk (PArr [5; 0]%float) (PArr [1]%float)), Ret tt).
Proof. cbv zeta. repeat split; vm_compute; reflexivity. Qed.

(** C3 (amended): the final assertion of the decoder counts the segments
    left over, not the elements of the buffer.  For the space the composer
    built for an agent it never fails, whatever the buffer.  For the space
    of a movable, communicating agent in one-hot input mode (two axes at
    least), a buffer of exactly the total width [2 * dim_p + 1 + dim_c] is
    decoded with both segments consumed, and a longer buffer is decoded
    exactly as its prefix of that width: what follows is dropped without
    any failure. *)
Theorem decode_checks_segments_not_elements
    (e : Env.t) (agent : Agent.t) (action_space : Space) :
  compose_action_space (Env.discrete_action_space e) (Env.world e) agent
    = Ret action_space ->
  (forall action,
     snd (_set_action e action agent action_space) = Raise AssertionError -> False) /\
  (Agent.movable agent = true ->
   Agent.silent agent = false ->
   Env.discrete_action_space e = true ->
   Env.discrete_action_input e = false ->
   2 <= World.dim_p (Env.world e) ->
   forall b extra : list float,
     length b = 2 * World.dim_p (Env.world e) + 1 + World.dim_c (Env.world e) ->
     snd (_set_action e (PArr b) agent action_space) = Ret tt /\
     _set_action e (PArr (b ++ extra)) agent action_space =
     _set_action e (PArr b) agent action_space).
Proof.
  intros Hsp. split.
  { intros action. apply composed_space_never_asserts. exact Hsp. }
  intros Hm Hs Hdas Hdai Hdim b extra Hlen.
  assert (Hspace : action_space =
            MultiDiscrete [(0, Z.of_nat (World.dim_p (Env.world e)) * 2 + 1 - 1);
                           (0, Z.of_nat (World.dim_c (Env.world e)) - 1)]%Z).
  { unfold compose_action_space in Hsp. rewrite Hm, Hs, Hdas in Hsp.
    simpl in Hsp. congruence. }
  subst action_space. split.
  - rewrite _set_action_snd.
    destruct (decode_one_hot_blocks e agent b (Agent.action agent)
                Hm Hs Hdai Hdas Hdim ltac:(lia)) as [uv Huv].
    rewrite Huv. reflexivity.
  - apply _set_action_segments. rewrite !composed_blocks.
    rewrite take_app_le by lia.
    rewrite drop_app_le by lia.
    rewrite take_app_le by (rewrite length_drop; lia).
    reflexivity.
Qed.

Lemma decode_checks_segments_not_elements_witness :
  let e := sample_env mover_speaker_world [] true false 25 in
  let agent := sample_agent true false in
  let b := [0; 1; 0; 0; 0; 0; 0; 1]%float in
  (forall action,
     snd (_set_action e action agent (MultiDiscrete [(0, 4); (0, 2)]%Z))
       = Raise AssertionError -> False) /\
  snd (_set_action e (PArr b) agent (MultiDiscrete [(0, 4); (0, 2)]%Z)) = Ret tt /\
  _set_action e (PArr (b ++ [7%float])) agent (MultiDiscrete [(0, 4); (0, 2)]%Z) =
  _set_action e (PArr b) agent (MultiDiscrete [(0, 4); (0, 2)]%Z).
Proof.
  cbv zeta.
  destruct (decode_checks_segments_not_elements
              (sample_env mover_speaker_world [] true false 25)
              (sample_agent true false) (MultiDiscrete [(0, 4); (0, 2)]%Z)
              eq_refl) as [Hnever Hblocks].
  split; [exact Hnever|].
  exact (Hblocks eq_refl eq_refl eq_refl eq_refl (le_n 2)
           [0; 1; 0; 0; 0; 0; 0; 1]%float [7%float] eq_refl).
Defined.

(** * Further properties of the decoder *)

(** ** Spaces of one sub-space *)

(** A pure mover with a space that is not a [MultiDiscrete]: the decoder
    is the physical part, and the assertion passes when that part returns. *)
Lemma set_action_body_mover e action agent action_space s :
  Agent.movable agent = true ->
  Agent.silent agent = true ->
  is_MultiDiscrete action_space = false ->
  set_action_body e action agent action_space s =
  match physical_action e agent [action]
          (Action.mk (PArr (np_zeros (World.dim_p (Env.world e))))
                     (PArr (np_zeros (World.dim_c (Env.world e))))) with
  | (s', Ret _) => (s', Ret tt)
  | (s', Raise ex) => (s', Raise ex)
  end.
Proof.
  intros Hm Hs Hsp. rewrite set_action_body_unfold. unfold decode_segments.
  rewrite (segments_of_not_MultiDiscrete _ _ Hsp), Hm, Hs.
  unfold mbind, se_mbind, se_bind, se_lift. cbv beta iota.
  pose proof (post_physical_action e agent [action]
                (Action.mk (PArr (np_zeros (World.dim_p (Env.world e))))
                           (PArr (np_zeros (World.dim_c (Env.world e)))))) as Hpost.
  destruct (physical_action e agent [action] _) as [s' [rest|ex]]; [|reflexivity].
  simpl in Hpost. subst rest. reflexivity.
Qed.

(** A pure speaker with a space that is not a [MultiDiscrete]. *)
Lemma set_action_body_speaker e action agent action_space s :
  Agent.movable agent = false ->
  Agent.silent agent = false ->
  is_MultiDiscrete action_space = false ->
  set_action_body e action agent action_space s =
  match communication_action e [action]
          (Action.mk (PArr (np_zeros (World.dim_p (Env.world e))))
                     (PArr (np_zeros (World.dim_c (Env.world e))))) with
  | (s', Ret _) => (s', Ret tt)
  | (s', Raise ex) => (s', Raise ex)
  end.
Proof.
  intros Hm Hs Hsp. rewrite set_action_body_unfold. unfold decode_segments.
  rewrite (segments_of_not_MultiDiscrete _ _ Hsp), Hm, Hs.
  unfold mbind, se_mbind, se_bind, se_lift, mret, se_mret, se_ret.
  change (negb false) with true. cbv beta iota.
  pose proof (post_communication_action e [action]
                (Action.mk (PArr (np_zeros (World.dim_p (Env.world e))))
                           (PArr (np_zeros (World.dim_c (Env.world e)))))) as Hpost.
  destruct (communication_action e [action] _) as [s' [rest|ex]]; [|reflexivity].
  simpl in Hpost. subst rest. reflexivity.
Qed.

Lemma _set_action_body e action agent action_space :
  _set_action e action agent action_space =
  (Agent.set_action agent
     (fst (set_action_body e action agent action_space (Agent.action agent))),
   snd (set_action_body e action agent action_space (Agent.action agent))).
Proof.
  unfold _set_action.
  destruct (set_action_body e action agent action_space (Agent.action agent)).
  reflexivity.
Qed.

(** ** Every available action can be decoded *)

Lemma physical_action_discrete_run e agent v s :
  Env.discrete_action_input e = true ->
  2 <= World.dim_p (Env.world e) ->
  (0 <= v <= 4)%Z ->
  physical_action e agent [PInt v] s =
  (Action.mk
     (PArr (map (fun x => (x * sensitivity_of agent)%float)
                (movement_table (World.dim_p (Env.world e)) v)))
     (Action.c s),
   Ret []).
Proof.
  intros Hdai Hdim Hv. unfold physical_action, sensitivity_of. rewrite Hdai.
  destruct (World.dim_p (Env.world e)) as [|[|d]]; [lia|lia|].
  assert (Hcases : v = 0%Z \/ v = 1%Z \/ v = 2%Z \/ v = 3%Z \/ v = 4%Z) by lia.
  destruct Hcases as [->|[->|[->|[->| ->]]]]; reflexivity.
Qed.

(** X1: every index that [get_avail_agent_actions] offers is decoded
    without exception for a silent mover in discrete-action-input mode,
    when the world has two axes at least. *)
Theorem available_actions_decode
    (e : Env.t) (agent_id : nat) (agent : Agent.t) (action_space : Space) (v : Z) :
  Agent.movable agent = true ->
  Agent.silent agent = true ->
  Env.discrete_action_input e = true ->
  is_MultiDiscrete action_space = false ->
  2 <= World.dim_p (Env.world e) ->
  v ∈ get_avail_agent_actions e agent_id ->
  snd (_set_action e (PInt v) agent action_space) = Ret tt.
Proof.
  intros Hm Hs Hdai Hsp Hdim Hv.
  assert (Hrange : (0 <= v <= 4)%Z).
  { unfold get_avail_agent_actions, np_arange in Hv. simpl in Hv.
    repeat (apply elem_of_cons in Hv as [->|Hv]; [lia|]).
    apply elem_of_nil in Hv. destruct Hv. }
  rewrite _set_action_snd, (set_action_body_mover _ _ _ _ _ Hm Hs Hsp).
  rewrite (physical_action_discrete_run _ _ _ _ Hdai Hdim Hrange). reflexivity.
Qed.

Lemma available_actions_decode_witness :
  Forall (fun v => snd (_set_action mover_speaker_env (PInt v)
                          (sample_agent true true) (Discrete 5)) = Ret tt)
         (get_avail_agent_actions mover_speaker_env 0).
Proof.
  apply Forall_forall. intros v Hv.
  apply (available_actions_decode mover_speaker_env 0 (sample_agent true true)
           (Discrete 5) v); [reflexivity..|apply le_n|exact Hv].
Defined.

(** X2: in a world of fewer than two axes the indices 3 and 4, which
    [get_avail_agent_actions] still offers, raise [IndexError] for a
    movable agent in discrete-action-input mode whose space is not a
    [MultiDiscrete]: the decoder writes axis 1 of a force that does not
    have it. *)
Theorem second_axis_actions_raise
    (e : Env.t) (agent : Agent.t) (action_space : Space) (v : Z) :
  Agent.movable agent = true ->
  Env.discrete_action_input e = true ->
  is_MultiDiscrete action_space = false ->
  World.dim_p (Env.world e) < 2 ->
  v = 3%Z \/ v = 4%Z ->
  v ∈ get_avail_agent_actions e 0 /\
  snd (_set_action e (PInt v) agent action_space) = Raise IndexError.
Proof.
  intros Hm Hdai Hsp Hdim Hv. split.
  { unfold get_avail_agent_actions, np_arange. simpl.
    destruct Hv as [-> | ->]; repeat constructor. }
  rewrite _set_action_snd, set_action_body_unfold. unfold decode_segments.
  rewrite (segments_of_not_MultiDiscrete _ _ Hsp), Hm.
  unfold physical_action. rewrite Hdai.
  destruct (World.dim_p (Env.world e)) as [|[|d]]; [| |lia];
    destruct Hv as [-> | ->]; reflexivity.
Qed.

Lemma second_axis_actions_raise_witness :
  let world := World.mk [sample_agent true true] [] 1 3 None None in
  let e := sample_env world [Discrete 3] true true 25 in
  (3%Z ∈ get_avail_agent_actions e 0 /\
   snd (_set_action e (PInt 3) (sample_agent true true) (Discrete 3))
     = Raise IndexError).
Proof.
  cbv zeta.
  apply (second_axis_actions_raise
           (sample_env (World.mk [sample_agent true true] [] 1 3 None None)
              [Discrete 3] true true 25)
           (sample_agent true true) (Discrete 3) 3);
    [reflexivity|reflexivity|reflexivity|apply le_n|left; reflexivity].
Defined.

(** ** The communication index *)

Lemma communication_action_index e k s :
  Env.discrete_action_input e = true ->
  communication_action e [PInt k] s =
  match np_setitem_at (np_zeros (World.dim_c (Env.world e))) (PInt k) 1%float with
  | Ret cv => (Action.mk (Action.u s) (PArr cv), Ret [])
  | Raise ex =>
      (Action.mk (Action.u s) (PArr (np_zeros (World.dim_c (Env.world e)))), Raise ex)
  end.
Proof.
  intros Hdai. unfold communication_action. rewrite Hdai.
  unfold mbind, se_mbind, se_bind, se_lift, set_c, list_getitem.
  simpl lookup. cbv beta iota.
  destruct (np_setitem_at (np_zeros (World.dim_c (Env.world e))) (PInt k) 1%float);
    reflexivity.
Qed.

(** X3: a pure speaker in discrete-action-input mode, with a space that
    is not a [MultiDiscrete].  An index [k] with [0 <= k < dim_c] gives the
    one-hot signal at [k]; a negative index down to [-dim_c] is accepted as
    well and counts from the end; any other index raises and leaves the
    signal zero: [OverflowError] from [2**63] to [2**64 - 1], [IndexError]
    otherwise. *)
Theorem communication_index_wraps
    (e : Env.t) (agent : Agent.t) (action_space : Space) (k : Z) :
  Agent.movable agent = false ->
  Agent.silent agent = false ->
  Env.discrete_action_input e = true ->
  is_MultiDiscrete action_space = false ->
  let dim_c := World.dim_c (Env.world e) in
  let result := _set_action e (PInt k) agent action_space in
  ((0 <= k < Z.of_nat dim_c)%Z ->
   snd result = Ret tt /\
   Action.c (Agent.action (fst result)) = PArr (one_hot_at dim_c (Z.to_nat k))) /\
  ((- Z.of_nat dim_c <= k < 0)%Z ->
   snd result = Ret tt /\
   Action.c (Agent.action (fst result))
     = PArr (one_hot_at dim_c (Z.to_nat (Z.of_nat dim_c + k)))) /\
  ((k < - Z.of_nat dim_c \/ Z.of_nat dim_c <= k)%Z ->
   snd result =
     Raise (if ((2 ^ 63 <=? k) && (k <? 2 ^ 64))%Z
            then OverflowError else IndexError) /\
   Action.c (Agent.action (fst result)) = PArr (np_zeros dim_c)).
Proof.
  intros Hm Hs Hdai Hsp. cbv zeta.
  rewrite _set_action_body, (set_action_body_speaker _ _ _ _ _ Hm Hs Hsp).
  rewrite (communication_action_index _ _ _ Hdai).
  unfold np_setitem_at, np_zeros. rewrite length_replicate.
  split; [|split]; intros Hk.
  - destruct (Z.leb_spec 0 k); [|lia].
    destruct (Z.ltb_spec k (Z.of_nat (World.dim_c (Env.world e)))); [|lia].
    split; reflexivity.
  - destruct (Z.leb_spec 0 k); [lia|]. simpl andb.
    destruct (Z.leb_spec (- Z.of_nat (World.dim_c (Env.world e))) k); [|lia].
    destruct (Z.ltb_spec k 0); [|lia].
    split; reflexivity.
  - destruct (Z.leb_spec 0 k);
      destruct (Z.ltb_spec k (Z.of_nat (World.dim_c (Env.world e))));
      destruct (Z.leb_spec (- Z.of_nat (World.dim_c (Env.world e))) k);
      destruct (Z.ltb_spec k 0); try lia;
      simpl andb; cbv iota;
      destruct ((2 ^ 63 <=? k) && (k <? 2 ^ 64))%Z; split; reflexivity.
Qed.

Lemma communication_index_wraps_witness :
  let e := mover_speaker_env in
  let speaker := sample_agent false false in
  c_after e (PInt 1) speaker (Discrete 3) = PArr [0; 1; 0]%float /\
  c_after e (PInt (-1)) speaker (Discrete 3) = PArr [0; 0; 1]%float /\
  snd (_set_action e (PInt (-1)) speaker (Discrete 3)) = Ret tt /\
  snd (_set_action e (PInt 3) speaker (Discrete 3)) = Raise IndexError /\
  snd (_set_action e (PInt (-4)) speaker (Discrete 3)) = Raise IndexError /\
  snd (_set_action e (PInt (2 ^ 63)) speaker (Discrete 3)) = Raise OverflowError /\
  snd (_set_action e (PInt (2 ^ 64)) speaker (Discrete 3)) = Raise IndexError.
Proof.
  cbv zeta.
  pose proof (communication_index_wraps mover_speaker_env
                (sample_agent false false) (Discrete 3) 1
                eq_refl eq_refl eq_refl eq_refl) as (H1 & _ & _).
  pose proof (communication_index_wraps mover_speaker_env
                (sample_agent false false) (Discrete 3) (-1)
                eq_refl eq_refl eq_refl eq_refl) as (_ & H2 & _).
  pose proof (communication_index_wraps mover_speaker_env
                (sample_agent false false) (Discrete 3) 3
                eq_refl eq_refl eq_refl eq_refl) as (_ & _ & H3).
  pose proof (communication_index_wraps mover_speaker_env
                (sample_agent false false) (Discrete 3) (-4)
                eq_refl eq_refl eq_refl eq_refl) as (_ & _ & H4).
  pose proof (communication_index_wraps mover_speaker_env
                (sample_agent false false) (Discrete 3) (2 ^ 63)
                eq_refl eq_refl eq_refl eq_refl) as (_ & _ & H5).
  pose proof (communication_index_wraps mover_speaker_env
                (sample_agent false false) (Discrete 3) (2 ^ 64)
                eq_refl eq_refl eq_refl eq_refl) as (_ & _ & H6).
  split; [apply H1; simpl; lia|].
  split; [apply H2; simpl; lia|].
  split; [apply H2; simpl; lia|].
  split; [apply H3; simpl; lia|].
  split; [apply H4; simpl; lia|].
  split; [apply H5; simpl; lia|apply H6; simpl; lia].
Defined.

(** ** Continuous and one-hot movement *)

(** X4: a pure mover with a continuous space and continuous input, when
    no discretisation is forced: the force is the buffer, each element
    multiplied by the sensitivity.  The buffer is neither clipped to the
    control range of the space nor checked against its shape. *)
Theorem continuous_movement_is_scaled_buffer
    (e : Env.t) (agent : Agent.t) (action_space : Space) (b : list float) :
  Agent.movable agent = true ->
  Agent.silent agent = true ->
  Env.discrete_action_input e = false ->
  Env.discrete_action_space e = false ->
  Env.force_discrete_action e = false ->
  is_MultiDiscrete action_space = false ->
  snd (_set_action e (PArr b) agent action_space) = Ret tt /\
  u_after e (PArr b) agent action_space =
    PArr (map (fun x => (x * sensitivity_of agent)%float) b).
Proof.
  intros Hm Hs Hdai Hdas Hforce Hsp. unfold u_after.
  rewrite _set_action_body, (set_action_body_mover _ _ _ _ _ Hm Hs Hsp).
  unfold physical_action. rewrite Hdai, Hdas, Hforce. split; reflexivity.
Qed.

Lemma continuous_movement_is_scaled_buffer_witness :
  let e := sample_env mover_speaker_world [] false false 25 in
  let space := Box (-1)%float 1%float 2 in
  snd (_set_action e (PArr [3; -0.5; 2]%float) (sample_agent true true) space)
    = Ret tt /\
  u_after e (PArr [3; -0.5; 2]%float) (sample_agent true true) space
    = PArr [15; -2.5; 10]%float.
Proof.
  cbv zeta.
  apply (continuous_movement_is_scaled_buffer
           (sample_env mover_speaker_world [] false false 25)
           (sample_agent true true) (Box (-1)%float 1%float 2)
           [3; -0.5; 2]%float); reflexivity.
Defined.

(** X5: a pure mover with a discrete space and one-hot input, when no
    discretisation is forced: element 0 of the buffer (the no-op weight) is
    not read; axis 0 receives [0.0 + (b[1] - b[2])], axis 1 receives
    [0.0 + (b[3] - b[4])], the other axes stay zero, and the force is then
    multiplied by the sensitivity.  Elements past the fifth are ignored. *)
Theorem one_hot_movement_is_push_pull
    (e : Env.t) (agent : Agent.t) (action_space : Space)
    (b0 b1 b2 b3 b4 : float) (rest : list float) :
  Agent.movable agent = true ->
  Agent.silent agent = true ->
  Env.discrete_action_input e = false ->
  Env.discrete_action_space e = true ->
  Env.force_discrete_action e = false ->
  is_MultiDiscrete action_space = false ->
  2 <= World.dim_p (Env.world e) ->
  let buffer := PArr (b0 :: b1 :: b2 :: b3 :: b4 :: rest) in
  snd (_set_action e buffer agent action_space) = Ret tt /\
  u_after e buffer agent action_space =
    PArr (map (fun x => (x * sensitivity_of agent)%float)
              ((0 + (b1 - b2))%float :: (0 + (b3 - b4))%float
               :: np_zeros (World.dim_p (Env.world e) - 2))).
Proof.
  intros Hm Hs Hdai Hdas Hforce Hsp Hdim. cbv zeta. unfold u_after.
  rewrite _set_action_body, (set_action_body_mover _ _ _ _ _ Hm Hs Hsp).
  unfold physical_action. rewrite Hdai, Hdas, Hforce.
  destruct (World.dim_p (Env.world e)) as [|[|d]]; [lia|lia|].
  replace (S (S d) - 2) with d by lia. split; reflexivity.
Qed.

Lemma one_hot_movement_is_push_pull_witness :
  let e := sample_env mover_speaker_world [] true false 25 in
  snd (_set_action e (PArr [9; 0.75; 0.25; 0; 1; 8]%float)
         (sample_agent true true) (Discrete 5)) = Ret tt /\
  u_after e (PArr [9; 0.75; 0.25; 0; 1; 8]%float)
    (sample_agent true true) (Discrete 5) = PArr [2.5; -5]%float.
Proof.
  cbv zeta.
  apply (one_hot_movement_is_push_pull
           (sample_env mover_speaker_world [] true false 25)
           (sample_agent true true) (Discrete 5)
           9 0.75 0.25 0 1 [8%float]); reflexivity.
Defined.

(** ** A mover that speaks in a continuous action space *)

Lemma communication_action_nil e s :
  snd (communication_action e [] s) = Raise IndexError.
Proof.
  unfold communication_action. destruct (Env.discrete_action_input e); reflexivity.
Qed.

(** X6: with a continuous action space the composer gives a movable,
    communicating agent a [Tuple] of two boxes; the decoder wraps the raw
    action as one segment, the physical part consumes it, and the
    communication part then finds the list empty: no action whatever is
    decoded without an exception. *)
Theorem tuple_space_never_decodes
    (e : Env.t) (agent : Agent.t) (action : pyval) :
  Agent.movable agent = true ->
  Agent.silent agent = false ->
  Env.discrete_action_space e = false ->
  exists low high,
    compose_action_space (Env.discrete_action_space e) (Env.world e) agent =
      Ret (Tuple [Box low high (World.dim_p (Env.world e));
                  Box 0%float 1%float (World.dim_c (Env.world e))]) /\
    (snd (_set_action e action agent
            (Tuple [Box low high (World.dim_p (Env.world e));
                    Box 0%float 1%float (World.dim_c (Env.world e))]))
       = Ret tt -> False).
Proof.
  intros Hm Hs Hdas.
  exists (- Agent.u_range agent)%float, (Agent.u_range agent).
  split.
  { unfold compose_action_space. rewrite Hm, Hs, Hdas. reflexivity. }
  rewrite _set_action_snd, set_action_body_unfold. unfold decode_segments.
  rewrite Hm, Hs. simpl segments_of.
  unfold mbind, se_mbind, se_bind, se_lift. cbv beta iota.
  change (negb false) with true. cbv beta iota.
  pose proof (post_physical_action e agent [action]
                (Action.mk (PArr (np_zeros (World.dim_p (Env.world e))))
                           (PArr (np_zeros (World.dim_c (Env.world e)))))) as Hpost.
  destruct (physical_action e agent [action] _) as [s' [rest|ex]];
    [|discriminate].
  simpl in Hpost. subst rest. simpl drop.
  pose proof (communication_action_nil e s') as Hnil.
  destruct (communication_action e [] s') as [s'' [rest|ex]]; simpl in Hnil;
    [discriminate|]. discriminate.
Qed.

Lemma tuple_space_never_decodes_witness :
  let e := sample_env mover_speaker_world [] false false 25 in
  let agent := sample_agent true false in
  let action := PArr [1; 0; 0; 1; 0]%float in
  (exists low high,
     compose_action_space false (Env.world e) agent =
       Ret (Tuple [Box low high 2; Box 0%float 1%float 3]) /\
     (snd (_set_action e action agent
             (Tuple [Box low high 2; Box 0%float 1%float 3])) = Ret tt -> False)) /\
  snd (_set_action e action agent
         (Tuple [Box (-1)%float 1%float 2; Box 0%float 1%float 3]))
    = Raise IndexError.
Proof.
  cbv zeta. split; [|vm_compute; reflexivity].
  exact (tuple_space_never_decodes
           (sample_env mover_speaker_world [] false false 25)
           (sample_agent true false) (PArr [1; 0; 0; 1; 0]%float)
           eq_refl eq_refl eq_refl).
Defined.

(** ** Forced discretisation *)

Lemma argmax_from_bound :
  forall l mp best i,
    best < i -> argmax_from mp best i l < i + length l \/ argmax_from mp best i l = best.
Proof.
  induction l as [|x l IH]; intros mp best i Hbest; simpl.
  - right. reflexivity.
  - destruct (negb (x <=? mp)%float).
    + destruct (is_nan x); [left; lia|].
      destruct (IH x i (S i) ltac:(lia)) as [H|H]; left; lia.
    + destruct (IH mp best (S i) ltac:(lia)) as [H|H]; [left; lia|right; exact H].
Qed.

Lemma np_argmax_bound a :
  a <> [] -> exists d, np_argmax a = Ret d /\ d < length a.
Proof.
  intros Hne. destruct a as [|x l]; [congruence|]. simpl.
  destruct (is_nan x).
  - exists 0. split; [reflexivity|lia].
  - exists (argmax_from x 0 1 l). split; [reflexivity|].
    destruct (argmax_from_bound l x 0 1 ltac:(lia)) as [H|H]; lia.
Qed.

Lemma one_hot_at_lookup n d i :
  d < n -> i < n ->
  one_hot_at n d !! i = Some (if decide (i = d) then 1%float else 0%float).
Proof.
  intros Hd Hi. unfold one_hot_at, np_zeros.
  destruct (decide (i = d)) as [->|Hne].
  - apply list_lookup_insert_eq. rewrite length_replicate. exact Hd.
  - rewrite list_lookup_insert_ne by congruence.
    apply lookup_replicate_2. exact Hi.
Qed.

(** X7: the forced discretisation of lines 270-273 turns every non-empty
    array into a one-hot array of the same length: one element, at an
    index inside the array, is 1.0 and every other element is 0.0.  An
    empty array raises [ValueError]. *)
Theorem forced_discretisation_is_one_hot (a : list float) :
  a <> [] ->
  force_one_hot (PArr []) = Raise ValueError /\
  exists d hot,
    d < length a /\
    force_one_hot (PArr a) = Ret (PArr hot) /\
    length hot = length a /\
    forall i, i < length a ->
              hot !! i = Some (if decide (i = d) then 1%float else 0%float).
Proof.
  intros Hne. split; [reflexivity|].
  destruct (np_argmax_bound a Hne) as (d & Hd & Hlt).
  exists d, (one_hot_at (length a) d). split; [exact Hlt|]. split.
  { unfold force_one_hot. rewrite Hd. reflexivity. }
  split.
  { unfold one_hot_at, np_zeros. rewrite length_insert, length_replicate.
    reflexivity. }
  intros i Hi. apply one_hot_at_lookup; assumption.
Qed.

Lemma forced_discretisation_is_one_hot_witness :
  force_one_hot (PArr [0.25; 0.5; 0.5; -1]%float) = Ret (PArr [0; 1; 0; 0]%float) /\
  exists d hot,
    d < 4 /\
    force_one_hot (PArr [0.25; 0.5; 0.5; -1]%float) = Ret (PArr hot) /\
    length hot = 4 /\
    forall i, i < 4 ->
              hot !! i = Some (if decide (i = d) then 1%float else 0%float).
Proof.
  split; [vm_compute; reflexivity|].
  apply (forced_discretisation_is_one_hot [0.25; 0.5; 0.5; -1]%float).
  discriminate.
Defined.

Lemma argmax_from_zeros m :
  forall mp best i,
    (0 <=? mp)%float = true ->
    argmax_from mp best i (replicate m 0%float) = best.
Proof.
  induction m as [|m IH]; intros mp best i Hmp; simpl; [reflexivity|].
  rewrite Hmp. simpl. apply IH. exact Hmp.
Qed.

Lemma argmax_from_one_hot k m :
  forall best i,
    argmax_from 0%float best i (replicate k 0%float ++ 1%float :: replicate m 0%float)
    = i + k.
Proof.
  induction k as [|k IH]; intros best i; simpl.
  - change (negb (1 <=? 0)%float) with true. cbv iota.
    change (is_nan 1) with false. cbv iota.
    rewrite argmax_from_zeros by reflexivity. lia.
  - change (negb (0 <=? 0)%float) with false. cbv iota.
    rewrite IH. lia.
Qed.

Lemma one_hot_at_split n k :
  k < n ->
  one_hot_at n k = replicate k 0%float ++ 1%float :: replicate (n - k - 1) 0%float.
Proof.
  revert n. induction k as [|k IH]; intros n Hk.
  - destruct n as [|n]; [lia|]. simpl. rewrite Nat.sub_0_r. reflexivity.
  - destruct n as [|n]; [lia|].
    change (one_hot_at (S n) (S k)) with (0%float :: one_hot_at n k).
    rewrite IH by lia. reflexivity.
Qed.

Lemma np_argmax_one_hot n k : k < n -> np_argmax (one_hot_at n k) = Ret k.
Proof.
  intros Hk. rewrite one_hot_at_split by exact Hk.
  destruct k as [|k]; simpl.
  - change (is_nan 1) with false. cbv iota.
    rewrite argmax_from_zeros by reflexivity. reflexivity.
  - change (is_nan 0) with false. cbv iota.
    rewrite argmax_from_one_hot. reflexivity.
Qed.

(** X8: the forced discretisation is idempotent: forcing what it returned
    changes nothing, so a buffer that is already one-hot is decoded as it
    is. *)
Theorem forced_discretisation_idempotent (a : list float) (hot : pyval) :
  force_one_hot (PArr a) = Ret hot ->
  force_one_hot hot = Ret hot.
Proof.
  intros H. destruct a as [|x l]; [discriminate|].
  destruct (np_argmax_bound (x :: l) ltac:(discriminate)) as (d & Hd & Hlt).
  assert (Hhot : hot = PArr (one_hot_at (length (x :: l)) d)).
  { unfold force_one_hot in H. rewrite Hd in H. inversion H. reflexivity. }
  subst hot. unfold force_one_hot.
  rewrite (np_argmax_one_hot _ _ Hlt).
  assert (Hlen : length (one_hot_at (length (x :: l)) d) = length (x :: l))
    by (unfold one_hot_at, np_zeros; rewrite length_insert, length_replicate;
        reflexivity).
  unfold mbind, outcome_bind, obind. rewrite Hlen. reflexivity.
Qed.

Lemma forced_discretisation_idempotent_witness :
  force_one_hot (PArr [0; 1; 0; 0]%float) = Ret (PArr [0; 1; 0; 0]%float).
Proof.
  apply (forced_discretisation_idempotent [0.25; 0.5; 0.5; -1]%float).
  vm_compute. reflexivity.
Defined.

(** * Further properties of the assemblers *)

(** ** Observations *)

Lemma get_obs_agent_flat_2d e agent_id :
  Env.translate_observation e = None ->
  agent_id < length (World.agents (Env.world e)) ->
  two_dimensional (Env.world e) ->
  exists flat,
    get_obs_agent e agent_id false = Ret (Values flat) /\
    flat_observation (Env.world e) agent_id = Ret flat /\
    length flat = 4 + 2 * (length (World.agents (Env.world e)) - 1)
                  + 2 * length (World.landmarks (Env.world e)).
Proof.
  intros Hnone Hid H2d.
  destruct (flat_observation_2d _ _ Hid H2d)
    as (self & rel & lms & Hflat & Hself & Hrel & Hlms).
  exists (self ++ rel ++ lms).
  split; [rewrite (get_obs_agent_untranslated _ _ Hnone), Hflat; reflexivity|].
  split; [exact Hflat|]. rewrite !length_app. lia.
Qed.

Lemma get_obs_from_2d e :
  Env.translate_observation e = None ->
  two_dimensional (Env.world e) ->
  forall k i,
    i + k <= length (World.agents (Env.world e)) ->
    exists l,
      get_obs_from e i k = Ret l /\
      length l = k /\
      forall j, j < k ->
        exists flat,
          l !! j = Some (Values flat) /\
          get_obs_agent e (i + j) false = Ret (Values flat) /\
          length flat = 4 + 2 * (length (World.agents (Env.world e)) - 1)
                        + 2 * length (World.landmarks (Env.world e)).
Proof.
  intros Hnone H2d. induction k as [|k IH]; intros i Hik; simpl.
  - exists []. split; [reflexivity|]. split; [reflexivity|]. intros j Hj. lia.
  - destruct (get_obs_agent_flat_2d e i Hnone ltac:(lia) H2d)
      as (flat & Hobs & _ & Hlen).
    destruct (IH (S i) ltac:(lia)) as (l & Hl & Hlenl & Hentries).
    rewrite Hobs. simpl. rewrite Hl. simpl.
    exists (Values flat :: l). split; [reflexivity|].
    split; [simpl; lia|].
    intros [|j] Hj.
    + exists flat. rewrite Nat.add_0_r. auto.
    + destruct (Hentries j ltac:(lia)) as (flat' & H1 & H2 & H3).
      exists flat'. replace (i + S j) with (S i + j) by lia. auto.
Qed.

Lemma get_obs_2d (e : Env.t) :
  Env.translate_observation e = None ->
  two_dimensional (Env.world e) ->
  exists l,
    get_obs e = Ret l /\
    length l = length (World.policy_agents (Env.world e)) /\
    forall j, j < length (World.policy_agents (Env.world e)) ->
      exists flat,
        l !! j = Some (Values flat) /\
        get_obs_agent e j false = Ret (Values flat) /\
        length flat = 4 + 2 * (length (World.agents (Env.world e)) - 1)
                      + 2 * length (World.landmarks (Env.world e)).
Proof.
  intros Hnone H2d. unfold get_obs.
  apply (get_obs_from_2d e Hnone H2d _ 0).
  unfold World.policy_agents. simpl. apply length_filter.
Qed.

(** X9: in a two-dimensional world without translation map [get_obs]
    always returns, with one vector per policy agent, each of length
    [4 + 2 * (n_agents - 1) + 2 * n_landmarks]; entry [j] is the
    observation of [world.agents[j]], the agent at position [j] of all the
    agents of the world, whether that agent is a policy agent or not. *)
Theorem get_obs_one_vector_per_policy_agent (e : Env.t) :
  Env.translate_observation e = None ->
  two_dimensional (Env.world e) ->
  exists l,
    get_obs e = Ret l /\
    length l = length (World.policy_agents (Env.world e)) /\
    forall j, j < length (World.policy_agents (Env.world e)) ->
      exists flat,
        l !! j = Some (Values flat) /\
        get_obs_agent e j false = Ret (Values flat) /\
        length flat = 4 + 2 * (length (World.agents (Env.world e)) - 1)
                      + 2 * length (World.landmarks (Env.world e)).
Proof. exact (get_obs_2d e). Qed.

(** A scripted agent first, a policy agent second: the only observation
    [get_obs] returns is that of the scripted agent. *)
Lemma get_obs_one_vector_per_policy_agent_witness :
  let scripted :=
    Agent.mk true true None 1%float false
      (EntityState.mk [7; 7]%float [0; 0]%float) stale_action in
  let world := World.mk [scripted; placed_agent 2 3] [] 2 0 None None in
  let e := sample_env world [Discrete 5] true true 25 in
  get_obs e = Ret [Values [7; 7; 0; 0; 5; 4]%float] /\
  exists l,
    get_obs e = Ret l /\
    length l = 1 /\
    forall j, j < 1 ->
      exists flat,
        l !! j = Some (Values flat) /\
        get_obs_agent e j false = Ret (Values flat) /\
        length flat = 4 + 2 * (2 - 1) + 2 * 0.
Proof.
  cbv zeta. split; [vm_compute; reflexivity|].
  apply (get_obs_one_vector_per_policy_agent
           (sample_env
              (World.mk [Agent.mk true true None 1%float false
                           (EntityState.mk [7; 7]%float [0; 0]%float) stale_action;
                         placed_agent 2 3] [] 2 0 None None)
              [Discrete 5] true true 25)).
  - reflexivity.
  - split; repeat constructor.
Defined.

(** X10: an [agent_id] past the last agent of the world makes
    [get_obs_agent] raise [IndexError], with or without the structure flag
    and whatever the translation map; so [get_obs_size] raises in a world
    without agents. *)
Theorem get_obs_agent_out_of_range (e : Env.t) (agent_id : nat) (structure : bool) :
  length (World.agents (Env.world e)) <= agent_id ->
  get_obs_agent e agent_id structure = Raise IndexError /\
  (World.agents (Env.world e) = [] -> get_obs_size e = Raise IndexError).
Proof.
  intros Hid.
  assert (Hraise : forall i s, length (World.agents (Env.world e)) <= i ->
                               get_obs_agent e i s = Raise IndexError).
  { intros i s Hi. unfold get_obs_agent, list_getitem.
    rewrite (lookup_ge_None_2 _ _ Hi). reflexivity. }
  split; [apply Hraise; exact Hid|].
  intros Hnil. unfold get_obs_size. rewrite Hraise; [reflexivity|].
  rewrite Hnil. simpl. lia.
Qed.

Lemma get_obs_agent_out_of_range_witness :
  get_obs_agent mover_speaker_env 2 true = Raise IndexError /\
  (World.agents (Env.world mover_speaker_env) = [] ->
   get_obs_size mover_speaker_env = Raise IndexError).
Proof.
  apply (get_obs_agent_out_of_range mover_speaker_env 2 true). apply le_n.
Defined.

(** X11: in a two-dimensional world with an agent and without translation
    map, [get_obs_size] is [4 + 2 * (n_agents - 1) + 2 * n_landmarks], which
    is the last boundary of the structure descriptor of every valid
    agent. *)
Theorem get_obs_size_is_last_boundary (e : Env.t) (agent_id : nat) :
  Env.translate_observation e = None ->
  two_dimensional (Env.world e) ->
  agent_id < length (World.agents (Env.world e)) ->
  exists boundaries size,
    get_obs_size e = Ret size /\
    get_obs_agent e agent_id true = Ret (Boundaries boundaries) /\
    last boundaries = Some size /\
    size = 4 + 2 * (length (World.agents (Env.world e)) - 1)
           + 2 * length (World.landmarks (Env.world e)).
Proof.
  intros Hnone H2d Hid.
  destruct (get_obs_agent_flat_2d e 0 Hnone ltac:(lia) H2d)
    as (flat0 & Hobs0 & _ & Hlen0).
  destruct (get_obs_agent_flat_2d e agent_id Hnone Hid H2d)
    as (flat & _ & Hflat & _).
  eexists _, (length flat0).
  split; [unfold get_obs_size; rewrite Hobs0; reflexivity|].
  split; [exact (get_obs_agent_structure _ _ _ Hflat)|].
  split; [|exact Hlen0].
  unfold obs_boundaries. simpl. rewrite Hlen0. f_equal; lia.
Qed.

Lemma get_obs_size_is_last_boundary_witness :
  get_obs_size spread_env = Ret 8 /\
  exists boundaries size,
    get_obs_size spread_env = Ret size /\
    get_obs_agent spread_env 1 true = Ret (Boundaries boundaries) /\
    last boundaries = Some size /\
    size = 4 + 2 * (2 - 1) + 2 * 1.
Proof.
  split; [vm_compute; reflexivity|].
  apply (get_obs_size_is_last_boundary spread_env 1).
  - reflexivity.
  - split; repeat constructor.
  - apply le_n.
Defined.

(** ** The global state *)

Lemma concat_agent_pairs (agents : list Agent.t) :
  concat (concat (map (fun agent => [EntityState.p_pos (Agent.state agent);
                                     EntityState.p_vel (Agent.state agent)])
                      agents)) =
  concat (map (fun a => EntityState.p_pos (Agent.state a)
                        ++ EntityState.p_vel (Agent.state a)) agents).
Proof.
  induction agents as [|a agents IH]; [reflexivity|].
  simpl. rewrite IH, app_assoc. reflexivity.
Qed.

Lemma length_agents_block world :
  two_dimensional world ->
  length (agents_block world) = 4 * length (World.agents world).
Proof.
  intros [Hagents _]. unfold agents_block.
  induction Hagents as [|a agents [Hp Hv] _ IH]; [reflexivity|].
  simpl. rewrite !length_app, Hp, Hv, IH. lia.
Qed.

Lemma length_landmarks_block world :
  two_dimensional world ->
  length (landmarks_block world) = 2 * length (World.landmarks world).
Proof.
  intros [_ Hlms]. unfold landmarks_block.
  induction Hlms as [|l lms Hp _ IH]; [reflexivity|].
  simpl. rewrite !length_app, Hp, IH. lia.
Qed.

(** The vector that [get_state] assembles before any translation. *)
Lemma get_state_concatenation (e : Env.t) :
  World.agents (Env.world e) <> [] \/ World.landmarks (Env.world e) <> [] ->
  np_concatenate
    (concat (map (fun agent => [EntityState.p_pos (Agent.state agent);
                                EntityState.p_vel (Agent.state agent)])
                 (World.agents (Env.world e)))
     ++ map (fun landmark => EntityState.p_pos (Landmark.state landmark))
            (World.landmarks (Env.world e))) =
  Ret (agents_block (Env.world e) ++ landmarks_block (Env.world e)).
Proof.
  intros Hne. unfold np_concatenate, agents_block, landmarks_block.
  rewrite <- concat_agent_pairs, <- concat_app.
  destruct (World.agents (Env.world e)) as [|a agents]; simpl.
  - destruct (World.landmarks (Env.world e)) as [|l lms].
    + destruct Hne; congruence.
    + reflexivity.
  - reflexivity.
Qed.

(** X12: in a two-dimensional world with an agent or a landmark, the state
    vector has [4 * n_agents + 2 * n_landmarks] elements while the last
    boundary of the structure descriptor of [get_state] is
    [6 * n_agents]: the descriptor spans the vector exactly when the world
    has as many landmarks as agents. *)
Theorem state_descriptor_spans_state_iff_counts_agree (e : Env.t) :
  Env.translate_state e = None ->
  two_dimensional (Env.world e) ->
  World.agents (Env.world e) <> [] \/ World.landmarks (Env.world e) <> [] ->
  let n_agents := length (World.agents (Env.world e)) in
  let n_landmarks := length (World.landmarks (Env.world e)) in
  exists boundaries,
    get_state e true = Ret (Boundaries boundaries) /\
    last boundaries = Some (6 * n_agents) /\
    get_state_size e = Ret (4 * n_agents + 2 * n_landmarks) /\
    (last boundaries = Some (4 * n_agents + 2 * n_landmarks)
     <-> n_agents = n_landmarks).
Proof.
  intros Hnone H2d Hne. cbv zeta.
  pose proof (get_state_concatenation e Hne) as Hcat.
  eexists. split.
  { unfold get_state. rewrite Hcat. reflexivity. }
  split; [simpl; f_equal; lia|]. split.
  { unfold get_state_size, get_state. rewrite Hcat, Hnone. simpl.
    rewrite length_app, length_agents_block, length_landmarks_block by assumption.
    reflexivity. }
  simpl. split; intros H; [injection H as H|f_equal]; lia.
Qed.

Lemma state_descriptor_spans_state_iff_counts_agree_witness :
  get_state_size lone_agent_env = Ret 8 /\
  exists boundaries,
    get_state lone_agent_env true = Ret (Boundaries boundaries) /\
    last boundaries = Some (6 * 1) /\
    get_state_size lone_agent_env = Ret (4 * 1 + 2 * 2) /\
    (last boundaries = Some (4 * 1 + 2 * 2) <-> 1 = 2).
Proof.
  split; [vm_compute; reflexivity|].
  apply (state_descriptor_spans_state_iff_counts_agree lone_agent_env).
  - reflexivity.
  - split; repeat constructor.
  - left. discriminate.
Defined.

(** X13: [get_state] raises, with [ValueError], exactly when the world has
    neither agent nor landmark, if the structure descriptor is asked for:
    the vector is concatenated before the flag is looked at, and numpy
    refuses to concatenate nothing. *)
Theorem get_state_structure_fails_iff_world_empty (e : Env.t) :
  (World.agents (Env.world e) = [] /\ World.landmarks (Env.world e) = []
   -> get_state e true = Raise ValueError /\ get_state e false = Raise ValueError) /\
  (forall ex, get_state e true = Raise ex ->
              ex = ValueError /\
              World.agents (Env.world e) = [] /\
              World.landmarks (Env.world e) = []).
Proof.
  split.
  - intros [Ha Hl]. unfold get_state. rewrite Ha, Hl. split; reflexivity.
  - intros ex H.
    destruct (World.agents (Env.world e)) as [|a agents] eqn:Ha.
    + destruct (World.landmarks (Env.world e)) as [|l lms] eqn:Hl.
      * unfold get_state in H. rewrite Ha, Hl in H. simpl in H.
        inversion H. auto.
      * unfold get_state in H. rewrite Ha, Hl in H. discriminate.
    + unfold get_state in H. rewrite Ha in H. discriminate.
Qed.

Lemma get_state_structure_fails_iff_world_empty_witness :
  get_state empty_env true = Raise ValueError /\
  get_state empty_env false = Raise ValueError.
Proof.
  apply (proj1 (get_state_structure_fails_iff_world_empty empty_env)).
  split; reflexivity.
Defined.

(** ** Translation of the global state *)

Lemma state_boundaries n :
  np_cumsum ([0] ++ [n * 4] ++ [n * 2]) = [0; 4 * n; 6 * n].
Proof.
  assert (H : forall a b c, np_cumsum ([a] ++ [b] ++ [c]) = [a; a + b; a + b + c])
    by reflexivity.
  rewrite H. replace (0 + n * 4) with (4 * n) by lia.
  replace (4 * n + n * 2) with (6 * n) by lia. reflexivity.
Qed.

(** What [get_state] returns with a translation map, in a world that is
    not empty. *)
Lemma get_state_translated e tmap :
  Env.translate_state e = Some tmap ->
  World.agents (Env.world e) <> [] \/ World.landmarks (Env.world e) <> [] ->
  get_state e false =
  (new_state ← translate tmap
                 [0; 4 * length (World.agents (Env.world e));
                  6 * length (World.agents (Env.world e))]
                 (agents_block (Env.world e) ++ landmarks_block (Env.world e));
   Ret (Values new_state)).
Proof.
  intros Hsome Hne. unfold get_state.
  rewrite (get_state_concatenation e Hne), Hsome. simpl mbind at 1.
  change ([0] ++ [length (World.agents (Env.world e)) * 4]
          ++ [length (World.agents (Env.world e)) * 2])
    with ([0] ++ [length (World.agents (Env.world e)) * 4]
          ++ [length (World.agents (Env.world e)) * 2]).
  rewrite <- (state_boundaries (length (World.agents (Env.world e)))).
  reflexivity.
Qed.

(** X14: in a two-dimensional world with more agents than landmarks, a
    three-entry translation map whose two slots lie inside the destination
    makes [get_state] raise [ValueError]: the descriptor gives the landmark
    segment the width [2 * n_agents], the state vector holds only
    [2 * n_landmarks] landmark coordinates, and the slice assignment
    refuses the shorter source. *)
Theorem state_translation_fails_with_fewer_landmarks
    (e : Env.t) (off0 off1 total : nat) :
  Env.translate_state e = Some [off0; off1; total] ->
  two_dimensional (Env.world e) ->
  length (World.landmarks (Env.world e)) < length (World.agents (Env.world e)) ->
  off0 + 4 * length (World.agents (Env.world e)) <= total ->
  off1 + 2 * length (World.agents (Env.world e)) <= total ->
  get_state e false = Raise ValueError.
Proof.
  intros Hsome H2d Hless Hfit0 Hfit1.
  set (n := length (World.agents (Env.world e))) in *.
  set (m := length (World.landmarks (Env.world e))) in *.
  assert (Hne : World.agents (Env.world e) <> [] \/
                World.landmarks (Env.world e) <> []).
  { left. intros Hnil. unfold n in Hless. rewrite Hnil in Hless. simpl in Hless. lia. }
  rewrite (get_state_translated e _ Hsome Hne). fold n.
  set (flat := agents_block (Env.world e) ++ landmarks_block (Env.world e)).
  assert (Hflat : length flat = 4 * n + 2 * m).
  { unfold flat. rewrite length_app, length_agents_block, length_landmarks_block
      by assumption. reflexivity. }
  remember (4 * n) as w0 eqn:Hw0. remember (6 * n) as w1 eqn:Hw1.
  unfold translate.
  change (list_last [off0; off1; total]) with (Ret total : outcome nat).
  change (length [off0; off1; total] - 1) with 2.
  cbn [translate_loop].
  unfold mbind, outcome_bind, obind. cbv beta iota.
  rewrite (translate_segment_fits [off0; off1; total] [0; w0; w1] flat
             (np_zeros total) 0).
  2:{ unfold segment_fits, seg_width, np_zeros. rewrite length_replicate.
      simpl. repeat split; lia. }
  unfold translate_segment, mbind, outcome_bind, obind. simpl.
  unfold np_set_slice. rewrite length_inserts. unfold np_zeros.
  rewrite length_replicate.
  rewrite !Nat.min_l by lia.
  assert (Hsrc : length (slice flat w0 w1) = 2 * m).
  { unfold slice. rewrite length_take, length_drop. lia. }
  destruct (Nat.eqb_spec (length (slice flat w0 w1)) (off1 + (w1 - w0) - off1))
    as [Heq|Hne']; [rewrite Hsrc in Heq; lia|].
  destruct (slice flat w0 w1) as [|x [|y src]]; simpl in Hsrc;
    [reflexivity|lia|reflexivity].
Qed.

Lemma state_translation_fails_with_fewer_landmarks_witness :
  get_state spread_env true = Ret (Boundaries [0; 8; 12]) /\
  get_state_size spread_env = Ret 10 /\
  get_state crowded_env false = Raise ValueError.
Proof.
  split; [vm_compute; reflexivity|]. split; [vm_compute; reflexivity|].
  apply (state_translation_fails_with_fewer_landmarks crowded_env 0 8 12).
  - reflexivity.
  - split; repeat constructor.
  - apply le_n.
  - simpl. lia.
  - simpl. lia.
Defined.

(** The layout of a translation whose slots fit and do not overlap: each
    slot holds its segment, every other position is zero. *)
Lemma translate_layout (tmap boundaries : list nat) (flat : list float) total :
  last tmap = Some total ->
  (forall j, j + 1 < length tmap -> segment_fits tmap boundaries flat total j) ->
  (forall i j p, i < j -> j + 1 < length tmap ->
                 in_slot tmap boundaries i p ->
                 in_slot tmap boundaries j p -> False) ->
  exists new,
    translate tmap boundaries flat = Ret new /\
    length new = total /\
    (forall j, j + 1 < length tmap ->
               slice new (tmap !!! j) (tmap !!! j + seg_width boundaries j) =
               slice flat (boundaries !!! j) (boundaries !!! (j + 1))) /\
    (forall p, p < total ->
               (forall j, j + 1 < length tmap -> ~ in_slot tmap boundaries j p) ->
               new !! p = Some 0%float).
Proof.
  intros Hlast Hfits Hdisjoint.
  destruct (translate_spec tmap boundaries flat total Hlast Hfits)
    as (new & Htr & Hnewlen & Hzero & Hcopy).
  exists new. split; [exact Htr|]. split; [exact Hnewlen|].
  split; [|exact Hzero].
  intros j Hj. apply list_eq. intros i.
  destruct (Hfits j Hj) as (_ & _ & [Hlo Hhi] & Hslot).
  destruct (decide (i < seg_width boundaries j)) as [Hi|Hi].
  - rewrite lookup_slice by lia.
    rewrite lookup_slice by (unfold seg_width in Hi; lia).
    rewrite (Hcopy j (tmap !!! j + i) Hj).
    + f_equal. lia.
    + unfold in_slot. lia.
    + intros j' Hlt Hj' Hin'.
      apply (Hdisjoint j j' (tmap !!! j + i) Hlt Hj');
        [unfold in_slot; lia|exact Hin'].
  - unfold slice, seg_width in *. rewrite !lookup_take_ge by lia. reflexivity.
Qed.

(** X15: in a two-dimensional world with at least as many landmarks as
    agents, a three-entry translation map whose two slots lie inside the
    destination and do not overlap gives a state of the total width in
    which the first slot holds the positions and velocities of the agents
    and the second slot holds the first [2 * n_agents] landmark
    coordinates only; the coordinates of the landmarks that follow are not
    copied, and every position outside the slots is zero. *)
Theorem translated_state_keeps_as_many_landmarks_as_agents
    (e : Env.t) (off0 off1 total : nat) :
  Env.translate_state e = Some [off0; off1; total] ->
  two_dimensional (Env.world e) ->
  World.agents (Env.world e) <> [] ->
  let n_agents := length (World.agents (Env.world e)) in
  n_agents <= length (World.landmarks (Env.world e)) ->
  off0 + 4 * n_agents <= total ->
  off1 + 2 * n_agents <= total ->
  off0 + 4 * n_agents <= off1 \/ off1 + 2 * n_agents <= off0 ->
  exists new,
    get_state e false = Ret (Values new) /\
    length new = total /\
    slice new off0 (off0 + 4 * n_agents) = agents_block (Env.world e) /\
    slice new off1 (off1 + 2 * n_agents)
      = take (2 * n_agents) (landmarks_block (Env.world e)) /\
    (forall p, p < total ->
               ~ off0 <= p < off0 + 4 * n_agents ->
               ~ off1 <= p < off1 + 2 * n_agents ->
               new !! p = Some 0%float).
Proof.
  intros Hsome H2d Hagents n_agents Hcount Hfit0 Hfit1 Hdisjoint.
  pose proof (length_agents_block _ H2d) as HA.
  pose proof (length_landmarks_block _ H2d) as HL.
  fold n_agents in HA.
  set (m := length (World.landmarks (Env.world e))) in *.
  rewrite (get_state_translated e _ Hsome (or_introl Hagents)). fold n_agents.
  remember (4 * n_agents) as w0 eqn:Hw0. remember (6 * n_agents) as w1 eqn:Hw1.
  set (flat := agents_block (Env.world e) ++ landmarks_block (Env.world e)).
  assert (Hflat : length flat = w0 + 2 * m)
    by (unfold flat; rewrite length_app; lia).
  assert (Hwidth0 : seg_width [0; w0; w1] 0 = w0)
    by (unfold seg_width; simpl; lia).
  assert (Hwidth1 : seg_width [0; w0; w1] 1 = 2 * n_agents)
    by (unfold seg_width; simpl; lia).
  destruct (translate_layout [off0; off1; total] [0; w0; w1] flat total)
    as (new & Htr & Hlen & Hslots & Hzero).
  - reflexivity.
  - intros j Hj. simpl in Hj.
    destruct j as [|[|j]]; [| |lia]; unfold segment_fits;
      [rewrite Hwidth0|rewrite Hwidth1]; simpl; repeat split; lia.
  - intros i j p Hij Hj. simpl in Hj.
    destruct j as [|[|j]]; [lia| |lia]. destruct i as [|i]; [|lia].
    unfold in_slot. rewrite Hwidth0, Hwidth1. simpl. lia.
  - exists new. rewrite Htr. split; [reflexivity|]. split; [exact Hlen|].
    split; [|split].
    + pose proof (Hslots 0 ltac:(simpl; lia)) as H0.
      rewrite Hwidth0 in H0. simpl in H0. rewrite H0.
      unfold slice, flat. rewrite Nat.sub_0_r, drop_0.
      rewrite take_app_le by lia. apply take_ge. lia.
    + pose proof (Hslots 1 ltac:(simpl; lia)) as H1.
      rewrite Hwidth1 in H1.
      change ([off0; off1; total] !!! 1) with off1 in H1.
      change ([0; w0; w1] !!! 1) with w0 in H1.
      change ([0; w0; w1] !!! (1 + 1)) with w1 in H1.
      rewrite H1.
      unfold slice, flat. rewrite drop_app_length' by lia.
      f_equal. lia.
    + intros p Hp Hout0 Hout1. apply Hzero; [exact Hp|].
      intros j Hj. simpl in Hj. unfold in_slot.
      destruct j as [|[|j]]; [rewrite Hwidth0|rewrite Hwidth1|lia]; simpl; lia.
Qed.

(** One agent and two landmarks at (1, 1) and (2, -1): the second
    landmark never reaches the translated state. *)
Lemma translated_state_keeps_as_many_landmarks_as_agents_witness :
  get_state lone_agent_env false =
    Ret (Values [0.5; 1; 0; 0.25; 1; 1; 2; -1]%float) /\
  get_state sparse_env false =
    Ret (Values [0.5; 1; 0; 0.25; 0; 0; 1; 1; 0; 0]%float) /\
  exists new,
    get_state sparse_env false = Ret (Values new) /\
    length new = 10 /\
    slice new 0 (0 + 4 * 1) = agents_block (Env.world sparse_env) /\
    slice new 6 (6 + 2 * 1) = take (2 * 1) (landmarks_block (Env.world sparse_env)) /\
    (forall p, p < 10 ->
               ~ 0 <= p < 0 + 4 * 1 ->
               ~ 6 <= p < 6 + 2 * 1 ->
               new !! p = Some 0%float).
Proof.
  split; [vm_compute; reflexivity|]. split; [vm_compute; reflexivity|].
  apply (translated_state_keeps_as_many_landmarks_as_agents sparse_env 0 6 10).
  - reflexivity.
  - split; repeat constructor.
  - discriminate.
  - simpl. lia.
  - simpl. lia.
  - simpl. lia.
  - left. simpl. lia.
Defined.

(** X16: the degenerate translation maps.  For a valid agent of a
    two-dimensional world, an empty map makes [get_obs_agent] raise
    [IndexError] (its last entry is read first), and a map of one entry
    [total] names no segment: the observation is a vector of [total]
    zeros, and nothing of the agent's view is in it. *)
Theorem degenerate_translation_maps (e : Env.t) (agent_id total : nat) :
  agent_id < length (World.agents (Env.world e)) ->
  two_dimensional (Env.world e) ->
  (Env.translate_observation e = Some []
   -> get_obs_agent e agent_id false = Raise IndexError) /\
  (Env.translate_observation e = Some [total]
   -> get_obs_agent e agent_id false = Ret (Values (np_zeros total))).
Proof.
  intros Hid H2d.
  destruct (flat_observation_2d _ _ Hid H2d) as (self & rel & lms & Hflat & _).
  split; intros Hmap; rewrite (get_obs_agent_translated _ _ _ Hmap), Hflat;
    reflexivity.
Qed.

Lemma degenerate_translation_maps_witness :
  get_obs_agent (Env.set_translate_observation spread_env (Some [])) 0 false
    = Raise IndexError /\
  get_obs_agent (Env.set_translate_observation spread_env (Some [3])) 0 false
    = Ret (Values [0; 0; 0]%float).
Proof.
  assert (H2d : two_dimensional (Env.world spread_env))
    by (split; repeat constructor).
  split.
  - apply (proj1 (degenerate_translation_maps
                    (Env.set_translate_observation spread_env (Some [])) 0 0
                    (le_S _ _ (le_n 1)) H2d)).
    reflexivity.
  - apply (proj2 (degenerate_translation_maps
                    (Env.set_translate_observation spread_env (Some [3])) 0 3
                    (le_S _ _ (le_n 1)) H2d)).
    reflexivity.
Defined.

(** X17: a translation map with more entries than the descriptor has
    boundaries: once the three segments of the observation have been
    copied, the loop reads a fourth width from the descriptor and
    [get_obs_agent] raises [IndexError]. *)
Theorem oversized_translation_map_raises
    (e : Env.t) (agent_id : nat) (tmap : list nat) (total : nat) :
  Env.translate_observation e = Some tmap ->
  agent_id < length (World.agents (Env.world e)) ->
  two_dimensional (Env.world e) ->
  let boundaries :=
    obs_boundaries (length (World.agents (Env.world e)))
                   (length (World.landmarks (Env.world e))) in
  4 < length tmap ->
  last tmap = Some total ->
  (forall j, j < 3 -> tmap !!! j + seg_width boundaries j <= total) ->
  get_obs_agent e agent_id false = Raise IndexError.
Proof.
  intros Hsome Hid H2d boundaries Hlen Hlast Hfit.
  destruct (flat_observation_2d _ _ Hid H2d)
    as (self & rel & lms & Hflat & Hself & Hrel & Hlms).
  set (flat := self ++ rel ++ lms) in *.
  assert (Hflatlen : length flat =
                     4 + 2 * (length (World.agents (Env.world e)) - 1)
                     + 2 * length (World.landmarks (Env.world e)))
    by (unfold flat; rewrite !length_app; lia).
  rewrite (get_obs_agent_translated _ _ _ Hsome), Hflat. simpl mbind at 1.
  fold boundaries. unfold translate, list_last. rewrite Hlast. simpl mbind at 2.
  replace (length tmap - 1) with (3 + S (length tmap - 5)) by lia.
  assert (Hloop : forall k new,
            translate_loop tmap boundaries flat new 3 (S k) = Raise IndexError).
  { intros k new. simpl. unfold translate_segment.
    unfold boundaries, obs_boundaries, np_cumsum. reflexivity. }
  assert (Hsplit : forall k2 k1 i new,
            translate_loop tmap boundaries flat new i (k1 + k2) =
            (new' ← translate_loop tmap boundaries flat new i k1;
             translate_loop tmap boundaries flat new' (i + k1) k2)).
  { intros k2. induction k1 as [|k1 IH]; intros i new.
    - simpl. rewrite Nat.add_0_r. reflexivity.
    - simpl. destruct (translate_segment tmap boundaries flat new i) as [new'|ex];
        [|reflexivity].
      simpl. rewrite IH. replace (S i + k1) with (i + S k1) by lia. reflexivity. }
  rewrite Hsplit.
  destruct (translate_loop_spec tmap boundaries flat 3 0 (np_zeros total))
    as (new & Htr & _).
  { intros j Hj. unfold np_zeros. rewrite length_replicate.
    split; [unfold boundaries, obs_boundaries; simpl; lia|].
    split; [lia|]. split; [|apply Hfit; lia].
    apply obs_boundaries_fit; [exact Hflatlen|lia]. }
  rewrite Htr. unfold mbind, outcome_bind, obind. cbv beta iota.
  change (0 + 3) with 3. rewrite Hloop. reflexivity.
Qed.

Lemma oversized_translation_map_raises_witness :
  get_obs_agent (Env.set_translate_observation spread_env (Some [0; 4; 6; 8; 8]))
    1 false = Raise IndexError.
Proof.
  apply (oversized_translation_map_raises
           (Env.set_translate_observation spread_env (Some [0; 4; 6; 8; 8]))
           1 [0; 4; 6; 8; 8] 8).
  - reflexivity.
  - apply le_n.
  - split; repeat constructor.
  - apply le_n.
  - reflexivity.
  - intros j Hj. destruct j as [|[|[|j]]]; [vm_compute; lia..|lia].
Defined.

(** * Further properties of the episode driver *)

(** ** The list of actions *)

Lemma policy_agents_cons agent agents :
  filter (fun a => Agent.policy a = true) (agent :: agents) =
  if Agent.policy agent
  then agent :: filter (fun a => Agent.policy a = true) agents
  else filter (fun a => Agent.policy a = true) agents.
Proof.
  destruct (Agent.policy agent) eqn:Hp.
  - apply filter_cons_True. exact Hp.
  - apply filter_cons_False. congruence.
Qed.

(** When the actions run out before the policy agents do, the decoding
    loop raises. *)
Lemma set_actions_short e action_n :
  forall agents i,
    i <= length action_n ->
    length action_n < i + length (filter (fun a => Agent.policy a = true) agents) ->
    exists agents' ex, set_actions e action_n i agents = (agents', Raise ex).
Proof.
  induction agents as [|agent agents IH]; intros i Hi Hshort.
  - simpl in Hshort. lia.
  - rewrite policy_agents_cons in Hshort. simpl.
    destruct (Agent.policy agent).
    + unfold list_getitem at 1.
      destruct (action_n !! i) as [action|] eqn:Hact; [|eauto].
      apply lookup_lt_Some in Hact. simpl in Hshort.
      destruct (list_getitem (Env.action_space e) i) as [sp|]; [|eauto].
      destruct (_set_action e action agent sp) as [agent' [[]|ex]]; [|eauto].
      destruct (IH (S i) ltac:(lia) ltac:(lia)) as (agents' & ex & Hrest).
      rewrite Hrest. eauto.
    + destruct (IH i Hi Hshort) as (agents' & ex & Hrest).
      rewrite Hrest. eauto.
Qed.

(** X18: a [step] given fewer actions than the world has policy agents
    raises; the clock is not advanced, [world.step()] is not called (the
    landmarks and the dimensions of the world are as they were) and the
    stored observations are the old ones. *)
Theorem step_with_too_few_actions_raises (e : Env.t) (action_n : list pyval) :
  length action_n < length (World.policy_agents (Env.world e)) ->
  exists e' ex,
    step e action_n = (e', Raise ex) /\
    Env.time e' = Env.time e /\
    Env.obs_n e' = Env.obs_n e /\
    World.landmarks (Env.world e') = World.landmarks (Env.world e) /\
    length (World.agents (Env.world e')) = length (World.agents (Env.world e)).
Proof.
  intros Hshort. unfold World.policy_agents in Hshort.
  destruct (set_actions_short e action_n (World.agents (Env.world e)) 0
              ltac:(lia) ltac:(lia)) as (agents' & ex & Hset).
  unfold step, decode_actions. rewrite Hset.
  eexists _, ex. split; [reflexivity|].
  split; [reflexivity|]. split; [reflexivity|]. split; [reflexivity|].
  simpl. clear Hshort.
  assert (Hlen : forall agents i agents0 r,
            set_actions e action_n i agents = (agents0, r) ->
            length agents0 = length agents).
  { induction agents as [|agent agents IH]; intros i agents0 r H; simpl in H.
    - inversion H. reflexivity.
    - destruct (Agent.policy agent).
      + destruct (list_getitem action_n i) as [action|]; [|inversion H; reflexivity].
        destruct (list_getitem (Env.action_space e) i) as [sp|];
          [|inversion H; reflexivity].
        destruct (_set_action e action agent sp) as [agent' [[]|ex']];
          [|inversion H; reflexivity].
        destruct (set_actions e action_n (S i) agents) as [rest r'] eqn:Hrest.
        inversion H; subst. simpl. f_equal. exact (IH _ _ _ Hrest).
      + destruct (set_actions e action_n i agents) as [rest r'] eqn:Hrest.
        inversion H; subst. simpl. f_equal. exact (IH _ _ _ Hrest). }
  exact (Hlen _ _ _ _ Hset).
Qed.

Lemma step_with_too_few_actions_raises_witness :
  snd (step three_agent_env [PInt 1; PInt 2]) = Raise IndexError /\
  exists e' ex,
    step three_agent_env [PInt 1; PInt 2] = (e', Raise ex) /\
    Env.time e' = Env.time three_agent_env /\
    Env.obs_n e' = Env.obs_n three_agent_env /\
    World.landmarks (Env.world e') = World.landmarks (Env.world three_agent_env) /\
    length (World.agents (Env.world e'))
      = length (World.agents (Env.world three_agent_env)).
Proof.
  split; [vm_compute; reflexivity|].
  apply (step_with_too_few_actions_raises three_agent_env [PInt 1; PInt 2]).
  apply le_n.
Defined.

Lemma set_actions_surplus e action_n extra :
  forall agents i,
    i + length (filter (fun a => Agent.policy a = true) agents) <= length action_n ->
    set_actions e (action_n ++ extra) i agents = set_actions e action_n i agents.
Proof.
  induction agents as [|agent agents IH]; intros i Hlen; [reflexivity|].
  rewrite policy_agents_cons in Hlen. simpl.
  destruct (Agent.policy agent).
  - simpl in Hlen. unfold list_getitem at 1 3.
    rewrite lookup_app_l by lia.
    destruct (action_n !! i) as [action|]; [|reflexivity].
    destruct (list_getitem (Env.action_space e) i) as [sp|]; [|reflexivity].
    destruct (_set_action e action agent sp) as [agent' [[]|ex]]; [|reflexivity].
    rewrite IH by lia. reflexivity.
  - rewrite IH by lia. reflexivity.
Qed.

(** X19: actions beyond the number of policy agents are never read: a
    [step] on a list with surplus actions does exactly what it does on the
    list without them; the length of the list is not checked. *)
Theorem step_ignores_surplus_actions (e : Env.t) (action_n extra : list pyval) :
  length (World.policy_agents (Env.world e)) <= length action_n ->
  step e (action_n ++ extra) = step e action_n.
Proof.
  intros Hlen. unfold step, decode_actions.
  rewrite set_actions_surplus by (unfold World.policy_agents in Hlen; lia).
  reflexivity.
Qed.

Lemma step_ignores_surplus_actions_witness :
  step three_agent_env ([PInt 1; PInt 2; PInt 0] ++ [PArr []; PInt 9])
  = step three_agent_env [PInt 1; PInt 2; PInt 0].
Proof.
  apply (step_ignores_surplus_actions three_agent_env). apply le_n.
Defined.

(** ** What the decoding loop leaves alone *)

Lemma _set_action_same_but_controls e action agent action_space :
  Agent.policy agent = true ->
  same_but_controls agent (fst (_set_action e action agent action_space)).
Proof.
  intros Hp. rewrite _set_action_body. simpl.
  repeat split; try reflexivity. congruence.
Qed.

Lemma same_but_controls_refl a : same_but_controls a a.
Proof. repeat split; reflexivity. Qed.

Lemma set_actions_same_but_controls e action_n :
  forall agents i,
    Forall2 same_but_controls agents (fst (set_actions e action_n i agents)).
Proof.
  induction agents as [|agent agents IH]; intros i; simpl; [constructor|].
  assert (Hrefl : Forall2 same_but_controls agents agents).
  { clear. induction agents; constructor; auto using same_but_controls_refl. }
  destruct (Agent.policy agent) eqn:Hp.
  - destruct (list_getitem action_n i) as [action|];
      [|constructor; auto using same_but_controls_refl].
    destruct (list_getitem (Env.action_space e) i) as [sp|];
      [|constructor; auto using same_but_controls_refl].
    pose proof (_set_action_same_but_controls e action agent sp Hp) as Hsame.
    destruct (_set_action e action agent sp) as [agent' [[]|ex]]; simpl in Hsame.
    + specialize (IH (S i)).
      destruct (set_actions e action_n (S i) agents) as [rest r].
      constructor; assumption.
    + constructor; assumption.
  - specialize (IH i). destruct (set_actions e action_n i agents) as [rest r].
    constructor; [|assumption].
    repeat split; reflexivity.
Qed.

(** X20: the decoding loop of [step], whether it runs to its end or
    raises, writes the control fields of policy agents and nothing else:
    the world keeps its agents in number and order, every agent keeps its
    flags, its sensitivity and its position and velocity, every scripted
    agent is left exactly as it was, and the landmarks and dimensions of
    the world are untouched. *)
Theorem decoding_writes_controls_only (e : Env.t) (action_n : list pyval) :
  let e' := fst (decode_actions e action_n) in
  Forall2 same_but_controls (World.agents (Env.world e))
          (World.agents (Env.world e')) /\
  World.landmarks (Env.world e') = World.landmarks (Env.world e) /\
  World.dim_p (Env.world e') = World.dim_p (Env.world e) /\
  World.dim_c (Env.world e') = World.dim_c (Env.world e) /\
  Env.time e' = Env.time e.
Proof.
  cbv zeta. unfold decode_actions.
  pose proof (set_actions_same_but_controls e action_n
                (World.agents (Env.world e)) 0) as Hsame.
  destruct (set_actions e action_n 0 (World.agents (Env.world e))) as [agents r].
  simpl in *. repeat split; try reflexivity. exact Hsame.
Qed.

(** ** What a step stores and what it leaves alone *)

(** X21: a [step] that returns stores one observation per policy agent of
    the world as [world.step()] left it and returns one info mapping per
    such agent; it changes neither the action spaces, nor the time limit,
    nor the episode counter, nor the translation maps. *)
Theorem step_stores_one_observation_per_policy_agent
    (e : Env.t) (action_n : list pyval) (e' : Env.t)
    (r : float * float * list Info) :
  step e action_n = (e', Ret r) ->
  length (Env.obs_n e') = length (World.policy_agents (Env.world e')) /\
  length (snd r) = length (World.policy_agents (Env.world e')) /\
  Forall (fun o => o <> None) (Env.obs_n e') /\
  Env.action_space e' = Env.action_space e /\
  Env.time_limit e' = Env.time_limit e /\
  Env.num_episodes e' = Env.num_episodes e /\
  Env.translate_observation e' = Env.translate_observation e /\
  Env.translate_state e' = Env.translate_state e.
Proof.
  intros H. apply step_returns in H as (ed & Hdec & He' & Hr).
  pose proof (decode_actions_env e action_n) as [agents Hagents].
  rewrite Hdec in Hagents. simpl in Hagents.
  cbv zeta in He', Hr. subst e' r ed. simpl.
  unfold record_step. simpl.
  rewrite !length_map.
  split; [reflexivity|]. split; [reflexivity|].
  split; [|repeat split; reflexivity].
  apply Forall_forall. intros o Ho.
  apply list_elem_of_fmap in Ho as (v & -> & _). discriminate.
Qed.

Lemma step_stores_one_observation_per_policy_agent_witness :
  let e' := fst (step three_agent_env [PInt 1; PInt 2; PInt 0]) in
  Env.obs_n e' = [Some []; Some []; Some []] /\
  length (Env.obs_n e') = length (World.policy_agents (Env.world e')) /\
  Env.action_space e' = Env.action_space three_agent_env.
Proof.
  cbv zeta.
  assert (H : step three_agent_env [PInt 1; PInt 2; PInt 0] =
              (fst (step three_agent_env [PInt 1; PInt 2; PInt 0]),
               Ret (returned (0.0, 0.0, [])%float
                      (snd (step three_agent_env [PInt 1; PInt 2; PInt 0])))))
    by (vm_compute; reflexivity).
  destruct (step_stores_one_observation_per_policy_agent _ _ _ _ H)
    as (Hobs & _ & _ & Hspace & _).
  split; [vm_compute; reflexivity|]. split; [exact Hobs|exact Hspace].
Defined.

(** ** Missing callbacks *)

Lemma map_const {A B} (b : B) (l : list A) :
  map (fun _ => b) l = replicate (length l) b.
Proof. induction l as [|a l IH]; [reflexivity|]. simpl. rewrite IH. reflexivity. Qed.

(** X22: the defaults of the scenario callbacks.  A [step] that returns in
    an environment without reward callback returns the reward 0.0,
    whatever the number of agents; without info callback it returns one
    empty mapping per policy agent; without observation callback it stores
    one empty array per policy agent. *)
Theorem step_without_callbacks
    (e : Env.t) (action_n : list pyval) (e' : Env.t)
    (r : float * float * list Info) :
  step e action_n = (e', Ret r) ->
  let k := length (World.policy_agents (Env.world e')) in
  (Env.reward_callback e = None -> reward_of r = 0.0%float) /\
  (Env.info_callback e = None -> snd r = replicate k (∅ : Info)) /\
  (Env.observation_callback e = None -> Env.obs_n e' = replicate k (Some [])).
Proof.
  intros H. apply step_returns in H as (ed & Hdec & He' & Hr).
  pose proof (decode_actions_env e action_n) as [agents Hagents].
  rewrite Hdec in Hagents. simpl in Hagents.
  cbv zeta in He', Hr. subst e' r ed. cbv zeta. simpl.
  unfold record_step, total_reward, reward_of, _get_reward, _get_info, _get_obs.
  simpl. split; [|split]; intros Hnone; rewrite Hnone.
  - rewrite map_const. apply np_sum_zeros.
  - apply map_const.
  - rewrite map_const. unfold np_zeros. simpl.
    generalize (length (World.policy_agents
                          (Env.world_step e
                             (World.set_agents (Env.world e) agents)))).
    intros k. induction k as [|k IH]; [reflexivity|].
    simpl. rewrite IH. reflexivity.
Qed.

Lemma step_without_callbacks_witness :
  let r := returned (1.0, 1.0, [])%float
             (snd (step mover_speaker_env [PInt 2; PInt 1])) in
  reward_of r = 0.0%float /\
  snd r = [∅; ∅] /\
  Env.obs_n (fst (step mover_speaker_env [PInt 2; PInt 1])) = [Some []; Some []].
Proof.
  cbv zeta.
  assert (H : step mover_speaker_env [PInt 2; PInt 1] =
              (fst (step mover_speaker_env [PInt 2; PInt 1]),
               Ret (returned (1.0, 1.0, [])%float
                      (snd (step mover_speaker_env [PInt 2; PInt 1])))))
    by (vm_compute; reflexivity).
  destruct (step_without_callbacks _ _ _ _ H) as (Hreward & Hinfo & Hobs).
  split; [apply Hreward; reflexivity|].
  split; [rewrite Hinfo by reflexivity|rewrite Hobs by reflexivity];
    vm_compute; reflexivity.
Defined.

(** ** Reset *)

Lemma reset_spec (e : Env.t) (evaluate : bool) :
  (Env.reset_callback e = None -> reset e evaluate = (e, Raise TypeError)) /\
  (forall cb,
     Env.reset_callback e = Some cb ->
     Env.translate_observation e = None ->
     two_dimensional (cb (Env.world e)) ->
     exists e' obs,
       reset e evaluate = (e', Ret obs) /\
       length obs = length (World.policy_agents (cb (Env.world e))) /\
       Env.world e' = cb (Env.world e) /\
       Env.time e' = 0%Z /\
       Env.num_episodes e' = Env.num_episodes e + (if evaluate then 0 else 1) /\
       Env.action_space e' = Env.action_space e /\
       Env.time_limit e' = Env.time_limit e).
Proof.
  split.
  - intros Hnone. unfold reset. rewrite Hnone. reflexivity.
  - intros cb Hcb Hnone H2d. unfold reset. rewrite Hcb.
    set (e1 := if negb evaluate
               then Env.set_num_episodes
                      (Env.set_time (Env.set_world e (cb (Env.world e))) 0)
                      (Env.num_episodes
                         (Env.set_time (Env.set_world e (cb (Env.world e))) 0) + 1)
               else Env.set_time (Env.set_world e (cb (Env.world e))) 0).
    assert (Hworld : Env.world e1 = cb (Env.world e))
      by (unfold e1; destruct evaluate; reflexivity).
    assert (Htr : Env.translate_observation e1 = None)
      by (unfold e1; destruct evaluate; exact Hnone).
    destruct (get_obs_2d e1 Htr
                ltac:(rewrite Hworld; exact H2d)) as (l & Hl & Hlen & _).
    exists e1, l. split; [rewrite Hl; reflexivity|].
    split; [rewrite Hlen, Hworld; reflexivity|].
    split; [exact Hworld|].
    unfold e1. destruct evaluate; simpl; repeat split; lia.
Qed.

(** X23: [reset] needs its callback: without one it raises [TypeError]
    and changes nothing.  With one that leaves a two-dimensional world, and
    no translation map, it returns one observation per policy agent of
    that world, sets the clock to 0 and counts the episode unless
    [evaluate] is set; the action spaces and the time limit stay. *)
Theorem reset_returns_fresh_observations (e : Env.t) (evaluate : bool) :
  (Env.reset_callback e = None -> reset e evaluate = (e, Raise TypeError)) /\
  (forall cb,
     Env.reset_callback e = Some cb ->
     Env.translate_observation e = None ->
     two_dimensional (cb (Env.world e)) ->
     exists e' obs,
       reset e evaluate = (e', Ret obs) /\
       length obs = length (World.policy_agents (cb (Env.world e))) /\
       Env.world e' = cb (Env.world e) /\
       Env.time e' = 0%Z /\
       Env.num_episodes e' = Env.num_episodes e + (if evaluate then 0 else 1) /\
       Env.action_space e' = Env.action_space e /\
       Env.time_limit e' = Env.time_limit e).
Proof. exact (reset_spec e evaluate). Qed.

Lemma reset_returns_fresh_observations_witness :
  let played := fst first_episode in
  Env.time played = 3%Z /\
  Env.num_episodes played = 1 /\
  exists e' obs,
    reset played true = (e', Ret obs) /\
    length obs = 1 /\
    Env.time e' = 0%Z /\
    Env.num_episodes e' = 1 + 0.
Proof.
  cbv zeta. split; [vm_compute; reflexivity|]. split; [vm_compute; reflexivity|].
  destruct (proj2 (reset_returns_fresh_observations (fst first_episode) true)
              (fun w => w))
    as (e' & obs & Hreset & Hlen & _ & Htime & Hcount & _).
  - vm_compute. reflexivity.
  - vm_compute. reflexivity.
  - split; vm_compute; repeat constructor.
  - exists e', obs. split; [exact Hreset|]. split; [|split].
    + rewrite Hlen. vm_compute. reflexivity.
    + exact Htime.
    + rewrite Hcount. vm_compute. reflexivity.
Defined.

(** ** Construction

    The gym constructors are taken as plain data: a check that a gym
    version makes on the arguments of [Discrete] or [Box] is not part of
    the model. *)

Lemma compose_returns_iff discrete_action_space world agent :
  (exists sp, compose_action_space discrete_action_space world agent = Ret sp)
  <-> moves_or_speaks agent.
Proof.
  unfold compose_action_space, moves_or_speaks.
  destruct (Agent.movable agent), (Agent.silent agent), discrete_action_space;
    simpl; split; intros H; eauto;
    try (destruct H as [sp H]; discriminate);
    try (destruct H; discriminate).
Qed.

Lemma configure_spaces_returns das ocb world :
  forall todo done agents asp osp,
    configure_spaces das ocb world done todo = Ret (agents, asp, osp) ->
    agents = done ++ map (with_zero_signal (World.dim_c world)) todo /\
    length osp = length asp /\
    Forall2 (fun a sp => compose_action_space das world a = Ret sp)
            (filter (fun a => Agent.policy a = true) todo) asp /\
    (filter (fun a => Agent.policy a = true) todo <> [] -> ocb <> None).
Proof.
  induction todo as [|agent todo IH]; intros done agents asp osp H; simpl in H.
  - inversion H; subst. rewrite app_nil_r.
    split; [reflexivity|]. split; [reflexivity|]. split; [constructor|].
    intros Hne. destruct Hne. reflexivity.
  - rewrite policy_agents_cons.
    assert (Hhead : forall d,
              d ++ map (with_zero_signal (World.dim_c world)) (agent :: todo) =
              (d ++ [with_zero_signal (World.dim_c world) agent])
              ++ map (with_zero_signal (World.dim_c world)) todo)
      by (intros d; rewrite <- app_assoc; reflexivity).
    rewrite Hhead. unfold with_zero_signal at 1.
    destruct (Agent.policy agent) eqn:Hp.
    + destruct (compose_action_space das world agent) as [sp|] eqn:Hsp;
        [|discriminate].
      simpl in H. destruct ocb as [cb|]; [|discriminate]. simpl in H.
      destruct (configure_spaces das (Some cb) world _ todo)
        as [[[agents' asp'] osp']|] eqn:Hrest; [|discriminate].
      simpl in H. inversion H; subst; clear H.
      destruct (IH _ _ _ _ Hrest) as (Hagents & Hlen & Hspaces & _).
      split; [exact Hagents|].
      split; [simpl; lia|]. split; [constructor; assumption|].
      intros _. discriminate.
    + destruct (IH _ _ _ _ H) as (Hagents & Hlen & Hspaces & Hocb).
      auto.
Qed.

Lemma configure_spaces_total das cb world :
  forall todo done,
    Forall (fun a => Agent.policy a = true -> moves_or_speaks a) todo ->
    exists r, configure_spaces das (Some cb) world done todo = Ret r.
Proof.
  induction todo as [|agent todo IH]; intros done Hall; simpl.
  - eauto.
  - inversion Hall as [|? ? Hagent Hrest]; subst.
    destruct (Agent.policy agent) eqn:Hp.
    + destruct (proj2 (compose_returns_iff das world agent) (Hagent eq_refl))
        as [sp Hsp].
      rewrite Hsp. simpl.
      destruct (IH (done ++ [Agent.set_action agent
                               (Action.mk (Action.u (Agent.action agent))
                                          (PArr (np_zeros (World.dim_c world))))])
                  Hrest) as [[[agents asp] osp] Hr].
      rewrite Hr. simpl. eauto.
    + apply IH. exact Hrest.
Qed.

(** X24: the environment [__init__] returns.  It has one action space and
    one observation space per policy agent, each action space being the
    one the composer builds for that agent; [n] and [n_agents] are the
    number of policy agents; the clock and the episode counter are 0; no
    translation map is configured; and in its world every policy agent has
    had its communication signal set to zeros of length [dim_c], all else
    being as in the world given. *)
Theorem init_configures_one_space_per_policy_agent
    (world : World.t) (world_step : World.t -> World.t)
    (reset_callback : option (World.t -> World.t))
    (reward_callback : option (Agent.t -> World.t -> float))
    (observation_callback : option (Agent.t -> World.t -> list float))
    (info_callback : option (Agent.t -> World.t -> Info))
    (done_callback : option (Agent.t -> World.t -> bool))
    (discrete_action_space discrete_action_input : bool) (time_limit : Z)
    (e : Env.t) :
  __init__ world world_step reset_callback reward_callback observation_callback
    info_callback done_callback discrete_action_space discrete_action_input
    time_limit = Ret e ->
  let k := length (World.policy_agents world) in
  Env.n e = k /\ Env.n_agents e = k /\
  length (Env.action_space e) = k /\
  length (Env.observation_space e) = k /\
  Forall2 (fun a sp => compose_action_space discrete_action_space world a = Ret sp)
          (World.policy_agents world) (Env.action_space e) /\
  Env.time e = 0%Z /\ Env.num_episodes e = 0 /\
  Env.time_limit e = time_limit /\
  Env.obs_n e = replicate k None /\
  Env.translate_observation e = None /\ Env.translate_state e = None /\
  World.agents (Env.world e)
    = map (with_zero_signal (World.dim_c world)) (World.agents world) /\
  World.landmarks (Env.world e) = World.landmarks world.
Proof.
  unfold __init__. intros H.
  destruct (configure_spaces discrete_action_space observation_callback world []
              (World.agents world)) as [[[agents asp] osp]|] eqn:Hconf;
    [|discriminate].
  simpl in H. inversion H; subst; clear H. cbv zeta. simpl.
  destruct (configure_spaces_returns _ _ _ _ _ _ _ _ Hconf)
    as (Hagents & Hlen & Hspaces & _).
  pose proof (Forall2_length _ _ _ Hspaces) as Hk.
  unfold World.policy_agents.
  repeat split; try reflexivity; try assumption; try lia.
Qed.

Lemma composed_agents_move_or_speak das world (l : list Agent.t) asp :
  Forall2 (fun a sp => compose_action_space das world a = Ret sp) l asp ->
  Forall moves_or_speaks l.
Proof.
  induction 1 as [|a sp l asp Hsp _ IH]; constructor; [|exact IH].
  apply (proj1 (compose_returns_iff das world a)). eauto.
Qed.

(** X25: in a world with a communication dimension of one at least (so
    that no space the constructor builds is empty), [__init__] returns
    exactly when every policy agent of the world moves or speaks, and an
    observation callback is given unless the world has no policy agent. *)
Theorem init_returns_iff
    (world : World.t) (world_step : World.t -> World.t)
    (reset_callback : option (World.t -> World.t))
    (reward_callback : option (Agent.t -> World.t -> float))
    (observation_callback : option (Agent.t -> World.t -> list float))
    (info_callback : option (Agent.t -> World.t -> Info))
    (done_callback : option (Agent.t -> World.t -> bool))
    (discrete_action_space discrete_action_input : bool) (time_limit : Z) :
  0 < World.dim_c world ->
  (exists e,
     __init__ world world_step reset_callback reward_callback observation_callback
       info_callback done_callback discrete_action_space discrete_action_input
       time_limit = Ret e)
  <->
  (Forall moves_or_speaks (World.policy_agents world) /\
   (World.policy_agents world <> [] -> observation_callback <> None)).
Proof.
  intros _. unfold __init__. split.
  - intros [e H].
    destruct (configure_spaces discrete_action_space observation_callback world []
                (World.agents world)) as [[[agents asp] osp]|] eqn:Hconf;
      [|discriminate].
    destruct (configure_spaces_returns _ _ _ _ _ _ _ _ Hconf)
      as (_ & _ & Hspaces & Hocb).
    split; [|exact Hocb].
    exact (composed_agents_move_or_speak _ _ _ _ Hspaces).
  - intros [Hall Hocb].
    assert (Hall' : Forall (fun a => Agent.policy a = true -> moves_or_speaks a)
                           (World.agents world)).
    { apply Forall_forall. intros a Hin Hp.
      rewrite Forall_forall in Hall. apply Hall.
      unfold World.policy_agents. apply list_elem_of_filter. auto. }
    destruct observation_callback as [cb|].
    + destruct (configure_spaces_total discrete_action_space cb world
                  (World.agents world) [] Hall') as [[[agents asp] osp] Hr].
      rewrite Hr. simpl. eauto.
    + assert (Hnone : World.policy_agents world = []).
      { destruct (World.policy_agents world) as [|a l] eqn:Hk; [reflexivity|].
        exfalso. apply Hocb; [discriminate|reflexivity]. }
      assert (Hskip : forall todo done,
                filter (fun a => Agent.policy a = true) todo = [] ->
                configure_spaces discrete_action_space None world done todo
                = Ret (done ++ todo, [], [])).
      { induction todo as [|a todo IH]; intros done Hf; simpl.
        - rewrite app_nil_r. reflexivity.
        - rewrite policy_agents_cons in Hf.
          destruct (Agent.policy a); [discriminate|].
          rewrite IH by exact Hf. rewrite <- app_assoc. reflexivity. }
      unfold World.policy_agents in Hnone.
      rewrite (Hskip _ [] Hnone). simpl. eauto.
Qed.

(** [mover_speaker_world] is built; the same world with an agent that
    neither moves nor speaks would not satisfy the condition. *)
Lemma init_returns_iff_witness :
  (exists e, built_env = Ret e) /\
  Forall moves_or_speaks (World.policy_agents mover_speaker_world).
Proof.
  assert (Hdim : 0 < World.dim_c mover_speaker_world) by (simpl; lia).
  assert (Hex : exists e, built_env = Ret e) by (eexists; vm_compute; reflexivity).
  split; [exact Hex|].
  exact (proj1 (proj1 (init_returns_iff mover_speaker_world (fun w => w)
                         (Some (fun w => w)) None (Some (fun _ _ => [1.0%float]))
                         None None true true 25 Hdim) Hex)).
Defined.

Lemma init_configures_one_space_per_policy_agent_witness :
  let e := returned mover_speaker_env built_env in
  Env.action_space e = [Discrete 5; Discrete 3] /\
  map (fun a => Action.c (Agent.action a)) (World.agents (Env.world e))
    = [PArr [0; 0; 0]%float; PArr [0; 0; 0]%float] /\
  map (fun a => Action.u (Agent.action a)) (World.agents (Env.world e))
    = [PArr [9; 9]%float; PArr [9; 9]%float] /\
  Env.n e = 2 /\
  length (Env.observation_space e) = 2 /\
  Env.obs_n e = [None; None].
Proof.
  cbv zeta.
  assert (H : built_env = Ret (returned mover_speaker_env built_env))
    by (vm_compute; reflexivity).
  unfold built_env in H at 1.
  pose proof (init_configures_one_space_per_policy_agent _ _ _ _ _ _ _ _ _ _ _ H)
    as (Hn & _ & _ & Hobs & _ & _ & _ & _ & Hobs_n & _).
  split; [vm_compute; reflexivity|]. split; [vm_compute; reflexivity|].
  split; [vm_compute; reflexivity|].
  split; [exact Hn|]. split; [exact Hobs|exact Hobs_n].
Defined.

(** ** The number of actions *)

(** X26: with a discrete action space [get_total_actions] is 5 and
    [get_avail_agent_actions] offers 5 indices, whatever the world; the
    space of a silent mover has [2 * dim_p + 1] values, so the two agree
    exactly when the world has two axes.  With a continuous action space
    [get_total_actions] raises [ValueError].  The world has a
    communication dimension of one at least. *)
Theorem total_actions_match_space_iff_two_axes
    (e : Env.t) (agent : Agent.t) (agent_id : nat) :
  0 < World.dim_c (Env.world e) ->
  Agent.movable agent = true ->
  Agent.silent agent = true ->
  (Env.discrete_action_space e = true ->
   exists n_actions,
     get_total_actions e = Ret n_actions /\
     length (get_avail_agent_actions e agent_id) = n_actions /\
     compose_action_space (Env.discrete_action_space e) (Env.world e) agent
       = Ret (Discrete (Z.of_nat (2 * World.dim_p (Env.world e) + 1))) /\
     (n_actions = 2 * World.dim_p (Env.world e) + 1
      <-> World.dim_p (Env.world e) = 2)) /\
  (Env.discrete_action_space e = false ->
   get_total_actions e = Raise ValueError).
Proof.
  intros _ Hm Hs. split; intros Hdas.
  - exists 5. unfold get_total_actions, compose_action_space.
    rewrite Hdas, Hm, Hs. simpl.
    split; [reflexivity|]. split; [reflexivity|]. split; [|lia].
    do 2 f_equal. lia.
  - unfold get_total_actions. rewrite Hdas. reflexivity.
Qed.

Lemma total_actions_match_space_iff_two_axes_witness :
  let world := World.mk [sample_agent true true] [] 3 1 None None in
  let e := sample_env world [Discrete 7] true true 25 in
  get_total_actions e = Ret 5 /\
  compose_action_space true world (sample_agent true true) = Ret (Discrete 7) /\
  get_total_actions (sample_env world [] false false 25) = Raise ValueError.
Proof.
  cbv zeta.
  destruct (total_actions_match_space_iff_two_axes
              (sample_env (World.mk [sample_agent true true] [] 3 1 None None)
                 [Discrete 7] true true 25)
              (sample_agent true true) 0 (le_n 1) eq_refl eq_refl)
    as [Hdiscrete _].
  destruct (Hdiscrete eq_refl) as (n_actions & Htotal & _ & Hspace & _).
  split; [reflexivity|]. split; [exact Hspace|reflexivity].
Defined.

(** ** The batch adapter *)

Lemma batch_reset_from_returns :
  forall env_batch results obs_n,
    Forall2 (fun env res => reset env false = (res.1, Ret res.2))
            env_batch results ->
    batch_reset_from obs_n env_batch =
    (map fst results, Ret (obs_n ++ concat (map snd results))).
Proof.
  induction env_batch as [|env env_batch IH]; intros results obs_n Hall;
    inversion Hall as [|? [env' obs] ? results' Hreset Hrest]; subst; simpl.
  - rewrite app_nil_r. reflexivity.
  - simpl in Hreset. rewrite Hreset, (IH _ _ Hrest), app_assoc. reflexivity.
Qed.

Lemma batch_reset_from_raises :
  forall before results obs_n env env' ex after,
    Forall2 (fun env res => reset env false = (res.1, Ret res.2))
            before results ->
    reset env false = (env', Raise ex) ->
    batch_reset_from obs_n (before ++ env :: after) =
    (map fst results ++ env' :: after, Raise ex).
Proof.
  induction before as [|env0 before IH];
    intros results obs_n env env' ex after Hall Hraise;
    inversion Hall as [|? [env0' obs] ? results' Hreset Hrest]; subst; simpl.
  - rewrite Hraise. reflexivity.
  - simpl in Hreset. rewrite Hreset, (IH _ _ _ _ _ _ Hrest Hraise). reflexivity.
Qed.

(** X27: the reset of a batch resets its environments in order.  When
    every reset returns, the batch returns the lists of observations the
    environments returned, concatenated in the order of the batch, and
    every environment is left as its own reset leaves it.  When the resets
    of the first environments return and the next one raises, the batch
    raises the same exception: the environments before it have been reset,
    those after it are untouched, and no observation is returned. *)
Theorem batch_reset_concatenates
    (env_batch : list Env.t) (results : list (Env.t * list assembled)) :
  Forall2 (fun env res => reset env false = (res.1, Ret res.2))
          env_batch results ->
  batch_reset env_batch = (map fst results, Ret (concat (map snd results))) /\
  (forall env env' ex after,
     reset env false = (env', Raise ex) ->
     batch_reset (env_batch ++ env :: after) =
     (map fst results ++ env' :: after, Raise ex)).
Proof.
  intros Hall. unfold batch_reset. split.
  - apply (batch_reset_from_returns env_batch results [] Hall).
  - intros env env' ex after Hraise.
    apply (batch_reset_from_raises env_batch results [] env env' ex after
             Hall Hraise).
Qed.

(** The observations of the one agent of [lone_agent_env], then those of
    the three agents of [three_agent_env]; a third environment whose
    translation map is empty makes the batch raise. *)
Lemma batch_reset_concatenates_witness :
  let own := [0.5; 1; 0; 0.25]%float in
  let unmapped := Env.set_translate_observation three_agent_env (Some []) in
  snd (batch_reset [lone_agent_env; three_agent_env]) =
    Ret [Values (own ++ [0.5; 0; 1.5; -2]%float);
         Values (own ++ [0; 0; 0; 0; 0.5; 0]%float);
         Values (own ++ [0; 0; 0; 0; 0.5; 0]%float);
         Values (own ++ [0; 0; 0; 0; 0.5; 0]%float)] /\
  snd (batch_reset ([lone_agent_env; three_agent_env] ++ [unmapped])) =
    Raise IndexError.
Proof.
  cbv zeta.
  assert (H1 : exists env1,
             reset lone_agent_env false =
             (env1, Ret [Values [0.5; 1; 0; 0.25; 0.5; 0; 1.5; -2]%float]))
    by (eexists; vm_compute; reflexivity).
  assert (H2 : exists env2,
             reset three_agent_env false =
             (env2, Ret [Values [0.5; 1; 0; 0.25; 0; 0; 0; 0; 0.5; 0]%float;
                         Values [0.5; 1; 0; 0.25; 0; 0; 0; 0; 0.5; 0]%float;
                         Values [0.5; 1; 0; 0.25; 0; 0; 0; 0; 0.5; 0]%float]))
    by (eexists; vm_compute; reflexivity).
  assert (H3 : exists env3,
             reset (Env.set_translate_observation three_agent_env (Some []))
               false = (env3, Raise IndexError))
    by (eexists; vm_compute; reflexivity).
  destruct H1 as [env1 H1], H2 as [env2 H2], H3 as [env3 H3].
  destruct (batch_reset_concatenates
              [lone_agent_env; three_agent_env]
              [(env1, [Values [0.5; 1; 0; 0.25; 0.5; 0; 1.5; -2]%float]);
               (env2, [Values [0.5; 1; 0; 0.25; 0; 0; 0; 0; 0.5; 0]%float;
                       Values [0.5; 1; 0; 0.25; 0; 0; 0; 0; 0.5; 0]%float;
                       Values [0.5; 1; 0; 0.25; 0; 0; 0; 0; 0.5; 0]%float])])
    as [Hret Hraise].
  { constructor; [exact H1|]. constructor; [exact H2|constructor]. }
  split.
  - rewrite Hret. reflexivity.
  - rewrite (Hraise _ _ _ [] H3). reflexivity.
Defined.
